(** * Lending liquidation sentinel: risk formulas, protocol adapters, price feed

    A shallow embedding of [src/lending_monitor.py],
    [src/protocol_interfaces.py], [src/price_feed.py] and the monitoring
    endpoint of [src/main.py].

    Python [float] is IEEE-754 binary64 and is modelled by Rocq's primitive
    [float]; Python [int] is unbounded and is modelled by [Z]; [dict]s are
    stdpp finite maps; exceptions are an explicit [result] type; network
    traffic (RPC connectivity checks, contract reads, HTTP requests) is
    recorded in a trace so that "before any network call" can be stated. *)

From Stdlib Require Import ZArith Floats Lia Ascii Zpower.
From stdpp Require Import gmap strings list pretty.

#[local] Set Warnings "-inexact-float,-clear-no-such-hyp".
#[local] Open Scope Z_scope.

(** ** Exceptions and results *)

Inductive exn : Type :=
  | ZeroDivisionError   (* float division by zero *)
  | OverflowError       (* int too large to convert to float *)
  | ValueError          (* unsupported (protocol, chain); malformed address *)
  | ConnectionError     (* RPC endpoint unreachable *)
  | KeyError            (* missing dict key *)
  | ContractCallError   (* any failure of a contract read: revert, timeout, decode *)
  | HTTPStatusError     (* response.raise_for_status() *)
  | HTTPError.          (* any other transport or JSON failure *)

Inductive result (A : Type) : Type :=
  | Ok (a : A)
  | Raise (e : exn).
Arguments Ok {A} a.
Arguments Raise {A} e.

Definition rbind {A B} (r : result A) (k : A → result B) : result B :=
  match r with
  | Ok a => k a
  | Raise e => Raise e
  end.

Declare Scope py_scope.
Delimit Scope py_scope with py.
Notation "x <- r ;; k" := (rbind r (fun x => k))
  (at level 100, r at next level, right associativity) : py_scope.

(** ** Numbers *)

(** A Python number as the code produces them: [return 0] yields an [int],
    arithmetic on floats yields a [float]. *)
Inductive pynum (F : Type) : Type :=
  | PInt (z : Z)
  | PFloat (f : F).
Arguments PInt {F} z.
Arguments PFloat {F} f.

(** The arithmetic that [calculate_liquidation_price] uses: the product, the
    quotient and the comparison with zero of the numbers it is run on. *)
Class Arith (F : Type) : Type := {
  num_mul : F → F → F;
  num_div : F → F → F;          (* quotient for a non-zero divisor *)
  num_is_zero : F → bool;       (* [x == 0] *)
}.

(** Python's [/] on floats: raises on a zero divisor, otherwise the quotient. *)
Definition truediv {F} `{Arith F} (x y : F) : result F :=
  if num_is_zero y then Raise ZeroDivisionError else Ok (num_div x y).

(** Comparisons of a float with the int literal [0]. *)
Definition eq0 (x : float) : bool := PrimFloat.eqb x 0%float.   (* x == 0 *)
Definition gt0 (x : float) : bool := PrimFloat.ltb 0%float x.    (* x > 0 *)

#[global] Instance binary64 : Arith float := {
  num_mul := PrimFloat.mul;
  num_div := PrimFloat.div;
  num_is_zero := eq0;
}.

Definition inf : float := infinity.   (* float('inf') *)

(** [float(z)] for a Python int: round to nearest, ties to even;
    [OverflowError] once the rounded value would reach 2^1024. *)
Definition of_Z (z : Z) : float := SF2Prim (binary_normalize prec emax z 0 false).

Definition float_of_int (z : Z) : result float :=
  if Z.abs z <? 2 ^ 1024 - 2 ^ 970 then Ok (of_Z z) else Raise OverflowError.

(** [z / y] with [z] an int and [y] a float: the int is converted first. *)
Definition int_truediv (z : Z) (y : float) : result float :=
  (x <- float_of_int z ;; truediv x y)%py.

(** ** The outside world and the effect monad *)

(** A network round trip, as the program can cause them. *)
Inductive event : Type :=
  | IsConnected (rpc_url : string)                          (* w3.is_connected() *)
  | ContractRead (rpc_url address fn : string) (args : list string)
  | HttpGet (url : string).

(** Everything the program reads from outside itself.  [to_checksum_address]
    is web3's pure EIP-55 conversion, which raises on a malformed address;
    the contract reads return what the ABI decodes, or fail. *)
Record world : Type := {
  getenv : string → option string;
  rpc_is_connected : string → bool;
  to_checksum_address : string → result string;
  getUserAccountData : string → string → string → result (Z * Z * Z * Z * Z * Z);
  borrowBalanceOf : string → string → string → result Z;
  collateralBalanceOf : string → string → string → result Z;
  getPrice : string → string → result Z;
  http_get_json : string → result (list (string * gmap string float));
}.

(** A computation reads the world, leaves a trace of network events and
    returns or raises. *)
Definition M (A : Type) : Type := world → list event * result A.

Definition ret {A} (a : A) : M A := fun _ => ([], Ok a).
Definition raise {A} (e : exn) : M A := fun _ => ([], Raise e).
Definition lift {A} (r : result A) : M A := fun _ => ([], r).
Definition ask {A} (f : world → A) : M A := fun w => ([], Ok (f w)).
Definition bind {A B} (m : M A) (k : A → M B) : M B :=
  fun w =>
    match m w with
    | (t1, Ok a) => let '(t2, r) := k a w in (t1 ++ t2, r)
    | (t1, Raise e) => (t1, Raise e)
    end.

(** [try: body / except Exception as e: handler e] *)
Definition try_except {A} (body : M A) (handler : exn → M A) : M A :=
  fun w =>
    match body w with
    | (t1, Ok a) => (t1, Ok a)
    | (t1, Raise e) => let '(t2, r) := handler e w in (t1 ++ t2, r)
    end.

Declare Scope io_scope.
Delimit Scope io_scope with io.
Notation "x <- m ;; k" := (bind m (fun x => k))
  (at level 100, m at next level, right associativity) : io_scope.

Definition trace {A} (x : list event * result A) : list event := fst x.
Definition outcome {A} (x : list event * result A) : result A := snd x.

Definition is_connected (rpc_url : string) : M bool :=
  fun w => ([IsConnected rpc_url], Ok (rpc_is_connected w rpc_url)).

Definition checksum (address : string) : M string :=
  fun w => ([], to_checksum_address w address).

Definition call_getUserAccountData (rpc_url pool user : string)
    : M (Z * Z * Z * Z * Z * Z) :=
  fun w => ([ContractRead rpc_url pool "getUserAccountData" [user]],
            getUserAccountData w rpc_url pool user).

Definition call_borrowBalanceOf (rpc_url comet account : string) : M Z :=
  fun w => ([ContractRead rpc_url comet "borrowBalanceOf" [account]],
            borrowBalanceOf w rpc_url comet account).

Definition call_collateralBalanceOf (rpc_url comet account : string) : M Z :=
  fun w => ([ContractRead rpc_url comet "collateralBalanceOf" [account]],
            collateralBalanceOf w rpc_url comet account).

Definition call_getPrice (rpc_url comet : string) : M Z :=
  fun w => ([ContractRead rpc_url comet "getPrice" []], getPrice w rpc_url comet).

Definition http_get (url : string) : M (list (string * gmap string float)) :=
  fun w => ([HttpGet url], http_get_json w url).

(** [d[k]] on a dict. *)
Definition getitem {K V} `{Countable K} (d : gmap K V) (k : K) : result V :=
  match d !! k with
  | Some v => Ok v
  | None => Raise KeyError
  end.

(** ** protocol_interfaces.py *)

Module ProtocolInterfaces.

Inductive ProtocolType : Type := AAVE_V3 | COMPOUND_V3 | SPARK | RADIANT.

Definition CHAIN_NAMES : gmap Z string :=
  list_to_map
    [ (1, "Ethereum"); (137, "Polygon"); (42161, "Arbitrum"); (10, "Optimism");
      (8453, "Base"); (43114, "Avalanche"); (56, "BSC") ].

Definition AAVE_V3_POOL_ADDRESSES : gmap Z string :=
  list_to_map
    [ (1, "0x87870Bca3F3fD6335C3F4ce8392D69350B4fA4E2");
      (137, "0x794a61358D6845594F94dc1DB02A252b5b4814aD");
      (42161, "0x794a61358D6845594F94dc1DB02A252b5b4814aD");
      (10, "0x794a61358D6845594F94dc1DB02A252b5b4814aD");
      (8453, "0xA238Dd80C259a72e81d7e4664a9801593F98d1c5");
      (43114, "0x794a61358D6845594F94dc1DB02A252b5b4814aD") ].

Definition COMPOUND_V3_COMET_ADDRESSES : gmap Z string :=
  list_to_map
    [ (1, "0xc3d688B66703497DAA19211EEdff47f25384cdc3");
      (137, "0xF25212E676D1F7F89Cd72fFEe66158f541246445");
      (42161, "0xA5EDBDD9646f8dFF606d7448e414884C7d905dCA");
      (8453, "0xb125E6687d4313864e53df431d5425969c15Eb2F") ].

Definition SPARK_POOL_ADDRESSES : gmap Z string :=
  list_to_map [ (1, "0xC13e21B648A5Ee794902342038FF3aDAB66BE987") ].

Definition RADIANT_POOL_ADDRESSES : gmap Z string :=
  list_to_map
    [ (42161, "0xF4B1486DD74D07706052A33d31d7c0AAFD0659E1");
      (43114, "0xF4B1486DD74D07706052A33d31d7c0AAFD0659E1");
      (56, "0xd50Cf00b6e600Dd036Ba8eF475677d816d6c4281") ].

(** [chain_id in table] *)
Definition contains (table : gmap Z string) (chain_id : Z) : bool :=
  bool_decide (is_Some (table !! chain_id)).

(** An adapter object: its class, [self.chain_id], the RPC endpoint behind
    [self.w3], and the address its pool or comet contract is bound to. *)
Record ProtocolInterface : Type := {
  cls : ProtocolType;
  chain_id : Z;
  w3 : string;
  contract : string;
}.

(** [ProtocolInterface.__init__]: binds the provider and checks that it is
    reachable. *)
Definition ProtocolInterface_init (chain_id : Z) (rpc_url : string) : M unit :=
  (connected <- is_connected rpc_url ;;
   if negb connected then raise ConnectionError else ret tt)%io.

(** [AaveV3Interface.__init__] *)
Definition AaveV3Interface_init (chain_id : Z) (rpc_url : string) : M ProtocolInterface :=
  (_ <- ProtocolInterface_init chain_id rpc_url ;;
   if negb (contains AAVE_V3_POOL_ADDRESSES chain_id) then raise ValueError
   else
     pool_address <- lift (getitem AAVE_V3_POOL_ADDRESSES chain_id) ;;
     address <- checksum pool_address ;;
     ret {| cls := AAVE_V3; chain_id := chain_id; w3 := rpc_url; contract := address |})%io.

(** [CompoundV3Interface.__init__] *)
Definition CompoundV3Interface_init (chain_id : Z) (rpc_url : string) : M ProtocolInterface :=
  (_ <- ProtocolInterface_init chain_id rpc_url ;;
   if negb (contains COMPOUND_V3_COMET_ADDRESSES chain_id) then raise ValueError
   else
     comet_address <- lift (getitem COMPOUND_V3_COMET_ADDRESSES chain_id) ;;
     address <- checksum comet_address ;;
     ret {| cls := COMPOUND_V3; chain_id := chain_id; w3 := rpc_url; contract := address |})%io.

(** [SparkInterface.__init__]: looks the chain up first, then runs the base
    initialiser directly. *)
Definition SparkInterface_init (chain_id : Z) (rpc_url : string) : M ProtocolInterface :=
  (if negb (contains SPARK_POOL_ADDRESSES chain_id) then raise ValueError
   else
     _ <- ProtocolInterface_init chain_id rpc_url ;;
     pool_address <- lift (getitem SPARK_POOL_ADDRESSES chain_id) ;;
     address <- checksum pool_address ;;
     ret {| cls := SPARK; chain_id := chain_id; w3 := rpc_url; contract := address |})%io.

(** [RadiantInterface.__init__] *)
Definition RadiantInterface_init (chain_id : Z) (rpc_url : string) : M ProtocolInterface :=
  (if negb (contains RADIANT_POOL_ADDRESSES chain_id) then raise ValueError
   else
     _ <- ProtocolInterface_init chain_id rpc_url ;;
     pool_address <- lift (getitem RADIANT_POOL_ADDRESSES chain_id) ;;
     address <- checksum pool_address ;;
     ret {| cls := RADIANT; chain_id := chain_id; w3 := rpc_url; contract := address |})%io.

(** [get_protocol_interface]; the final [else] of the source is unreachable
    for a [ProtocolType]. *)
Definition get_protocol_interface (protocol : ProtocolType) (chain_id : Z)
    (rpc_url : string) : M ProtocolInterface :=
  match protocol with
  | AAVE_V3 => AaveV3Interface_init chain_id rpc_url
  | COMPOUND_V3 => CompoundV3Interface_init chain_id rpc_url
  | SPARK => SparkInterface_init chain_id rpc_url
  | RADIANT => RadiantInterface_init chain_id rpc_url
  end.

(** The dict returned by [get_user_account_data].  [positions] is always the
    empty list here; [available_borrows_usd] is a float for the Aave family
    and the int [0] for Compound. *)
Record account_data : Type := {
  total_collateral_usd : float;
  total_debt_usd : float;
  available_borrows_usd : pynum float;
  liquidation_threshold : float;
  ltv : float;
  health_factor : float;
  positions : list string;
}.

(** [AaveV3Interface.get_user_account_data], inherited unchanged by
    [SparkInterface] and [RadiantInterface]. *)
Definition aave_get_user_account_data (self : ProtocolInterface) (wallet : string)
    : M (option account_data) :=
  try_except
    (wallet_checksum <- checksum wallet ;;
     raw <- call_getUserAccountData (w3 self) (contract self) wallet_checksum ;;
     let '(total_collateral_base, total_debt_base, available_borrows_base,
           current_liquidation_threshold, ltv_raw, health_factor_raw) := raw in
     c <- lift (int_truediv total_collateral_base 1e8) ;;
     d <- lift (int_truediv total_debt_base 1e8) ;;
     a <- lift (int_truediv available_borrows_base 1e8) ;;
     t <- lift (int_truediv current_liquidation_threshold 1e4) ;;
     l <- lift (int_truediv ltv_raw 1e4) ;;
     h <- lift (int_truediv health_factor_raw 1e18) ;;
     ret (Some {| total_collateral_usd := c;
                  total_debt_usd := d;
                  available_borrows_usd := PFloat a;
                  liquidation_threshold := t;
                  ltv := l;
                  health_factor := h;
                  positions := [] |}))%io
    (fun _ => ret None).

(** [CompoundV3Interface.get_user_account_data] *)
Definition compound_get_user_account_data (self : ProtocolInterface) (wallet : string)
    : M (option account_data) :=
  try_except
    (wallet_checksum <- checksum wallet ;;
     borrow_balance <- call_borrowBalanceOf (w3 self) (contract self) wallet_checksum ;;
     collateral_balance <- call_collateralBalanceOf (w3 self) (contract self) wallet_checksum ;;
     price <- call_getPrice (w3 self) (contract self) ;;
     debt_usd <- lift (int_truediv borrow_balance 1e6) ;;
     collateral_usd <- lift (int_truediv (collateral_balance * price) 1e14) ;;
     let threshold := 0.8%float in
     hf <- (if gt0 debt_usd
            then lift (truediv (collateral_usd * threshold)%float debt_usd)
            else ret inf) ;;
     ret (Some {| total_collateral_usd := collateral_usd;
                  total_debt_usd := debt_usd;
                  available_borrows_usd := PInt 0;
                  liquidation_threshold := threshold;
                  ltv := 0.75%float;
                  health_factor := hf;
                  positions := [] |}))%io
    (fun _ => ret None).

(** Method dispatch on the adapter's class. *)
Definition get_user_account_data (self : ProtocolInterface) (wallet : string)
    : M (option account_data) :=
  match cls self with
  | AAVE_V3 | SPARK | RADIANT => aave_get_user_account_data self wallet
  | COMPOUND_V3 => compound_get_user_account_data self wallet
  end.

End ProtocolInterfaces.

(** ** lending_monitor.py *)

Module LendingMonitor.

(** [calculate_health_factor] *)
Definition calculate_health_factor
    (total_collateral_usd total_debt_usd liquidation_threshold : float) : result float :=
  if eq0 total_debt_usd then Ok inf
  else truediv (total_collateral_usd * liquidation_threshold)%float total_debt_usd.

(** [calculate_liquidation_price], with [liquidation_bonus] given. *)
Definition calculate_liquidation_price {F} `{Arith F}
    (collateral_amount debt_amount debt_price liquidation_threshold
     liquidation_bonus : F) : result (pynum F) :=
  if num_is_zero collateral_amount then Ok (PInt 0)
  else
    (effective_threshold <- truediv liquidation_threshold liquidation_bonus ;;
     r <- truediv (num_mul debt_amount debt_price)
                 (num_mul collateral_amount effective_threshold) ;;
     Ok (PFloat r))%py.

(** The default of the keyword argument [liquidation_bonus]. *)
Definition DEFAULT_LIQUIDATION_BONUS : float := 1.05%float.

(** [calculate_liquidation_price] as a Python call: an omitted
    [liquidation_bonus] takes its default. *)
Definition calculate_liquidation_price_call
    (collateral_amount debt_amount debt_price liquidation_threshold : float)
    (liquidation_bonus : option float) : result (pynum float) :=
  calculate_liquidation_price collateral_amount debt_amount debt_price
    liquidation_threshold (default DEFAULT_LIQUIDATION_BONUS liquidation_bonus).

(** [should_alert]; [threshold] defaults to 1.2, the critical bound 1.05 is
    written in the body. *)
Definition DEFAULT_ALERT_THRESHOLD : float := 1.2%float.

Definition should_alert (health_factor : float) (threshold : option float)
    : bool * string :=
  let threshold := default DEFAULT_ALERT_THRESHOLD threshold in
  if PrimFloat.ltb health_factor 1.05%float then (true, "critical")
  else if PrimFloat.ltb health_factor threshold then (true, "warning")
  else (false, "safe").

Import ProtocolInterfaces.

Definition DEFAULT_RPC_URLS : list (Z * string) :=
  [ (1, "https://eth.llamarpc.com");
    (137, "https://polygon.llamarpc.com");
    (42161, "https://arbitrum.llamarpc.com");
    (10, "https://optimism.llamarpc.com");
    (8453, "https://base.llamarpc.com");
    (43114, "https://avalanche.llamarpc.com");
    (56, "https://binance.llamarpc.com") ].

(** The monitor object: [self.rpc_urls]. *)
Record LendingMonitor : Type := { rpc_urls : gmap Z string }.

(** [f"CHAIN_{chain_id}_RPC_URL"] *)
Definition env_key (chain_id : Z) : string :=
  "CHAIN_" +:+ pretty chain_id +:+ "_RPC_URL".

(** [LendingMonitor.__init__]: one endpoint per default chain, the
    environment's when set. *)
Definition init : M LendingMonitor :=
  ask (fun w =>
    {| rpc_urls :=
         foldl (fun urls '(chain_id, url) =>
                  <[ chain_id := default url (getenv w (env_key chain_id)) ]> urls)
               ∅ DEFAULT_RPC_URLS |}).

(** The dict returned by [monitor_position]. *)
Record position : Type := {
  p_chain_name : string;
  p_health_factor : float;
  p_liq_price : option float;
  p_total_collateral_usd : float;
  p_total_debt_usd : float;
  p_liquidation_threshold : float;
  p_ltv : float;
  p_positions : list string;
}.

(** Lines 81-103 of [monitor_position]: what is assembled from the fetched
    account data. *)
Definition assemble (chain_id : Z) (data : account_data) : result position :=
  (liq_price <-
     (if gt0 (total_debt_usd data) && gt0 (total_collateral_usd data)
      then
        let liquidation_threshold := liquidation_threshold data in
        p <- truediv (total_debt_usd data)
                     (total_collateral_usd data * liquidation_threshold)%float ;;
        Ok (Some p)
      else Ok None) ;;
   let chain_name := default ("Chain " +:+ pretty chain_id) (CHAIN_NAMES !! chain_id) in
   Ok {| p_chain_name := chain_name;
         p_health_factor := health_factor data;
         p_liq_price := liq_price;
         p_total_collateral_usd := total_collateral_usd data;
         p_total_debt_usd := total_debt_usd data;
         p_liquidation_threshold := liquidation_threshold data;
         p_ltv := ltv data;
         p_positions := positions data |})%py.

(** [monitor_position]; [position_filters] is accepted and not used. *)
Definition monitor_position (self : LendingMonitor) (wallet : string)
    (protocol : ProtocolType) (chain_id : Z) (position_filters : option (list string))
    : M (option position) :=
  try_except
    (match rpc_urls self !! chain_id with
     | None => ret None
     | Some rpc_url =>
         protocol_interface <- get_protocol_interface protocol chain_id rpc_url ;;
         account_data <- get_user_account_data protocol_interface wallet ;;
         match account_data with
         | None => ret None
         | Some data => r <- lift (assemble chain_id data) ;; ret (Some r)
         end
     end)%io
    (fun _ => ret None).

End LendingMonitor.

(** ** price_feed.py *)

Module PriceFeed.

Definition COINGECKO_IDS : gmap string string :=
  list_to_map
    [ ("ETH", "ethereum"); ("WETH", "ethereum");
      ("MATIC", "matic-network"); ("WMATIC", "matic-network");
      ("USDC", "usd-coin"); ("USDT", "tether"); ("DAI", "dai");
      ("WBTC", "wrapped-bitcoin"); ("LINK", "chainlink"); ("AAVE", "aave");
      ("CRV", "curve-dao-token"); ("UNI", "uniswap"); ("SUSHI", "sushi");
      ("AVAX", "avalanche-2"); ("WAVAX", "avalanche-2");
      ("BNB", "binancecoin"); ("WBNB", "binancecoin") ].

(** [str.upper] on ASCII text, which is what token symbols are: the letters
    a-z are raised and every other character is kept. *)
Definition upper_char (c : ascii) : ascii :=
  let n := N_of_ascii c in
  if ((97 <=? n) && (n <=? 122))%N then ascii_of_N (n - 32) else c.

Fixpoint upper (s : string) : string :=
  match s with
  | EmptyString => EmptyString
  | String c rest => String (upper_char c) (upper rest)
  end.

(** Truth value of a string: empty is false. *)
Definition truthy (s : string) : bool := negb (String.eqb s "").

(** One round of the first loop: [coingecko_ids.append(cg_id)] and
    [symbol_to_id[cg_id] = symbol.upper()] for a mapped symbol. *)
Definition map_symbol (st : list string * gmap string string) (symbol : string)
    : list string * gmap string string :=
  let '(coingecko_ids, symbol_to_id) := st in
  match COINGECKO_IDS !! upper symbol with
  | Some cg_id =>
      if truthy cg_id
      then (coingecko_ids ++ [cg_id], <[ cg_id := upper symbol ]> symbol_to_id)
      else st
  | None => st
  end.

Definition map_symbols (symbols : list string) : list string * gmap string string :=
  foldl map_symbol ([], ∅) symbols.

(** The second loop, over [data.items()].  [prices] is updated in place, so
    what has been stored survives a [KeyError] raised further on: the
    function gives back the dict as it stands together with how the loop
    ended. *)
Fixpoint parse_response (symbol_to_id : gmap string string)
    (items : list (string * gmap string float)) (prices : gmap string float)
    : gmap string float * result unit :=
  match items with
  | [] => (prices, Ok tt)
  | (cg_id, price_data) :: rest =>
      match price_data !! "usd" with
      | Some usd =>
          match symbol_to_id !! cg_id with
          | Some symbol => parse_response symbol_to_id rest (<[ symbol := usd ]> prices)
          | None => (prices, Raise KeyError)
          end
      | None => parse_response symbol_to_id rest prices
      end
  end.

Definition price_url (coingecko_ids : list string) : string :=
  let ids_param := String.concat "," coingecko_ids in
  "https://api.coingecko.com/api/v3/simple/price?ids=" +:+ ids_param
    +:+ "&vs_currencies=usd".

(** The [try] block run against the dict [prices]: the request, then the
    loop.  It yields the dict as the block left it and how the block ended. *)
Definition fetch_into (coingecko_ids : list string)
    (symbol_to_id : gmap string string) (prices : gmap string float)
    : world → list event * (gmap string float * result unit) :=
  fun w =>
    match http_get (price_url coingecko_ids) w with
    | (t, Ok data) => (t, parse_response symbol_to_id data prices)
    | (t, Raise e) => (t, (prices, Raise e))
    end.

(** [get_token_prices].  The block's normal exit and both [except] clauses
    all [return prices]. *)
Definition get_token_prices (symbols : list string) : M (gmap string float) :=
  let prices : gmap string float := ∅ in
  let '(coingecko_ids, symbol_to_id) := map_symbols symbols in
  match coingecko_ids with
  | [] => ret prices
  | _ =>
      fun w =>
        let '(t, (prices, r)) := fetch_into coingecko_ids symbol_to_id prices w in
        match r with
        | Ok _ => (t, Ok prices)
        | Raise _ => (t, Ok prices)
        end
  end.

(** [get_price_from_chainlink]: a placeholder that only logs. *)
Definition get_price_from_chainlink (token_address : string) (chain_id : Z)
    (rpc_url : string) : M (option float) := ret None.

(** [get_token_price_with_fallback] *)
Definition get_token_price_with_fallback (symbol : string)
    (token_address : option string) (chain_id : option Z) (rpc_url : option string)
    : M (option float) :=
  (chainlink_price <-
     match token_address, chain_id, rpc_url with
     | Some a, Some c, Some u =>
         if truthy a && negb (c =? 0) && truthy u
         then get_price_from_chainlink a c u
         else ret None
     | _, _, _ => ret None
     end ;;
   match chainlink_price with
   | Some p => if negb (eq0 p) then ret (Some p) else
                 prices <- get_token_prices [symbol] ;; ret (prices !! upper symbol)
   | None => prices <- get_token_prices [symbol] ;; ret (prices !! upper symbol)
   end)%io.

End PriceFeed.

(** ** main.py *)

Module Main.

Import ProtocolInterfaces LendingMonitor.

(** [fastapi.HTTPException]: the only exception that leaves the endpoint. *)
Record HTTPException : Type := { status_code : Z; detail : string }.

(** [MonitorRequest], after validation.  A position filter is kept as the
    monitor takes it: an opaque value that is passed on and never read. *)
Record MonitorRequest : Type := {
  req_wallet : string;
  req_protocol_ids : list string;
  req_chain_id : Z;
  req_positions : option (list string);
}.

(** [MonitorResponse] *)
Record MonitorResponse : Type := {
  resp_wallet : string;
  resp_protocol : string;
  resp_chain_id : Z;
  resp_chain_name : string;
  resp_health_factor : float;
  resp_liq_price : option float;
  resp_buffer_percent : float;
  resp_alert_threshold_hit : bool;
  resp_severity : string;
  resp_total_collateral_usd : float;
  resp_total_debt_usd : float;
  resp_liquidation_threshold : float;
  resp_positions : list string;
  resp_timestamp : string;
}.

(** [ProtocolType(value)]: the member with that value, else [ValueError]. *)
Definition ProtocolType_of_value (value : string) : result ProtocolType :=
  if String.eqb value "aave_v3" then Ok AAVE_V3
  else if String.eqb value "compound_v3" then Ok COMPOUND_V3
  else if String.eqb value "spark" then Ok SPARK
  else if String.eqb value "radiant" then Ok RADIANT
  else Raise ValueError.

(** Line 625: [((hf - 1.0) / 1.0) * 100 if hf > 1.0 else 0.0].  The divisor
    is the literal 1.0, so the division cannot raise; the int 100 is
    converted to 100.0. *)
Definition buffer_percent (hf : float) : float :=
  if PrimFloat.ltb 1.0 hf then ((hf - 1.0) / 1.0 * 100)%float else 0.0%float.

Section Endpoint.

(** The builtin [round(x, ndigits)] on a float, which gives a float for the
    digit counts used here; the clock reading
    [datetime.utcnow().isoformat()]; and [str(e)] of an exception. *)
Variable py_round : float → Z → float.
Variable utcnow_isoformat : string.
Variable str_exn : exn → string.

(** Lines 615-642: severity, buffer and the response object.  Every field
    gets a value of its declared type ([float] fields accept infinities and
    NaN), so the constructor's validation passes. *)
Definition respond (request : MonitorRequest) (protocol_id : string)
    (position_data : position) : MonitorResponse :=
  let hf := p_health_factor position_data in
  let severity :=
    if PrimFloat.ltb hf 1.05 then "critical"
    else if PrimFloat.ltb hf 1.2 then "warning"
    else "safe" in
  let buffer_percent := buffer_percent hf in
  {| resp_wallet := req_wallet request;
     resp_protocol := protocol_id;
     resp_chain_id := req_chain_id request;
     resp_chain_name := p_chain_name position_data;
     resp_health_factor := py_round hf 4;
     resp_liq_price := p_liq_price position_data;
     resp_buffer_percent := py_round buffer_percent 2;
     resp_alert_threshold_hit := PrimFloat.ltb hf 1.2;
     resp_severity := severity;
     resp_total_collateral_usd := py_round (p_total_collateral_usd position_data) 2;
     resp_total_debt_usd := py_round (p_total_debt_usd position_data) 2;
     resp_liquidation_threshold := py_round (p_liquidation_threshold position_data) 4;
     resp_positions := p_positions position_data;
     resp_timestamp := utcnow_isoformat +:+ "Z" |}.

(** The endpoint [monitor_position(request)], on the module's
    [lending_monitor].  An [HTTPException] raised in the body is re-raised;
    any other exception becomes status 500. *)
Definition monitor_position (lending_monitor : LendingMonitor)
    (request : MonitorRequest)
    : world → list event * (HTTPException + MonitorResponse) :=
  fun w =>
    match req_protocol_ids request with
    | [] =>
        ([], inl {| status_code := 400;
                    detail := "At least one protocol_id is required" |})
    | protocol_id :: _ =>
        match ProtocolType_of_value protocol_id with
        | Raise _ =>
            ([], inl {| status_code := 400;
                        detail := "Invalid protocol: " +:+ protocol_id +:+
                                  ". Supported: aave_v3, compound_v3, spark, radiant" |})
        | Ok protocol_type =>
            match LendingMonitor.monitor_position lending_monitor
                    (req_wallet request) protocol_type (req_chain_id request)
                    (req_positions request) w with
            | (t, Raise e) =>
                (t, inl {| status_code := 500;
                           detail := "Internal server error: " +:+ str_exn e |})
            | (t, Ok None) =>
                (t, inl {| status_code := 503;
                           detail := "Failed to fetch position data" |})
            | (t, Ok (Some position_data)) =>
                (t, inr (respond request protocol_id position_data))
            end
        end
    end.

(** [entrypoint_monitor] *)
Definition entrypoint_monitor (lending_monitor : LendingMonitor)
    (request : MonitorRequest)
    : world → list event * (HTTPException + MonitorResponse) :=
  monitor_position lending_monitor request.

End Endpoint.

End Main.

(** ** Vocabulary of the specification *)

Import ProtocolInterfaces LendingMonitor PriceFeed.

(** The severity tiers, and [classifySeverity] as the specification words
    it, with both thresholds as parameters. *)
Inductive Severity : Type := Safe | Warning | Critical.

Definition classifySeverity (healthFactor alertThreshold criticalThreshold : float)
    : bool * Severity :=
  if PrimFloat.ltb healthFactor criticalThreshold then (true, Critical)
  else if PrimFloat.ltb healthFactor alertThreshold then (true, Warning)
  else (false, Safe).

(** The string the code uses for a tier. *)
Definition severity_name (s : Severity) : string :=
  match s with
  | Safe => "safe"
  | Warning => "warning"
  | Critical => "critical"
  end.

(** The range of an ABI [uint256]. *)
Definition uint256 (z : Z) : Prop := 0 ≤ z < 2 ^ 256.

(** What an Aave-style pool reports as [healthFactor] for an account without
    debt: [type(uint256).max]. *)
Definition UINT256_MAX : Z := 2 ^ 256 - 1.

(** A float that is not below zero: a zero of either sign, a positive number,
    [+inf], or NaN (which compares below nothing). *)
Definition not_negative (x : spec_float) : Prop :=
  match x with
  | S754_infinity true | S754_finite true _ _ => False
  | _ => True
  end.

(** A float that is at least zero: a zero of either sign, a positive number
    or [+inf]. *)
Definition at_least_zero (x : spec_float) : Prop :=
  match x with
  | S754_zero _ | S754_infinity false | S754_finite false _ _ => True
  | _ => False
  end.

(** The same without [+inf]. *)
Definition finite_at_least_zero (x : spec_float) : Prop :=
  match x with
  | S754_zero _ | S754_finite false _ _ => True
  | _ => False
  end.

(** Neither infinite nor NaN. *)
Definition SF_finite (x : spec_float) : bool :=
  match x with
  | S754_zero _ | S754_finite _ _ _ => true
  | _ => false
  end.

(** The external id a symbol is sent under, if any (first loop of
    [get_token_prices]). *)
Definition id_of (symbol : string) : option string :=
  match COINGECKO_IDS !! upper symbol with
  | Some cg_id => if truthy cg_id then Some cg_id else None
  | None => None
  end.

(** A string of ASCII characters only.  On such a string [upper] is exactly
    [str.upper]; Python also maps some non-ASCII letters to ASCII ones, so
    what is stated through [upper] is stated for ASCII symbols. *)
Fixpoint is_ascii (s : string) : bool :=
  match s with
  | EmptyString => true
  | String c rest => (N_of_ascii c <? 128)%N && is_ascii rest
  end.

(** *** Worlds used in the examples *)

(** Reachable endpoints, every address accepted as it is, an Aave-style pool
    answering [raw] to every account, a comet answering [borrow],
    [collateral] and [price], and an aggregator answering [response]. *)
Definition example_world (raw : Z * Z * Z * Z * Z * Z) (borrow collateral price : Z)
    (response : list (string * gmap string float)) : world :=
  {| getenv := fun _ => None;
     rpc_is_connected := fun _ => true;
     to_checksum_address := fun a => Ok a;
     getUserAccountData := fun _ _ _ => Ok raw;
     borrowBalanceOf := fun _ _ _ => Ok borrow;
     collateralBalanceOf := fun _ _ _ => Ok collateral;
     getPrice := fun _ _ => Ok price;
     http_get_json := fun _ => Ok response |}.

(** The same with every endpoint unreachable. *)
Definition offline_world : world :=
  {| getenv := fun _ => None;
     rpc_is_connected := fun _ => false;
     to_checksum_address := fun a => Ok a;
     getUserAccountData := fun _ _ _ => Raise ContractCallError;
     borrowBalanceOf := fun _ _ _ => Raise ContractCallError;
     collateralBalanceOf := fun _ _ _ => Raise ContractCallError;
     getPrice := fun _ _ => Raise ContractCallError;
     http_get_json := fun _ => Raise HTTPError |}.

(** The account tuple of the specification's normalisation example. *)
Definition sample_raw : Z * Z * Z * Z * Z * Z :=
  (500000000000, 250000000000, 0, 8250, 8000, 1650000000000000000).

(** An account with neither collateral nor debt, as an Aave-style pool
    reports it. *)
Definition empty_raw : Z * Z * Z * Z * Z * Z := (0, 0, 0, 0, 0, UINT256_MAX).

(** The aggregator's answer when it resolves [ethereum] at 3000 USD. *)
Definition eth_response : list (string * gmap string float) :=
  [ ("ethereum", {[ "usd" := 3000%float ]}) ].

(** *** Further vocabulary and worlds *)

(** The address table a protocol's adapter consults. *)
Definition address_table (protocol : ProtocolType) : gmap Z string :=
  match protocol with
  | AAVE_V3 => AAVE_V3_POOL_ADDRESSES
  | COMPOUND_V3 => COMPOUND_V3_COMET_ADDRESSES
  | SPARK => SPARK_POOL_ADDRESSES
  | RADIANT => RADIANT_POOL_ADDRESSES
  end.

(** A world in which web3 accepts no address. *)
Definition rejecting_world : world :=
  {| getenv := fun _ => None;
     rpc_is_connected := fun _ => true;
     to_checksum_address := fun _ => Raise ValueError;
     getUserAccountData := fun _ _ _ => Ok sample_raw;
     borrowBalanceOf := fun _ _ _ => Ok 0;
     collateralBalanceOf := fun _ _ _ => Ok 0;
     getPrice := fun _ _ => Ok 0;
     http_get_json := fun _ => Ok [] |}.

(** A float that is a finite number at least zero. *)
Definition finite_nonneg (x : float) : Prop :=
  PrimFloat.leb 0 x = true ∧ PrimFloat.ltb x inf = true.

(** The chains the monitor is initialised with. *)
Definition DEFAULT_CHAINS : list Z := DEFAULT_RPC_URLS.*1.

(** The endpoint [__init__] stores for a default chain. *)
Definition configured_url (w : world) (chain : Z) (url : string) : string :=
  default url (getenv w (env_key chain)).

(** How grave a severity string is. *)
Definition severity_rank (severity : string) : nat :=
  if String.eqb severity "critical" then 2%nat
  else if String.eqb severity "warning" then 1%nat
  else 0%nat.

(** An aggregator that answers every request with [response]; nothing else
    is reachable. *)
Definition aggregator_world (response : list (string * gmap string float)) : world :=
  {| getenv := fun _ => None;
     rpc_is_connected := fun _ => false;
     to_checksum_address := fun a => Ok a;
     getUserAccountData := fun _ _ _ => Raise ContractCallError;
     borrowBalanceOf := fun _ _ _ => Raise ContractCallError;
     collateralBalanceOf := fun _ _ _ => Raise ContractCallError;
     getPrice := fun _ _ => Raise ContractCallError;
     http_get_json := fun _ => Ok response |}.

(** An event of the price aggregator, as opposed to one of a chain. *)
Definition is_http (e : event) : bool :=
  match e with
  | HttpGet _ => true
  | _ => false
  end.

(** The protocol ids the endpoint accepts. *)
Definition PROTOCOL_IDS : list string := ["aave_v3"; "compound_v3"; "spark"; "radiant"].

(** The status an answer of the endpoint carries. *)
Definition status_of (answer : Main.HTTPException + Main.MonitorResponse) : Z :=
  match answer with
  | inl e => Main.status_code e
  | inr _ => 200
  end.

(** The monitor with the default endpoint of Ethereum only. *)
Definition ethereum_monitor : LendingMonitor :=
  {| rpc_urls := {[ 1 := "https://eth.llamarpc.com" ]} |}.

(** The position the monitor reports for [sample_raw] on Ethereum. *)
Definition sample_position : position :=
  {| p_chain_name := "Ethereum";
     p_health_factor := 1.65%float;
     p_liq_price := Some (2500 / (5000 * 0.825))%float;
     p_total_collateral_usd := 5000%float;
     p_total_debt_usd := 2500%float;
     p_liquidation_threshold := 0.825%float;
     p_ltv := 0.8%float;
     p_positions := [] |}.

(** *** Rounding a rational

    [binary_round_aux] rounds a mantissa that was truncated, with the
    position of what was cut off; the vocabulary below names the rational
    number such a pair stands for. *)

(** Where the rational N / D lies relative to the integer m and to m + 1/2,
    for m <= N / D < m + 1. *)
Definition loc_of (N D m : Z) : location :=
  if N =? m * D then loc_Exact else loc_Inexact (2 * N ?= (2 * m + 1) * D).

(** The truncation [m] of N / D together with its location. *)
Definition inbetween (N D m : Z) (l : location) : Prop :=
  0 < D ∧ 0 ≤ m ∧ m * D ≤ N < (m + 1) * D ∧ l = loc_of N D m.

(** N / D rounded to the nearest integer, ties to even. *)
Definition rnd (N D : Z) : Z := round_nearest_even (N / D) (loc_of N D (N / D)).

(** The float with mantissa [n] of at most [prec] + 1 bits at exponent [e1]:
    the last step of [binary_round_aux]. *)
Definition finish (s : bool) (n e1 : Z) : spec_float :=
  let e3 := Z.max e1 (SpecFloat.fexp prec emax (Zdigits2 n + e1)) in
  match n / 2 ^ (e3 - e1) with
  | Z0 => S754_zero s
  | Z.pos m3 => if e3 <=? emax - prec then S754_finite s m3 e3 else S754_infinity s
  | Z.neg _ => S754_nan
  end.

(** *** Proof automation *)

(** Case analysis on the integer comparisons a comparison of two floats
    unfolds to. *)
Ltac cmp_cases :=
  repeat match goal with
    | H : context [Z.compare ?a ?b] |- _ =>
        destruct (Z.compare_spec a b); simpl in H; try discriminate H
    | H : context [Pos.compare_cont Eq ?a ?b] |- _ =>
        change (Pos.compare_cont Eq a b) with (Pos.compare a b) in H;
        destruct (Pos.compare_spec a b); simpl in H; try discriminate H
    | |- context [Z.compare ?a ?b] =>
        destruct (Z.compare_spec a b); simpl
    | |- context [Pos.compare_cont Eq ?a ?b] =>
        change (Pos.compare_cont Eq a b) with (Pos.compare a b);
        destruct (Pos.compare_spec a b); simpl
    end;
  first [ done | lia ].

(** * Properties *)

(** ** Signs of binary64 results *)

Section FloatSigns.

Lemma binary_round_aux_sign s m e l :
  match binary_round_aux prec emax s m e l with
  | S754_zero s' | S754_infinity s' | S754_finite s' _ _ => s' = s
  | S754_nan => True
  end.
Proof.
  unfold binary_round_aux.
  destruct (shr_fexp prec emax m e l) as [mrs' e'].
  destruct (shr_fexp prec emax _ e' loc_Exact) as [mrs'' e''].
  destruct (shr_m mrs''); [done | | done].
  by destruct (e'' <=? emax - prec)%Z.
Qed.

Lemma binary_round_aux_not_negative m e l :
  not_negative (binary_round_aux prec emax false m e l).
Proof.
  pose proof (binary_round_aux_sign false m e l) as H.
  destruct (binary_round_aux prec emax false m e l); simpl; subst; done.
Qed.

Lemma SFmul_not_negative x y :
  not_negative x → not_negative y → not_negative (SFmul prec emax x y).
Proof.
  destruct x as [[]|[]| |[] mx ex], y as [[]|[]| |[] my ey]; simpl; try done;
    intros _ _; apply binary_round_aux_not_negative.
Qed.

(** Python never divides by a zero, so the divisor is taken non-zero. *)
Lemma SFdiv_not_negative x y :
  not_negative x → not_negative y → SFeqb y (S754_zero false) = false →
  not_negative (SFdiv prec emax x y).
Proof.
  destruct x as [[]|[]| |[] mx ex], y as [[]|[]| |[] my ey]; simpl; try done;
    intros _ _ _.
  match goal with |- context [SFdiv_core_binary ?a ?b ?c ?d ?e ?f] =>
    destruct (SFdiv_core_binary a b c d e f) as [[mz ez] lz] end.
  apply binary_round_aux_not_negative.
Qed.

Lemma leb_zero_not_negative (x : float) :
  PrimFloat.leb 0 x = true → not_negative (Prim2SF x).
Proof.
  rewrite FloatAxioms.leb_spec. change (Prim2SF 0) with (S754_zero false).
  by destruct (Prim2SF x) as [[]|[]| |[] m e].
Qed.

Lemma not_negative_ltb_zero (x : float) :
  not_negative (Prim2SF x) → PrimFloat.ltb x 0 = false.
Proof.
  rewrite FloatAxioms.ltb_spec. change (Prim2SF 0) with (S754_zero false).
  by destruct (Prim2SF x) as [[]|[]| |[] m e].
Qed.

Lemma eq0_spec (x : float) : eq0 x = SFeqb (Prim2SF x) (S754_zero false).
Proof. unfold eq0. by rewrite FloatAxioms.eqb_spec. Qed.

(** Rounding a mantissa that is not negative never yields NaN or a negative
    number. *)
Lemma shr_1_nonneg mrs : 0 ≤ shr_m mrs → 0 ≤ shr_m (shr_1 mrs).
Proof. destruct mrs as [[|[p|p|]|p] r s]; simpl; lia. Qed.

Lemma iter_shr_1_nonneg p mrs :
  0 ≤ shr_m mrs → 0 ≤ shr_m (SpecFloat.iter_pos shr_1 p mrs).
Proof.
  revert mrs. induction p as [p IH|p IH|]; intros mrs H; simpl.
  - apply IH, IH. by apply shr_1_nonneg.
  - by apply IH, IH.
  - by apply shr_1_nonneg.
Qed.

Lemma shr_fexp_nonneg m e l : 0 ≤ m → 0 ≤ shr_m (shr_fexp prec emax m e l).1.
Proof.
  intros H. unfold shr_fexp, shr.
  assert (0 ≤ shr_m (shr_record_of_loc m l)) by (by destruct l as [|[]]).
  destruct (fexp prec emax (Zdigits2 m + e) - e); simpl; [done| |done].
  by apply iter_shr_1_nonneg.
Qed.

Lemma round_nearest_even_nonneg m l : 0 ≤ m → 0 ≤ round_nearest_even m l.
Proof.
  intros H. destruct l as [|[]]; simpl; try lia. destruct (Z.even m); lia.
Qed.

Lemma binary_round_aux_at_least_zero m e l :
  0 ≤ m → at_least_zero (binary_round_aux prec emax false m e l).
Proof.
  intros H. unfold binary_round_aux.
  pose proof (shr_fexp_nonneg m e l H) as H1.
  destruct (shr_fexp prec emax m e l) as [mrs' e']; simpl in H1.
  pose proof (shr_fexp_nonneg _ e' loc_Exact
                (round_nearest_even_nonneg _ (loc_of_shr_record mrs') H1)) as H2.
  destruct (shr_fexp prec emax _ e' loc_Exact) as [mrs'' e'']; simpl in H2.
  destruct (shr_m mrs''); [done| |lia].
  by destruct (e'' <=? emax - prec)%Z.
Qed.

Lemma SFdiv_core_binary_nonneg mx ex my ey :
  0 ≤ (SFdiv_core_binary prec emax (Z.pos mx) ex (Z.pos my) ey).1.1.
Proof.
  unfold SFdiv_core_binary.
  set (s := _ - _ - _).
  set (m' := match s with Z.pos _ => _ | Z0 => _ | Z.neg _ => _ end).
  assert (0 ≤ m') as Hm'.
  { subst m'. destruct s; [lia| |lia]. apply Z.shiftl_nonneg. lia. }
  pose proof (Z.div_eucl_eq m' (Z.pos my) ltac:(lia)) as E.
  pose proof (Z.mod_pos_bound m' (Z.pos my) ltac:(lia)) as B.
  unfold Z.modulo in B.
  destruct (Z.div_eucl m' (Z.pos my)) as [q r]; simpl. nia.
Qed.

Lemma SFmul_at_least_zero x y :
  finite_at_least_zero x → finite_at_least_zero y →
  at_least_zero (SFmul prec emax x y).
Proof.
  destruct x as [[]|[]| |[] mx ex], y as [[]|[]| |[] my ey]; simpl; try done;
    intros _ _; by apply binary_round_aux_at_least_zero.
Qed.

Lemma SFdiv_at_least_zero x y :
  at_least_zero x → finite_at_least_zero y → SFeqb y (S754_zero false) = false →
  at_least_zero (SFdiv prec emax x y).
Proof.
  destruct x as [[]|[]| |[] mx ex], y as [[]|[]| |[] my ey]; simpl; try done;
    intros _ _ _.
  match goal with |- context [SFdiv_core_binary ?a ?b ?c ?d ?e ?f] =>
    pose proof (SFdiv_core_binary_nonneg mx ex my ey) as H;
    destruct (SFdiv_core_binary a b c d e f) as [[mz ez] lz] end.
  by apply binary_round_aux_at_least_zero.
Qed.

Lemma finite_at_least_zero_intro (x : float) :
  PrimFloat.leb 0 x = true → PrimFloat.ltb x inf = true →
  finite_at_least_zero (Prim2SF x).
Proof.
  rewrite FloatAxioms.leb_spec, FloatAxioms.ltb_spec.
  change (Prim2SF 0) with (S754_zero false).
  change (Prim2SF inf) with (S754_infinity false).
  by destruct (Prim2SF x) as [[]|[]| |[] m e].
Qed.

Lemma at_most_one_not_infinite (x : float) :
  PrimFloat.leb x 1 = true → PrimFloat.ltb x inf = true.
Proof.
  rewrite FloatAxioms.leb_spec, FloatAxioms.ltb_spec.
  change (Prim2SF inf) with (S754_infinity false).
  set (one := Prim2SF 1). vm_compute in one. subst one.
  by destruct (Prim2SF x) as [[]|[]| |[] m e].
Qed.

Lemma at_least_zero_leb (x : float) :
  at_least_zero (Prim2SF x) → PrimFloat.leb 0 x = true.
Proof.
  rewrite FloatAxioms.leb_spec. change (Prim2SF 0) with (S754_zero false).
  by destruct (Prim2SF x) as [[]|[]| |[] m e].
Qed.

End FloatSigns.

(** ** Rounding in binary64: shifts, exponents, canonical results *)

Section Binary64Rounding.

Abbreviation fexp := (fexp prec emax).

Lemma fexp_eq e : fexp e = Z.max (e - 53) (-1074).
Proof. reflexivity. Qed.

Lemma digits2_pos_size p : digits2_pos p = Pos.size p.
Proof. induction p; simpl; congruence. Qed.

Lemma Zdigits2_log2 m : 0 < m → Zdigits2 m = Z.log2 m + 1.
Proof.
  destruct m as [|p|p]; try lia. intros _. simpl.
  destruct p; simpl; rewrite ?digits2_pos_size; lia.
Qed.

Lemma Zdigits2_nonneg m : 0 ≤ Zdigits2 m.
Proof. destruct m; simpl; lia. Qed.

(** 2^(d-1) <= m < 2^d *)
Lemma Zdigits2_bounds m : 0 < m → 2 ^ (Zdigits2 m - 1) ≤ m < 2 ^ Zdigits2 m.
Proof.
  intros H. rewrite Zdigits2_log2 by done.
  replace (Z.log2 m + 1 - 1) with (Z.log2 m) by lia.
  replace (Z.log2 m + 1) with (Z.succ (Z.log2 m)) by lia.
  by apply Z.log2_spec.
Qed.

Lemma Zdigits2_unique m d : 0 < d → 2 ^ (d - 1) ≤ m < 2 ^ d → Zdigits2 m = d.
Proof.
  intros Hd [H1 H2].
  assert (0 < m) by (pose proof (Z.pow_pos_nonneg 2 (d - 1)); lia).
  rewrite Zdigits2_log2 by done.
  enough (Z.log2 m = d - 1) by lia.
  apply Z.log2_unique; [lia|]. replace (Z.succ (d - 1)) with d by lia. done.
Qed.

Lemma Zdigits2_div_pow2 m n :
  0 ≤ m → 0 ≤ n → Zdigits2 (m / 2 ^ n) = Z.max (Zdigits2 m - n) 0.
Proof.
  intros Hm Hn.
  destruct (decide (m = 0)) as [->|Hm0].
  { rewrite Z.div_0_l by (apply Z.pow_nonzero; lia). simpl. lia. }
  assert (0 < m) by lia.
  pose proof (Zdigits2_bounds m H) as [B1 B2].
  destruct (decide (Zdigits2 m ≤ n)) as [Hle|Hgt].
  - rewrite Z.div_small; [simpl; lia|]. split; [lia|].
    eapply Z.lt_le_trans; [exact B2|]. apply Z.pow_le_mono_r; lia.
  - rewrite Z.max_l by lia. apply Zdigits2_unique; [lia|]. split.
    + apply Z.div_le_lower_bound; [apply Z.pow_pos_nonneg; lia|].
      rewrite <- Z.pow_add_r by lia. replace (n + (Zdigits2 m - n - 1)) with (Zdigits2 m - 1) by lia. done.
    + apply Z.div_lt_upper_bound; [apply Z.pow_pos_nonneg; lia|].
      rewrite <- Z.pow_add_r by lia. replace (n + (Zdigits2 m - n)) with (Zdigits2 m) by lia. done.
Qed.

Lemma shr_1_div2 mrs : 0 ≤ shr_m mrs → shr_m (shr_1 mrs) = shr_m mrs / 2.
Proof.
  destruct mrs as [[|[p|p|]|p] r s]; simpl; try lia; intros _;
    by rewrite <- Z.div2_div.
Qed.

Lemma pow2_xO p : 2 ^ Z.pos p~0 = 2 ^ Z.pos p * 2 ^ Z.pos p.
Proof. rewrite <- Z.pow_add_r by lia. f_equal. lia. Qed.

Lemma pow2_xI p : 2 ^ Z.pos p~1 = 2 * (2 ^ Z.pos p * 2 ^ Z.pos p).
Proof.
  rewrite <- Z.pow_add_r by lia. rewrite <- (Z.pow_succ_r 2) by lia. f_equal. lia.
Qed.

Lemma iter_shr_1_div p mrs :
  0 ≤ shr_m mrs →
  0 ≤ shr_m (SpecFloat.iter_pos shr_1 p mrs) ∧
  shr_m (SpecFloat.iter_pos shr_1 p mrs) = shr_m mrs / 2 ^ Z.pos p.
Proof.
  revert mrs. induction p as [p IH|p IH|]; intros mrs H; cbn [SpecFloat.iter_pos].
  - pose proof (shr_1_nonneg mrs H) as H1.
    destruct (IH _ H1) as [H2 E2]. destruct (IH _ H2) as [H3 E3].
    split; [done|]. rewrite E3, E2, shr_1_div2 by done.
    rewrite !Z.div_div by (try apply Z.pow_pos_nonneg; lia).
    by rewrite pow2_xI.
  - destruct (IH _ H) as [H2 E2]. destruct (IH _ H2) as [H3 E3].
    split; [done|]. rewrite E3, E2.
    rewrite !Z.div_div by (try apply Z.pow_pos_nonneg; lia).
    by rewrite pow2_xO.
  - split; [by apply shr_1_nonneg|]. by rewrite shr_1_div2.
Qed.

(** What [shr_fexp] computes on a mantissa that is not negative. *)
Lemma shr_fexp_spec m e l :
  0 ≤ m →
  let n := Z.max (fexp (Zdigits2 m + e) - e) 0 in
  shr_m (shr_fexp prec emax m e l).1 = m / 2 ^ n ∧
  (shr_fexp prec emax m e l).2 = e + n.
Proof.
  intros H n. unfold shr_fexp, shr. subst n.
  assert (E : shr_m (shr_record_of_loc m l) = m) by (by destruct l as [|[]]).
  destruct (fexp (Zdigits2 m + e) - e) as [|p|p] eqn:En; simpl.
  - rewrite E, Z.div_1_r. lia.
  - destruct (iter_shr_1_div p (shr_record_of_loc m l)) as [_ ->]; [lia|].
    rewrite E. split; [|lia]. f_equal.
  - rewrite E, Z.div_1_r. lia.
Qed.


Lemma round_nearest_even_range m l : m ≤ round_nearest_even m l ≤ m + 1.
Proof. destruct l as [|[]]; simpl; try lia. destruct (Z.even m); lia. Qed.

Lemma Zdigits2_le a b : 0 ≤ a → a ≤ b → Zdigits2 a ≤ Zdigits2 b.
Proof.
  intros Ha Hab. destruct (decide (a = 0)) as [->|]; [apply Zdigits2_nonneg|].
  rewrite !Zdigits2_log2 by lia. pose proof (Z.log2_le_mono a b Hab). lia.
Qed.

Lemma Zdigits2_succ m : 0 ≤ m → Zdigits2 (m + 1) ≤ Zdigits2 m + 1.
Proof.
  intros H. destruct (decide (m = 0)) as [->|]; [simpl; lia|].
  rewrite !Zdigits2_log2 by lia.
  destruct (Z.log2_succ_or m) as [E|E]; unfold Z.succ in E; lia.
Qed.

(** The two shifts of [binary_round_aux], spelled out. *)
Lemma binary_round_aux_steps s m e l :
  0 ≤ m →
  ∃ m2 e1,
    e1 = Z.max e (fexp (Zdigits2 m + e)) ∧
    m / 2 ^ (e1 - e) ≤ m2 ≤ m / 2 ^ (e1 - e) + 1 ∧
    let e3 := Z.max e1 (fexp (Zdigits2 m2 + e1)) in
    binary_round_aux prec emax s m e l =
      match m2 / 2 ^ (e3 - e1) with
      | Z0 => S754_zero s
      | Z.pos m3 => if e3 <=? emax - prec then S754_finite s m3 e3 else S754_infinity s
      | Z.neg _ => S754_nan
      end.
Proof.
  intros Hm. unfold binary_round_aux.
  destruct (shr_fexp_spec m e l Hm) as [E1 E2].
  destruct (shr_fexp prec emax m e l) as [mrs' e']; simpl in E1, E2.
  set (m2 := round_nearest_even (shr_m mrs') (loc_of_shr_record mrs')).
  assert (0 ≤ shr_m mrs') as Hm1.
  { rewrite E1. apply Z.div_pos; [done|]. apply Z.pow_pos_nonneg; lia. }
  pose proof (round_nearest_even_range (shr_m mrs') (loc_of_shr_record mrs')) as R.
  fold m2 in R.
  destruct (shr_fexp_spec m2 e' loc_Exact ltac:(lia)) as [E3 E4].
  destruct (shr_fexp prec emax m2 e' loc_Exact) as [mrs'' e'']; simpl in E3, E4.
  exists m2, e'. split; [lia|].
  replace (e' - e) with (Z.max (fexp (Zdigits2 m + e) - e) 0) by lia.
  split; [lia|]. simpl.
  replace (Z.max e' (fexp (Zdigits2 m2 + e')) - e')
    with (Z.max (fexp (Zdigits2 m2 + e') - e') 0) by lia.
  rewrite <- E3.
  replace (Z.max e' (fexp (Zdigits2 m2 + e'))) with e'' by lia.
  done.
Qed.

Lemma fexp_mono a b : a ≤ b → fexp a ≤ fexp b.
Proof. rewrite !fexp_eq. lia. Qed.

(** Rounding stays finite when the input's exponent and magnitude leave
    room. *)
Lemma binary_round_aux_finite s m e l :
  0 ≤ m →
  e ≤ emax - prec → fexp (Zdigits2 m + e + 1) ≤ emax - prec →
  SF_finite (binary_round_aux prec emax s m e l) = true.
Proof.
  intros Hm He Hf.
  destruct (binary_round_aux_steps s m e l Hm) as (m2 & e1 & -> & [R1 R2] & ->).
  set (d := Zdigits2 m) in *. set (e1 := Z.max e (fexp (d + e))) in *.
  set (m1 := m / 2 ^ (e1 - e)) in *.
  assert (0 ≤ m1) by (apply Z.div_pos; [done|apply Z.pow_pos_nonneg; lia]).
  assert (Zdigits2 m1 = Z.max (d - (e1 - e)) 0)
    by (apply Zdigits2_div_pow2; lia).
  assert (Zdigits2 m2 ≤ Zdigits2 m1 + 1).
  { etrans; [apply (Zdigits2_le m2 (m1 + 1)); lia|]. by apply Zdigits2_succ. }
  assert (fexp (Zdigits2 m2 + e1) ≤ emax - prec).
  { destruct (decide (d - (e1 - e) ≤ 0)).
    - etrans; [apply (fexp_mono _ (1 + e1)); lia|].
      subst e1. rewrite !fexp_eq in *. unfold emax, prec in *. lia.
    - etrans; [apply (fexp_mono _ (d + e + 1)); lia|]. done. }
  assert (e1 ≤ emax - prec).
  { subst e1. pose proof (fexp_mono (d + e) (d + e + 1)). lia. }
  set (e3 := Z.max e1 (fexp (Zdigits2 m2 + e1))).
  assert (0 ≤ m2 / 2 ^ (e3 - e1))
    by (apply Z.div_pos; [lia|apply Z.pow_pos_nonneg; lia]).
  destruct (m2 / _); [done| |lia].
  by destruct (Z.leb_spec e3 (emax - prec)); [|lia].
Qed.

(** Rounding a mantissa that is precise enough yields a canonical float. *)
Lemma binary_round_aux_valid s m e l :
  0 ≤ m → e ≤ fexp (Zdigits2 m + e) →
  valid_binary (binary_round_aux prec emax s m e l) = true.
Proof.
  intros Hm He.
  destruct (binary_round_aux_steps s m e l Hm) as (m2 & e1 & -> & [R1 R2] & ->).
  set (d := Zdigits2 m) in *. set (e1 := Z.max e (fexp (d + e))) in *.
  set (m1 := m / 2 ^ (e1 - e)) in *.
  assert (e1 = fexp (d + e)) as He1 by lia.
  assert (0 ≤ m1) by (apply Z.div_pos; [done|apply Z.pow_pos_nonneg; lia]).
  assert (Zdigits2 m1 = Z.max (d - (e1 - e)) 0) as Hd1
    by (apply Zdigits2_div_pow2; lia).
  set (e3 := Z.max e1 (fexp (Zdigits2 m2 + e1))).
  destruct (m2 / 2 ^ (e3 - e1)) as [|m3|m3] eqn:Em3; [done| |done].
  destruct (Z.leb_spec e3 (emax - prec)) as [Hle|]; [|done].
  simpl. unfold bounded, canonical_mantissa.
  apply andb_true_iff. split; [|by apply Z.leb_le].
  apply Z.eqb_eq. change (Z.pos (digits2_pos m3)) with (Zdigits2 (Z.pos m3)).
  rewrite <- Em3.
  assert (0 < m2) as Hm2.
  { destruct (decide (m2 = 0)) as [->|]; [|lia].
    rewrite Z.div_0_l in Em3 by (apply Z.pow_nonzero; lia). done. }
  rewrite Zdigits2_div_pow2 by lia.
  pose proof (Zdigits2_le m1 m2 ltac:(lia) ltac:(lia)) as L1.
  pose proof (Zdigits2_le m2 (m1 + 1) ltac:(lia) ltac:(lia)) as L2.
  pose proof (Zdigits2_succ m1 ltac:(lia)) as L3.
  pose proof (Zdigits2_bounds m2 Hm2) as [B1 B2].
  assert (0 < Zdigits2 m2) by (rewrite Zdigits2_log2 by done; pose proof (Z.log2_nonneg m2); lia).
  subst e3. rewrite !fexp_eq in *. unfold emax, prec in *. lia.
Qed.


Lemma Zdigits2_mul_pow2 m k : 0 < m → 0 ≤ k → Zdigits2 (m * 2 ^ k) = Zdigits2 m + k.
Proof.
  intros Hm Hk. assert (0 < 2 ^ k) by (apply Z.pow_pos_nonneg; lia).
  rewrite !Zdigits2_log2 by nia. rewrite Z.log2_mul_pow2 by lia. lia.
Qed.

Lemma shl_align_spec mx ex ex' :
  let '(mz, ez) := shl_align mx ex ex' in
  ez = Z.min ex ex' ∧ Z.pos mz = Z.pos mx * 2 ^ (ex - ez).
Proof.
  unfold shl_align. destruct (ex' - ex) as [|p|p] eqn:E.
  - split; [lia|]. replace (ex - ex) with 0 by lia. simpl. lia.
  - split; [lia|]. replace (ex - ex) with 0 by lia. simpl. lia.
  - split; [lia|]. change (Pos.iter xO mx p) with (shift_pos p mx).
    rewrite shift_pos_correct, Zpower_pos_nat, Zpower_nat_Z, positive_nat_Z.
    replace (ex - ex') with (Z.pos p) by lia. lia.
Qed.

(** [float(h)] of an int that fits 256 bits is a canonical finite float. *)
Lemma binary_normalize_uint256 h :
  0 ≤ h < 2 ^ 256 →
  let x := binary_normalize prec emax h 0 false in
  valid_binary x = true ∧ SF_finite x = true.
Proof.
  intros [Hlo Hhi]. destruct h as [|p|p]; [done| |lia]. simpl.
  unfold binary_round.
  pose proof (shl_align_spec p 0 (fexp (Z.pos (digits2_pos p) + 0))) as S.
  destruct (shl_align p 0 _) as [mz ez]. destruct S as [Ez Em].
  change (Z.pos (digits2_pos p)) with (Zdigits2 (Z.pos p)) in *.
  rewrite Z.add_0_r in Ez.
  assert (Zdigits2 (Z.pos p) ≤ 256) as Hd.
  { destruct (decide (Zdigits2 (Z.pos p) ≤ 256)); [done|].
    pose proof (Zdigits2_bounds (Z.pos p) ltac:(lia)) as [B _].
    pose proof (Z.pow_le_mono_r 2 256 (Zdigits2 (Z.pos p) - 1) ltac:(lia) ltac:(lia)).
    lia. }
  assert (0 < Zdigits2 (Z.pos p)) by (simpl; lia).
  assert (Zdigits2 (Z.pos mz) + ez = Zdigits2 (Z.pos p)) as Hdz.
  { rewrite Em, Zdigits2_mul_pow2 by lia. lia. }
  split.
  - apply binary_round_aux_valid; [lia|]. rewrite Hdz. lia.
  - apply binary_round_aux_finite; [lia| |].
    + unfold emax, prec. lia.
    + replace (Zdigits2 (Z.pos mz) + ez + 1) with (Zdigits2 (Z.pos p) + 1) by lia.
      rewrite fexp_eq. unfold emax, prec. lia.
Qed.

(** A finite float divided by a finite float of magnitude at least 2 is
    finite. *)
Lemma SFdiv_finite x sy my ey :
  valid_binary x = true → SF_finite x = true →
  2 ≤ Z.pos (digits2_pos my) + ey →
  SF_finite (SFdiv prec emax x (S754_finite sy my ey)) = true.
Proof.
  intros Hv Hf Hy. destruct x as [sx| | |sx mx ex]; try done. simpl.
  simpl in Hv. unfold bounded, canonical_mantissa in Hv.
  apply andb_true_iff in Hv as [Hc Hb]. apply Z.eqb_eq in Hc. apply Z.leb_le in Hb.
  change (Z.pos (digits2_pos mx)) with (Zdigits2 (Z.pos mx)) in *.
  change (Z.pos (digits2_pos my)) with (Zdigits2 (Z.pos my)) in *.
  unfold SFdiv_core_binary.
  set (d1 := Zdigits2 (Z.pos mx)) in *. set (d2 := Zdigits2 (Z.pos my)) in *.
  set (e' := Z.min (fexp (d1 + ex - (d2 + ey))) (ex - ey)).
  set (s := ex - ey - e').
  set (m' := match s with Z.pos _ => Z.shiftl (Z.pos mx) s | Z0 => Z.pos mx | Z.neg _ => 0 end).
  assert (0 ≤ s) by lia.
  assert (m' = Z.pos mx * 2 ^ s) as Hm'.
  { subst m'. destruct s eqn:Es; [simpl; lia| |lia].
    by rewrite Z.shiftl_mul_pow2. }
  assert (0 < 2 ^ s) by (apply Z.pow_pos_nonneg; lia).
  assert (0 < d1) by (subst d1; simpl; lia).
  assert (0 < d2) by (subst d2; simpl; lia).
  pose proof (Z.div_eucl_eq m' (Z.pos my) ltac:(lia)) as E.
  pose proof (Z.mod_pos_bound m' (Z.pos my) ltac:(lia)) as B.
  unfold Z.modulo in B.
  destruct (Z.div_eucl m' (Z.pos my)) as [q r].
  assert (0 ≤ q) by nia.
  apply binary_round_aux_finite; [done| |].
  - subst e'. rewrite fexp_eq in *. unfold emax, prec in *. lia.
  - (* q <= m' / 2^(d2-1) *)
    pose proof (Zdigits2_bounds (Z.pos my) ltac:(lia)) as [By _]. fold d2 in By.
    assert (0 < 2 ^ (d2 - 1)) by (apply Z.pow_pos_nonneg; lia).
    assert (q ≤ m' / 2 ^ (d2 - 1)).
    { apply Z.div_le_lower_bound; [done|]. nia. }
    pose proof (Zdigits2_le q _ ltac:(lia) H5) as L.
    rewrite Zdigits2_div_pow2 in L by lia.
    rewrite Hm', Zdigits2_mul_pow2 in L by lia. fold d1 in L.
    etrans; [apply (fexp_mono _ (Z.max (d1 + s - (d2 - 1)) 0 + e' + 1)); lia|].
    subst s e'. rewrite !fexp_eq in *. unfold emax, prec in *. lia.
Qed.

End Binary64Rounding.

(** ** Order of binary64 numbers *)

Section FloatOrder.

Lemma SFltb_leb_trans x y z :
  SFltb x y = true → SFleb y z = true → SFltb x z = true.
Proof.
  unfold SFltb, SFleb.
  destruct x as [[]|[]| |[] mx ex], y as [[]|[]| |[] my ey], z as [[]|[]| |[] mz ez];
    simpl; try done; intros H1 H2; cmp_cases.
Qed.

Lemma SFleb_ltb_trans x y z :
  SFleb x y = true → SFltb y z = true → SFltb x z = true.
Proof.
  unfold SFltb, SFleb.
  destruct x as [[]|[]| |[] mx ex], y as [[]|[]| |[] my ey], z as [[]|[]| |[] mz ez];
    simpl; try done; intros H1 H2; cmp_cases.
Qed.

Lemma SFltb_leb x y : SFltb x y = true → SFleb x y = true.
Proof.
  unfold SFltb, SFleb. by destruct (SFcompare x y) as [[]|].
Qed.

Lemma ltb_leb_trans (x y z : float) :
  PrimFloat.ltb x y = true → PrimFloat.leb y z = true → PrimFloat.ltb x z = true.
Proof.
  rewrite !FloatAxioms.ltb_spec, FloatAxioms.leb_spec. apply SFltb_leb_trans.
Qed.

Lemma leb_ltb_trans (x y z : float) :
  PrimFloat.leb x y = true → PrimFloat.ltb y z = true → PrimFloat.ltb x z = true.
Proof.
  rewrite !FloatAxioms.ltb_spec, FloatAxioms.leb_spec. apply SFleb_ltb_trans.
Qed.

Lemma ltb_trans (x y z : float) :
  PrimFloat.ltb x y = true → PrimFloat.ltb y z = true → PrimFloat.ltb x z = true.
Proof.
  intros H1 H2. eapply ltb_leb_trans; [exact H1|].
  rewrite FloatAxioms.leb_spec. apply SFltb_leb. by rewrite <- FloatAxioms.ltb_spec.
Qed.

Lemma is_nan_ltb (x y : float) : is_nan x = true → PrimFloat.ltb x y = false.
Proof.
  unfold is_nan. rewrite FloatAxioms.eqb_spec, FloatAxioms.ltb_spec.
  unfold SFeqb, SFltb.
  destruct (Prim2SF x) as [[]|[]| |[] m e]; simpl; try done;
    rewrite Z.compare_refl, Pos.compare_cont_refl; done.
Qed.

End FloatOrder.

(** ** Rounding preserves the order *)

Section RoundingOrder.

Abbreviation fexp := (SpecFloat.fexp prec emax).

Lemma loc_of_shr_record_of_loc m l : loc_of_shr_record (shr_record_of_loc m l) = l.
Proof. by destruct l as [|[]]. Qed.

Lemma shr_m_of_loc m l : shr_m (shr_record_of_loc m l) = m.
Proof. by destruct l as [|[]]. Qed.

Lemma shr_1_inbetween N D mrs :
  inbetween N D (shr_m mrs) (loc_of_shr_record mrs) →
  inbetween N (D * 2) (shr_m (shr_1 mrs)) (loc_of_shr_record (shr_1 mrs)).
Proof.
  destruct mrs as [m r s]. unfold inbetween, loc_of. cbn [shr_m].
  intros (HD & Hm & HN & Hl).
  destruct (Z.eqb_spec N (m * D)) as [E|E];
    [|destruct (Z.compare_spec (2 * N) ((2 * m + 1) * D)) as [C|C|C]];
    destruct r, s; try discriminate Hl; clear Hl;
    (destruct m as [|[p|p|]|p]; [| | | |lia]);
    cbn [shr_1 shr_m loc_of_shr_record orb];
    (split; [lia|]); (split; [lia|]); (split; [lia|]);
    match goal with |- _ = (if ?a =? ?b then _ else _) =>
      destruct (Z.eqb_spec a b) as [E'|E']; try lia end;
    try match goal with |- _ = loc_Inexact (?a ?= ?b) =>
      destruct (Z.compare_spec a b) as [C'|C'|C']; try lia end;
    done.
Qed.


Lemma iter_shr_1_inbetween N p D mrs :
  inbetween N D (shr_m mrs) (loc_of_shr_record mrs) →
  inbetween N (D * 2 ^ Z.pos p)
    (shr_m (SpecFloat.iter_pos shr_1 p mrs))
    (loc_of_shr_record (SpecFloat.iter_pos shr_1 p mrs)).
Proof.
  revert D mrs. induction p as [p IH|p IH|]; intros D mrs H; cbn [SpecFloat.iter_pos].
  - apply shr_1_inbetween, IH, IH in H.
    by replace (D * 2 ^ Z.pos p~1) with (D * 2 * 2 ^ Z.pos p * 2 ^ Z.pos p)
      by (rewrite pow2_xI; ring).
  - apply IH, IH in H.
    by replace (D * 2 ^ Z.pos p~0) with (D * 2 ^ Z.pos p * 2 ^ Z.pos p)
      by (rewrite pow2_xO; ring).
  - by apply shr_1_inbetween.
Qed.

(** [shr_fexp] keeps the rational: it truncates it at the new exponent. *)
Lemma shr_fexp_inbetween N D m e l :
  inbetween N D m l →
  let k := Z.max (fexp (Zdigits2 m + e) - e) 0 in
  inbetween N (D * 2 ^ k)
    (shr_m (shr_fexp prec emax m e l).1)
    (loc_of_shr_record (shr_fexp prec emax m e l).1) ∧
  (shr_fexp prec emax m e l).2 = e + k.
Proof.
  intros H k. subst k. unfold shr_fexp, shr.
  destruct (fexp (Zdigits2 m + e) - e) as [|p|p] eqn:Ek; cbn [fst snd].
  - rewrite shr_m_of_loc, loc_of_shr_record_of_loc.
    replace (Z.max 0 0) with 0 by lia. rewrite Z.mul_1_r, Z.add_0_r. done.
  - replace (Z.max (Z.pos p) 0) with (Z.pos p) by lia. split; [|done].
    apply iter_shr_1_inbetween. by rewrite shr_m_of_loc, loc_of_shr_record_of_loc.
  - rewrite shr_m_of_loc, loc_of_shr_record_of_loc.
    replace (Z.max (Z.neg p) 0) with 0 by lia. rewrite Z.mul_1_r, Z.add_0_r. done.
Qed.

Lemma inbetween_div N D m l : inbetween N D m l → m = N / D.
Proof.
  intros (HD & Hm & HN & _). apply Z.div_unique with (N - m * D); lia.
Qed.

Lemma inbetween_rnd N D m l : inbetween N D m l → round_nearest_even m l = rnd N D.
Proof.
  intros H. unfold rnd. rewrite <- (inbetween_div _ _ _ _ H).
  by destruct H as (_ & _ & _ & ->).
Qed.

Lemma inbetween_floor N D : 0 < D → 0 ≤ N → inbetween N D (N / D) (loc_of N D (N / D)).
Proof.
  intros HD HN. unfold inbetween. split; [done|].
  pose proof (Z.div_pos N D HN HD).
  pose proof (Z.mul_div_le N D HD). pose proof (Z.mul_succ_div_gt N D HD).
  repeat split; lia.
Qed.

(** Rounding to nearest, ties to even, is monotone. *)
Lemma rnd_mono N1 D1 N2 D2 :
  0 < D1 → 0 < D2 → 0 ≤ N1 → N1 * D2 ≤ N2 * D1 → rnd N1 D1 ≤ rnd N2 D2.
Proof.
  intros HD1 HD2 HN1 H.
  assert (0 ≤ N2) by nia.
  destruct (inbetween_floor N1 D1 HD1 HN1) as (_ & Hm1 & B1 & _).
  destruct (inbetween_floor N2 D2 HD2 H0) as (_ & Hm2 & B2 & _).
  unfold rnd. set (m1 := N1 / D1) in *. set (m2 := N2 / D2) in *.
  assert (m1 ≤ m2) by nia.
  pose proof (round_nearest_even_range m1 (loc_of N1 D1 m1)) as R1.
  pose proof (round_nearest_even_range m2 (loc_of N2 D2 m2)) as R2.
  destruct (decide (m1 = m2)) as [E|E]; [|lia].
  rewrite <- E in *. clear R1 R2. unfold loc_of.
  destruct (Z.eqb_spec N1 (m1 * D1)) as [E1|E1]; simpl.
  { pose proof (round_nearest_even_range m1
                  (if N2 =? m1 * D2 then loc_Exact
                   else loc_Inexact (2 * N2 ?= (2 * m1 + 1) * D2))). lia. }
  destruct (Z.eqb_spec N2 (m1 * D2)) as [E2|E2]; [nia|].
  destruct (Z.compare_spec (2 * N1) ((2 * m1 + 1) * D1)) as [C1|C1|C1];
    destruct (Z.compare_spec (2 * N2) ((2 * m1 + 1) * D2)) as [C2|C2|C2];
    simpl; try destruct (Z.even m1); try lia; nia.
Qed.

Lemma rnd_range N D : 0 < D → 0 ≤ N → N / D ≤ rnd N D ≤ N / D + 1.
Proof. intros. apply round_nearest_even_range. Qed.

(** [binary_round_aux] on a truncated rational: shift to the exponent of the
    format, round to nearest even, renormalise. *)
Lemma binary_round_aux_rnd s N D m e l :
  inbetween N D m l → e ≤ fexp (Zdigits2 m + e) →
  binary_round_aux prec emax s m e l =
    finish s (rnd N (D * 2 ^ (fexp (Zdigits2 m + e) - e))) (fexp (Zdigits2 m + e)).
Proof.
  intros H He. unfold binary_round_aux.
  destruct (shr_fexp_inbetween N D m e l H) as [H1 E1].
  replace (Z.max (fexp (Zdigits2 m + e) - e) 0) with (fexp (Zdigits2 m + e) - e) in * by lia.
  destruct (shr_fexp prec emax m e l) as [mrs' e']; cbn [fst snd] in H1, E1.
  rewrite (inbetween_rnd _ _ _ _ H1).
  set (n := rnd N _).
  assert (0 ≤ n) as Hn.
  { destruct H1 as (HD & _ & HN & _). destruct H as (_ & Hm & HN0 & _).
    assert (0 ≤ N) by nia.
    pose proof (rnd_range N _ HD H). fold n in H0.
    pose proof (Z.div_pos N _ H HD). lia. }
  destruct (shr_fexp_spec n e' loc_Exact Hn) as [E3 E4].
  destruct (shr_fexp prec emax n e' loc_Exact) as [mrs'' e'']; cbn [fst snd] in E3, E4.
  unfold finish.
  replace (fexp (Zdigits2 m + e)) with e' by lia.
  replace (Z.max e' (fexp (Zdigits2 n + e')) - e')
    with (Z.max (fexp (Zdigits2 n + e') - e') 0) by lia.
  rewrite <- E3.
  replace (Z.max e' (fexp (Zdigits2 n + e'))) with e'' by lia.
  done.
Qed.


Lemma finish_zero s e1 : -1074 ≤ e1 → finish s 0 e1 = S754_zero s.
Proof.
  intros He. unfold finish. cbn [Zdigits2]. rewrite fexp_eq.
  replace (Z.max e1 (Z.max (0 + e1 - 53) (-1074)) - e1) with 0 by lia. done.
Qed.

Lemma finish_small s p e1 :
  Z.pos p < 2 ^ 53 → -1074 ≤ e1 →
  finish s (Z.pos p) e1 =
    if e1 <=? emax - prec then S754_finite s p e1 else S754_infinity s.
Proof.
  intros Hp He. unfold finish.
  pose proof (Zdigits2_bounds (Z.pos p) ltac:(lia)) as [B _].
  assert (Zdigits2 (Z.pos p) ≤ 53).
  { destruct (decide (Zdigits2 (Z.pos p) ≤ 53)); [done|].
    pose proof (Z.pow_le_mono_r 2 53 (Zdigits2 (Z.pos p) - 1) ltac:(lia) ltac:(lia)).
    lia. }
  rewrite fexp_eq.
  replace (Z.max e1 (Z.max (Zdigits2 (Z.pos p) + e1 - 53) (-1074))) with e1 by lia.
  replace (e1 - e1) with 0 by lia. by rewrite Z.pow_0_r, Z.div_1_r.
Qed.

Lemma finish_carry s e1 :
  -1074 ≤ e1 →
  finish s (2 ^ 53) e1 =
    if e1 + 1 <=? emax - prec then S754_finite s 4503599627370496 (e1 + 1)
    else S754_infinity s.
Proof.
  intros He. unfold finish.
  change (Zdigits2 (2 ^ 53)) with 54. rewrite fexp_eq.
  replace (Z.max e1 (Z.max (54 + e1 - 53) (-1074))) with (e1 + 1) by lia.
  replace (e1 + 1 - e1) with 1 by lia. done.
Qed.

(** The results of the last step are ordered as their mantissas, at one
    exponent, and as their exponents when the larger one is normal. *)
Lemma finish_le n1 e1 n2 e2 :
  0 ≤ n1 ≤ 2 ^ 53 → 0 ≤ n2 ≤ 2 ^ 53 → -1074 ≤ e1 → -1074 ≤ e2 →
  (e1 = e2 ∧ n1 ≤ n2) ∨ (e1 < e2 ∧ 2 ^ 52 ≤ n2) →
  SFleb (finish false n1 e1) (finish false n2 e2) = true.
Proof.
  intros H1 H2 He1 He2 H.
  assert (F : ∀ n e, 0 ≤ n ≤ 2 ^ 53 → -1074 ≤ e →
            (n = 0 ∧ finish false n e = S754_zero false) ∨
            (∃ p, n = Z.pos p ∧ n < 2 ^ 53 ∧
               finish false n e =
                 if e <=? emax - prec then S754_finite false p e
                 else S754_infinity false) ∨
            (n = 2 ^ 53 ∧
               finish false n e =
                 if e + 1 <=? emax - prec
                 then S754_finite false 4503599627370496 (e + 1)
                 else S754_infinity false)).
  { intros n e Hn He. destruct (decide (n = 0)) as [->|]; [left; by rewrite finish_zero|].
    right. destruct (decide (n = 2 ^ 53)) as [->|].
    - right. by rewrite finish_carry.
    - left. destruct n as [|p|p]; [done| |lia]. exists p.
      split; [done|]. split; [lia|]. apply finish_small; lia. }
  change (2 ^ 52) with 4503599627370496 in H.
  change (2 ^ 53) with 9007199254740992 in *.
  assert (L : ∀ p1 p2 e e', e < e' ∨ (e = e' ∧ Z.pos p1 ≤ Z.pos p2) →
            SFleb (S754_finite false p1 e) (S754_finite false p2 e') = true).
  { intros p1 p2 e e' Hc. unfold SFleb, SFcompare.
    destruct (Z.compare_spec e e'); [|done|lia].
    change (Pos.compare_cont Eq p1 p2) with (Pos.compare p1 p2).
    destruct (Pos.compare_spec p1 p2); [done|done|lia]. }
  destruct (F n1 e1 H1 He1) as [[E1 R1]|[(p1 & E1 & B1 & R1)|[E1 R1]]];
    destruct (F n2 e2 H2 He2) as [[E2 R2]|[(p2 & E2 & B2 & R2)|[E2 R2]]];
    rewrite R1, R2; clear R1 R2 F;
    repeat match goal with
      | |- context [?a <=? ?b] => destruct (Z.leb_spec a b)
      end;
    first [ reflexivity | lia | apply L; lia ].
Qed.


Lemma Zdigits2_lt_pow2 m : 0 ≤ m → m < 2 ^ Zdigits2 m.
Proof.
  intros H. destruct (decide (m = 0)) as [->|]; [done|].
  by apply Zdigits2_bounds; lia.
Qed.

Lemma pow2_pos k : 0 < 2 ^ k ∨ k < 0.
Proof. destruct (decide (0 ≤ k)); [left; by apply Z.pow_pos_nonneg|right; lia]. Qed.

(** The rounded mantissa fits [prec] + 1 bits. *)
Lemma rnd_shifted_range N D m l e :
  inbetween N D m l → e ≤ fexp (Zdigits2 m + e) →
  let k := fexp (Zdigits2 m + e) - e in
  N / (D * 2 ^ k) = m / 2 ^ k ∧
  m / 2 ^ k ≤ rnd N (D * 2 ^ k) ≤ m / 2 ^ k + 1 ∧
  0 ≤ rnd N (D * 2 ^ k) ≤ 2 ^ 53.
Proof.
  intros H He k. pose proof (inbetween_div _ _ _ _ H) as Em.
  destruct H as (HD & Hm & HN & _).
  assert (0 ≤ k) by (subst k; lia).
  assert (0 < 2 ^ k) by (apply Z.pow_pos_nonneg; lia).
  assert (0 ≤ N) by nia.
  assert (E : N / (D * 2 ^ k) = m / 2 ^ k) by (rewrite Em, Z.div_div by lia; done).
  pose proof (rnd_range N (D * 2 ^ k) ltac:(nia) H1) as R. rewrite E in R.
  split; [done|]. split; [done|].
  assert (0 ≤ m / 2 ^ k) by (apply Z.div_pos; lia).
  pose proof (Zdigits2_lt_pow2 (m / 2 ^ k) H2) as B.
  rewrite Zdigits2_div_pow2 in B by lia.
  assert (Z.max (Zdigits2 m - k) 0 ≤ 53).
  { subst k. rewrite fexp_eq in *. pose proof (Zdigits2_nonneg m). lia. }
  pose proof (Z.pow_le_mono_r 2 _ 53 ltac:(lia) H3). lia.
Qed.

(** Rounding is monotone: of two non-negative rationals, each given by a
    truncation that is precise enough, the smaller rounds to the smaller
    float. *)
Lemma round_mono N1 D1 m1 e1 l1 N2 D2 m2 e2 l2 c :
  inbetween N1 D1 m1 l1 → inbetween N2 D2 m2 l2 →
  e1 ≤ fexp (Zdigits2 m1 + e1) → e2 ≤ fexp (Zdigits2 m2 + e2) →
  c ≤ e1 → c ≤ e2 →
  N1 * D2 * 2 ^ (e1 - c) ≤ N2 * D1 * 2 ^ (e2 - c) →
  SFleb (binary_round_aux prec emax false m1 e1 l1)
        (binary_round_aux prec emax false m2 e2 l2) = true.
Proof.
  intros I1 I2 He1 He2 Hc1 Hc2 H.
  rewrite (binary_round_aux_rnd _ _ _ _ _ _ I1 He1),
          (binary_round_aux_rnd _ _ _ _ _ _ I2 He2).
  destruct (rnd_shifted_range _ _ _ _ _ I1 He1) as (F1 & R1 & B1).
  destruct (rnd_shifted_range _ _ _ _ _ I2 He2) as (F2 & R2 & B2).
  set (d1 := Zdigits2 m1) in *. set (d2 := Zdigits2 m2) in *.
  set (f1 := fexp (d1 + e1)) in *. set (f2 := fexp (d2 + e2)) in *.
  assert (Ef1 : f1 = Z.max (d1 + e1 - 53) (-1074)) by (subst f1; apply fexp_eq).
  assert (Ef2 : f2 = Z.max (d2 + e2 - 53) (-1074)) by (subst f2; apply fexp_eq).
  destruct I1 as (HD1 & Hm1 & HN1 & _). destruct I2 as (HD2 & Hm2 & HN2 & _).
  assert (HN1' : 0 ≤ N1) by nia. assert (HN2' : 0 ≤ N2) by nia.
  set (A := 2 ^ (e1 - c)) in *. set (B := 2 ^ (e2 - c)) in *.
  assert (HA : 0 < A) by (apply Z.pow_pos_nonneg; lia).
  assert (HB : 0 < B) by (apply Z.pow_pos_nonneg; lia).
  pose proof (Zdigits2_nonneg m1) as Hd1. fold d1 in Hd1.
  pose proof (Zdigits2_nonneg m2) as Hd2. fold d2 in Hd2.
  apply finish_le; [done|done|lia|lia|].
  destruct (Z.lt_trichotomy f1 f2) as [Hlt|[Heq|Hgt]].
  - right. split; [done|].
    assert (Hd2' : 0 < d2) by lia.
    assert (Hm2' : 0 < m2) by (destruct m2; [done|lia|lia]).
    assert (Hk : 0 ≤ f2 - e2) by lia.
    assert (Zdigits2 (m2 / 2 ^ (f2 - e2)) = 53) as Hd.
    { rewrite Zdigits2_div_pow2 by lia. fold d2. lia. }
    assert (Hq : 0 < m2 / 2 ^ (f2 - e2)).
    { destruct (m2 / 2 ^ (f2 - e2)) as [|q|q] eqn:E; [done|lia|].
      pose proof (Z.div_pos m2 (2 ^ (f2 - e2)) ltac:(lia)
                    ltac:(apply Z.pow_pos_nonneg; lia)). lia. }
    pose proof (Zdigits2_bounds _ Hq) as [Lo _]. rewrite Hd in Lo.
    change (2 ^ (53 - 1)) with (2 ^ 52) in Lo. lia.
  - left. split; [done|]. apply rnd_mono.
    + apply Z.mul_pos_pos; [done|apply Z.pow_pos_nonneg; lia].
    + apply Z.mul_pos_pos; [done|apply Z.pow_pos_nonneg; lia].
    + done.
    + set (g := f1 - c).
      assert (Hg1 : 0 ≤ g - (e1 - c)) by (subst g; lia).
      assert (Hg2 : 0 ≤ g - (e2 - c)) by (subst g; lia).
      replace (f1 - e1) with (g - (e1 - c)) by (subst g; lia).
      replace (f2 - e2) with (g - (e2 - c)) by (subst g; lia).
      set (P := 2 ^ (g - (e2 - c))). set (Q := 2 ^ (g - (e1 - c))).
      assert (HP : 0 < P) by (apply Z.pow_pos_nonneg; lia).
      assert (HQ : 0 < Q) by (apply Z.pow_pos_nonneg; lia).
      assert (EP : P * B = 2 ^ g).
      { subst P B. rewrite <- Z.pow_add_r by lia. f_equal. lia. }
      assert (EQ : Q * A = 2 ^ g).
      { subst Q A. rewrite <- Z.pow_add_r by lia. f_equal. lia. }
      assert (HG : 0 < 2 ^ g) by (apply Z.pow_pos_nonneg; subst g; lia).
      apply (Z.mul_le_mono_pos_r _ _ (A * B)); [nia|].
      replace (N1 * (D2 * P) * (A * B)) with (N1 * D2 * A * (P * B)) by ring.
      replace (N2 * (D1 * Q) * (A * B)) with (N2 * D1 * B * (Q * A)) by ring.
      rewrite EP, EQ. apply Z.mul_le_mono_nonneg_r; lia.
  - exfalso.
    assert (Hd1' : 0 < d1) by lia.
    assert (Hm1' : 0 < m1) by (destruct m1; [done|lia|lia]).
    pose proof (Zdigits2_bounds m1 Hm1') as [Lo1 _]. fold d1 in Lo1.
    pose proof (Zdigits2_lt_pow2 m2 Hm2) as Hi2. fold d2 in Hi2.
    assert (HX : 0 < 2 ^ (d1 - 1)) by (apply Z.pow_pos_nonneg; lia).
    assert (HY : 0 < 2 ^ d2) by (apply Z.pow_pos_nonneg; lia).
    assert (2 ^ (d1 - 1) * A < 2 ^ d2 * B) as Hp.
    { assert (L1 : 2 ^ (d1 - 1) * D1 ≤ N1) by nia.
      assert (L2 : N2 < 2 ^ d2 * D2) by nia.
      assert (HDA : 0 < D2 * A) by nia. assert (HDB : 0 < D1 * B) by nia.
      apply (Z.mul_lt_mono_pos_r (D1 * D2)); [nia|].
      apply Z.le_lt_trans with (N1 * D2 * A).
      { replace (2 ^ (d1 - 1) * A * (D1 * D2)) with (2 ^ (d1 - 1) * D1 * (D2 * A)) by ring.
        replace (N1 * D2 * A) with (N1 * (D2 * A)) by ring.
        apply Z.mul_le_mono_nonneg_r; lia. }
      apply Z.le_lt_trans with (N2 * D1 * B); [done|].
      replace (N2 * D1 * B) with (N2 * (D1 * B)) by ring.
      replace (2 ^ d2 * B * (D1 * D2)) with (2 ^ d2 * D2 * (D1 * B)) by ring.
      apply Z.mul_lt_mono_pos_r; lia. }
    subst A B. rewrite <- !Z.pow_add_r in Hp by lia.
    apply Z.pow_lt_mono_r_iff in Hp; lia.
Qed.


(** A canonical mantissa has at most 53 bits, and exactly 53 above the
    smallest exponent. *)
Lemma bounded_digits m e :
  bounded prec emax m e = true →
  let d := Zdigits2 (Z.pos m) in
  0 < d ≤ 53 ∧ -1074 ≤ e ∧ e = Z.max (d + e - 53) (-1074) ∧
  2 ^ (d - 1) ≤ Z.pos m < 2 ^ d.
Proof.
  intros H d. unfold bounded, canonical_mantissa in H.
  apply andb_true_iff in H as [Hc _]. apply Z.eqb_eq in Hc.
  change (Z.pos (digits2_pos m)) with d in Hc. rewrite fexp_eq in Hc.
  pose proof (Zdigits2_bounds (Z.pos m) ltac:(lia)) as B. fold d in B.
  assert (0 < d) by (subst d; simpl; lia). lia.
Qed.

(** The order of canonical positive floats is the order of their values. *)
Lemma SFleb_value m1 e1 m2 e2 c :
  bounded prec emax m1 e1 = true → bounded prec emax m2 e2 = true →
  SFleb (S754_finite false m1 e1) (S754_finite false m2 e2) = true →
  c ≤ e1 → c ≤ e2 →
  Z.pos m1 * 2 ^ (e1 - c) ≤ Z.pos m2 * 2 ^ (e2 - c).
Proof.
  intros V1 V2 H Hc1 Hc2.
  destruct (bounded_digits m1 e1 V1) as (Hd1 & He1 & Ee1 & Lo1 & Hi1).
  destruct (bounded_digits m2 e2 V2) as (Hd2 & He2 & Ee2 & Lo2 & Hi2).
  set (d1 := Zdigits2 (Z.pos m1)) in *. set (d2 := Zdigits2 (Z.pos m2)) in *.
  unfold SFleb, SFcompare in H.
  destruct (Z.compare_spec e1 e2) as [->|Hlt|Hgt]; [| |done].
  - change (Pos.compare_cont Eq m1 m2) with (Pos.compare m1 m2) in H.
    destruct (Pos.compare_spec m1 m2); [| |done];
      apply Z.mul_le_mono_nonneg_r; try lia; apply Z.pow_nonneg; lia.
  - assert (d2 = 53) by lia.
    assert (0 < 2 ^ (e1 - c)) by (apply Z.pow_pos_nonneg; lia).
    assert (0 < 2 ^ (e2 - c)) by (apply Z.pow_pos_nonneg; lia).
    assert (Z.pos m1 < 2 ^ 53).
    { eapply Z.lt_le_trans; [exact Hi1|]. apply Z.pow_le_mono_r; lia. }
    assert (2 ^ 52 ≤ Z.pos m2) by (by replace 52 with (d2 - 1) by lia).
    assert (2 ^ 53 * 2 ^ (e1 - c) ≤ 2 ^ 52 * 2 ^ (e2 - c)).
    { rewrite <- !Z.pow_add_r by lia. apply Z.pow_le_mono_r; lia. }
    nia.
Qed.

(** The product of two canonical mantissas is precise enough to round. *)
Lemma mul_precise mx ex my ey :
  bounded prec emax mx ex = true → bounded prec emax my ey = true →
  ex + ey ≤ fexp (Zdigits2 (Z.pos (mx * my)) + (ex + ey)).
Proof.
  intros Vx Vy.
  destruct (bounded_digits mx ex Vx) as (Hdx & Hex & Eex & Lox & Hix).
  destruct (bounded_digits my ey Vy) as (Hdy & Hey & Eey & Loy & Hiy).
  set (dx := Zdigits2 (Z.pos mx)) in *. set (dy := Zdigits2 (Z.pos my)) in *.
  assert (dx + dy - 1 ≤ Zdigits2 (Z.pos (mx * my))).
  { assert (0 < 2 ^ (dx - 1)) by (apply Z.pow_pos_nonneg; lia).
    assert (0 < 2 ^ (dy - 1)) by (apply Z.pow_pos_nonneg; lia).
    assert (HP : 2 ^ (dx + dy - 2) ≤ Z.pos (mx * my)).
    { replace (dx + dy - 2) with ((dx - 1) + (dy - 1)) by lia.
      rewrite Z.pow_add_r by lia. rewrite Pos2Z.inj_mul.
      apply Z.mul_le_mono_nonneg; lia. }
    assert (HP0 : 0 ≤ 2 ^ (dx + dy - 2)) by (apply Z.pow_nonneg; lia).
    pose proof (Zdigits2_le _ _ HP0 HP) as L.
    destruct (decide (dx + dy - 2 = 0)) as [E0|E0].
    - rewrite E0 in L. change (Zdigits2 (2 ^ 0)) with 1 in L. lia.
    - rewrite (Zdigits2_unique (2 ^ (dx + dy - 2)) (dx + dy - 1)) in L; [lia|lia|].
      replace (dx + dy - 1 - 1) with (dx + dy - 2) by lia. split; [lia|].
      apply Z.pow_lt_mono_r; lia. }
  rewrite fexp_eq. lia.
Qed.

Lemma new_location_loc_of D q r :
  0 < D → 0 ≤ r < D → new_location D r = loc_of (q * D + r) D q.
Proof.
  intros HD Hr. unfold new_location, new_location_even, new_location_odd, loc_of.
  destruct (Z.eqb_spec (q * D + r) (q * D)) as [E|E];
    destruct (Z.even D) eqn:Ev; cbv beta;
    destruct (Z.eqb_spec r 0) as [Hr0|Hr0]; try lia; try done; f_equal.
  - destruct (Z.compare_spec (2 * r) D);
      destruct (Z.compare_spec (2 * (q * D + r)) ((2 * q + 1) * D)); (done || lia).
  - assert (Z.odd D = true) as Ho by (by rewrite <- Z.negb_even, Ev).
    apply Z.odd_spec in Ho as [k Hk].
    destruct (Z.compare_spec (2 * r + 1) D);
      destruct (Z.compare_spec (2 * (q * D + r)) ((2 * q + 1) * D)); (done || lia).
Qed.

(** What the division core computes: the truncated quotient of the scaled
    mantissas with its location, at an exponent precise enough to round. *)
Lemma SFdiv_core_binary_spec mx ex my ey :
  let '(q, e', l) := SFdiv_core_binary prec emax (Z.pos mx) ex (Z.pos my) ey in
  e' ≤ ex - ey ∧
  inbetween (Z.pos mx * 2 ^ (ex - ey - e')) (Z.pos my) q l ∧
  e' ≤ fexp (Zdigits2 q + e').
Proof.
  unfold SFdiv_core_binary.
  set (d1 := Zdigits2 (Z.pos mx)). set (d2 := Zdigits2 (Z.pos my)).
  set (e' := Z.min (fexp (d1 + ex - (d2 + ey))) (ex - ey)).
  set (s := ex - ey - e').
  set (m' := match s with Z.pos _ => Z.shiftl (Z.pos mx) s | Z0 => Z.pos mx | Z.neg _ => 0 end).
  assert (Hs : 0 ≤ s) by lia.
  assert (m' = Z.pos mx * 2 ^ s) as Hm'.
  { subst m'. destruct s eqn:Es; [simpl; lia| |lia]. by rewrite Z.shiftl_mul_pow2. }
  assert (Hp : 0 < 2 ^ s) by (apply Z.pow_pos_nonneg; lia).
  pose proof (Z.div_eucl_eq m' (Z.pos my) ltac:(lia)) as E.
  pose proof (Z.mod_pos_bound m' (Z.pos my) ltac:(lia)) as B.
  unfold Z.modulo in B.
  destruct (Z.div_eucl m' (Z.pos my)) as [q r].
  assert (Hq : 0 ≤ q) by nia.
  cbv beta iota. fold s.
  split; [lia|]. split.
  - unfold inbetween. rewrite <- Hm'. split; [lia|]. split; [done|]. split; [nia|].
    rewrite E, (Z.mul_comm (Z.pos my) q). by apply new_location_loc_of.
  - pose proof (Zdigits2_bounds (Z.pos mx) ltac:(lia)) as [Lo1 _]. fold d1 in Lo1.
    pose proof (Zdigits2_bounds (Z.pos my) ltac:(lia)) as [_ Hi2]. fold d2 in Hi2.
    assert (Hd1 : 0 < d1) by (subst d1; simpl; lia).
    assert (Hd2 : 0 < d2) by (subst d2; simpl; lia).
    assert (d1 + s - d2 ≤ Zdigits2 q) as Hd.
    { destruct (decide (d1 + s - d2 ≤ 0)) as [|Hj]; [pose proof (Zdigits2_nonneg q); lia|].
      set (j := d1 + s - d2 - 1).
      assert (Hj0 : 0 ≤ j) by (subst j; lia).
      assert (HJ : 0 < 2 ^ j) by (apply Z.pow_pos_nonneg; lia).
      assert (2 ^ j ≤ q) as Hq2.
      { assert (2 ^ j * Z.pos my ≤ m').
        { rewrite Hm'.
          assert (2 ^ j * 2 ^ d2 = 2 ^ (d1 - 1) * 2 ^ s).
          { rewrite <- !Z.pow_add_r by lia. f_equal. subst j. lia. }
          assert (0 < 2 ^ (d1 - 1)) by (apply Z.pow_pos_nonneg; lia).
          nia. }
        nia. }
      pose proof (Zdigits2_le _ _ (Z.lt_le_incl _ _ HJ) Hq2) as L.
      destruct (decide (j = 0)) as [E0|E0].
      - rewrite E0 in L. change (Zdigits2 (2 ^ 0)) with 1 in L. subst j. lia.
      - rewrite (Zdigits2_unique (2 ^ j) (j + 1)) in L; [subst j; lia|lia|].
        replace (j + 1 - 1) with j by lia. split; [lia|].
        apply Z.pow_lt_mono_r; lia. }
    pose proof (fexp_mono (d1 + ex - (d2 + ey)) (Zdigits2 q + e') ltac:(lia)). lia.
Qed.


(** Division by a larger positive divisor gives a quotient that is not
    larger, after rounding. *)
Lemma SFdiv_antitone_finite mx ex my1 ey1 my2 ey2 :
  bounded prec emax my1 ey1 = true → bounded prec emax my2 ey2 = true →
  SFleb (S754_finite false my2 ey2) (S754_finite false my1 ey1) = true →
  SFleb (SFdiv prec emax (S754_finite false mx ex) (S754_finite false my1 ey1))
        (SFdiv prec emax (S754_finite false mx ex) (S754_finite false my2 ey2)) = true.
Proof.
  intros V1 V2 H. cbn [SFdiv xorb].
  pose proof (SFdiv_core_binary_spec mx ex my1 ey1) as S1.
  pose proof (SFdiv_core_binary_spec mx ex my2 ey2) as S2.
  destruct (SFdiv_core_binary prec emax (Z.pos mx) ex (Z.pos my1) ey1) as [[q1 e1] l1].
  destruct (SFdiv_core_binary prec emax (Z.pos mx) ex (Z.pos my2) ey2) as [[q2 e2] l2].
  destruct S1 as (Hs1 & I1 & P1). destruct S2 as (Hs2 & I2 & P2).
  set (c' := Z.min ey1 ey2).
  set (c := Z.min (Z.min e1 e2) (ex - ey1 - ey2 + c')).
  apply (round_mono _ _ _ _ _ _ _ _ _ _ c I1 I2 P1 P2); [lia|lia|].
  pose proof (SFleb_value my2 ey2 my1 ey1 c' V2 V1 H ltac:(lia) ltac:(lia)) as V.
  set (t := ex - ey1 - ey2 - c + c').
  assert (Ht : 0 ≤ t) by (subst t; lia).
  assert (HT : 0 ≤ 2 ^ t) by (apply Z.pow_nonneg; lia).
  replace (Z.pos mx * 2 ^ (ex - ey1 - e1) * Z.pos my2 * 2 ^ (e1 - c))
    with (Z.pos mx * (Z.pos my2 * 2 ^ (ey2 - c')) * 2 ^ t).
  2:{ replace (2 ^ t) with (2 ^ (ex - ey1 - c - (ey2 - c'))) by (f_equal; subst t; lia).
      transitivity (Z.pos mx * Z.pos my2 * (2 ^ (ey2 - c') * 2 ^ (ex - ey1 - c - (ey2 - c'))));
        [ring|].
      transitivity (Z.pos mx * Z.pos my2 * (2 ^ (ex - ey1 - e1) * 2 ^ (e1 - c))); [|ring].
      f_equal. rewrite <- !Z.pow_add_r by lia. f_equal. lia. }
  replace (Z.pos mx * 2 ^ (ex - ey2 - e2) * Z.pos my1 * 2 ^ (e2 - c))
    with (Z.pos mx * (Z.pos my1 * 2 ^ (ey1 - c')) * 2 ^ t).
  2:{ replace (2 ^ t) with (2 ^ (ex - ey2 - c - (ey1 - c'))) by (f_equal; subst t; lia).
      transitivity (Z.pos mx * Z.pos my1 * (2 ^ (ey1 - c') * 2 ^ (ex - ey2 - c - (ey1 - c'))));
        [ring|].
      transitivity (Z.pos mx * Z.pos my1 * (2 ^ (ex - ey2 - e2) * 2 ^ (e2 - c))); [|ring].
      f_equal. rewrite <- !Z.pow_add_r by lia. f_equal. lia. }
  apply Z.mul_le_mono_nonneg_r; [done|]. apply Z.mul_le_mono_nonneg_l; lia.
Qed.

(** Multiplication by a positive factor is monotone, after rounding. *)
Lemma SFmul_monotone_finite mc ec m1 e1 m2 e2 :
  bounded prec emax mc ec = true →
  bounded prec emax m1 e1 = true → bounded prec emax m2 e2 = true →
  SFleb (S754_finite false m2 e2) (S754_finite false m1 e1) = true →
  SFleb (SFmul prec emax (S754_finite false mc ec) (S754_finite false m2 e2))
        (SFmul prec emax (S754_finite false mc ec) (S754_finite false m1 e1)) = true.
Proof.
  intros Vc V1 V2 H. cbn [SFmul xorb].
  set (c' := Z.min e1 e2).
  assert (I : ∀ m, inbetween (Z.pos (mc * m)) 1 (Z.pos (mc * m)) loc_Exact).
  { intros m. unfold inbetween, loc_of. repeat split; try lia.
    by rewrite Z.mul_1_r, Z.eqb_refl. }
  apply (round_mono _ _ _ _ _ _ _ _ _ _ (ec + c') (I m2) (I m1));
    [by apply mul_precise|by apply mul_precise|lia|lia|].
  pose proof (SFleb_value m2 e2 m1 e1 c' V2 V1 H ltac:(lia) ltac:(lia)) as V.
  replace (ec + e2 - (ec + c')) with (e2 - c') by lia.
  replace (ec + e1 - (ec + c')) with (e1 - c') by lia.
  rewrite !Z.mul_1_r, !Pos2Z.inj_mul, <- !Z.mul_assoc.
  apply Z.mul_le_mono_nonneg_l; lia.
Qed.

Lemma at_least_zero_above_zero s x : at_least_zero x → SFleb (S754_zero s) x = true.
Proof. by destruct x as [[]|[]| |[] m e]. Qed.

Lemma at_least_zero_below_infinity x :
  at_least_zero x → SFleb x (S754_infinity false) = true.
Proof. by destruct x as [[]|[]| |[] m e]. Qed.

(** The same with zero dividends and infinite divisors. *)
Lemma SFdiv_antitone x y1 y2 :
  valid_binary y1 = true → valid_binary y2 = true →
  finite_at_least_zero x → at_least_zero y1 → at_least_zero y2 →
  SFeqb y1 (S754_zero false) = false → SFeqb y2 (S754_zero false) = false →
  SFleb y2 y1 = true →
  SFleb (SFdiv prec emax x y1) (SFdiv prec emax x y2) = true.
Proof.
  intros V1 V2 Hx H1 H2 Z1 Z2 H.
  destruct y1 as [s1|[]| |[] m1 e1]; try done;
    destruct y2 as [s2|[]| |[] m2 e2]; try done;
    destruct x as [sx|[]| |[] mx ex]; try done.
  - apply at_least_zero_above_zero.
    by apply (SFdiv_at_least_zero (S754_finite false mx ex) (S754_finite false m2 e2)).
  - by apply SFdiv_antitone_finite.
Qed.

Lemma SFmul_monotone c y1 y2 :
  valid_binary c = true → valid_binary y1 = true → valid_binary y2 = true →
  SFltb (S754_zero false) c = true → SFltb c (S754_infinity false) = true →
  at_least_zero y1 → at_least_zero y2 →
  SFleb y2 y1 = true →
  SFleb (SFmul prec emax c y2) (SFmul prec emax c y1) = true.
Proof.
  intros Vc V1 V2 Hc0 Hci H1 H2 H.
  destruct c as [sc|[]| |[] mc ec]; try done.
  destruct y1 as [s1|[]| |[] m1 e1]; try done;
    destruct y2 as [s2|[]| |[] m2 e2]; try done.
  - apply at_least_zero_below_infinity.
    by apply (SFmul_at_least_zero (S754_finite false mc ec) (S754_finite false m2 e2)).
  - apply at_least_zero_above_zero.
    by apply (SFmul_at_least_zero (S754_finite false mc ec) (S754_finite false m1 e1)).
  - by apply SFmul_monotone_finite.
Qed.

End RoundingOrder.

(** ** The risk calculator *)

(** C1: for collateral >= 0, debt >= 0 and a threshold in [0,1],
    [calculate_health_factor] returns +infinity when the debt equals zero and
    otherwise the quotient (collateral * threshold) / debt; it always returns,
    and what it returns is never below zero (for finite collateral and debt
    it is a number that is at least zero).  In particular
    healthFactor(100, 50, 0.8) is 1.6 and healthFactor(100, 100, 0.8) is 0.8. *)
Theorem calculate_health_factor_correct (c d t : float) :
  PrimFloat.leb 0 c = true → PrimFloat.leb 0 d = true →
  PrimFloat.leb 0 t = true → PrimFloat.leb t 1 = true →
  (eq0 d = true → calculate_health_factor c d t = Ok inf) ∧
  (eq0 d = false → calculate_health_factor c d t = Ok (c * t / d)%float) ∧
  (∃ r, calculate_health_factor c d t = Ok r ∧ PrimFloat.ltb r 0 = false) ∧
  (PrimFloat.ltb c inf = true → PrimFloat.ltb d inf = true →
     ∃ r, calculate_health_factor c d t = Ok r ∧ PrimFloat.leb 0 r = true) ∧
  calculate_health_factor 100 50 0.8 = Ok 1.6%float ∧
  calculate_health_factor 100 100 0.8 = Ok 0.8%float.
Proof.
  intros Hc Hd Ht Ht1.
  unfold calculate_health_factor, truediv; simpl.
  repeat split.
  - by intros ->.
  - by intros ->.
  - destruct (eq0 d) eqn:E; eexists; (split; [done|]).
    + reflexivity.
    + apply not_negative_ltb_zero. rewrite div_spec, mul_spec.
      apply SFdiv_not_negative;
        auto using SFmul_not_negative, leb_zero_not_negative.
      by rewrite <- eq0_spec.
  - intros Hcf Hdf. destruct (eq0 d) eqn:E; eexists; (split; [done|]).
    + reflexivity.
    + apply at_least_zero_leb. rewrite div_spec, mul_spec.
      apply SFdiv_at_least_zero; [apply SFmul_at_least_zero|..];
        auto using finite_at_least_zero_intro, at_most_one_not_infinite.
      by rewrite <- eq0_spec.
Qed.

Lemma calculate_health_factor_correct_witness :
  ∃ r, calculate_health_factor 100 50 0.8 = Ok r ∧ PrimFloat.ltb r 0 = false.
Proof.
  destruct (calculate_health_factor_correct 100 50 0.8) as (_ & _ & H & _);
    [reflexivity .. | exact H].
Defined.

(** C4, as the code has it: [calculate_liquidation_price] returns 0 whenever
    the collateral amount equals zero, whatever the other arguments;
    otherwise, when neither the bonus nor collateral * effective equals
    zero, it returns (debt * price) / (collateral * effective) with
    effective = threshold / bonus; in the remaining cases it raises
    ZeroDivisionError instead of returning; an omitted bonus is 1.05. *)
Theorem calculate_liquidation_price_correct (c d p t b : float) :
  (eq0 c = true → calculate_liquidation_price c d p t b = Ok (PInt 0)) ∧
  (eq0 c = false → eq0 b = false → eq0 (c * (t / b))%float = false →
     calculate_liquidation_price c d p t b
       = Ok (PFloat ((d * p) / (c * (t / b)))%float)) ∧
  (eq0 c = false → eq0 b = true ∨ eq0 (c * (t / b))%float = true →
     calculate_liquidation_price c d p t b = Raise ZeroDivisionError) ∧
  calculate_liquidation_price_call c d p t None
    = calculate_liquidation_price c d p t 1.05%float ∧
  (∀ b', calculate_liquidation_price_call 0 d p t b' = Ok (PInt 0)) ∧
  calculate_liquidation_price_call 2 3000 1 0.8 None = Ok (PFloat 1968.75%float).
Proof.
  unfold calculate_liquidation_price_call, calculate_liquidation_price, truediv; simpl.
  repeat split.
  - by intros ->.
  - intros -> -> Hz. simpl. by rewrite Hz.
  - intros -> [-> | Hz]; [done|]. destruct (eq0 b); [done|]. simpl. by rewrite Hz.
Qed.

(** C4, as the claim has it, fails: with a collateral that is not zero the
    call does not always return.  A bonus of 0 raises ZeroDivisionError, and
    so does collateral 1e-200 with threshold 1e-200 and the default bonus,
    where no argument is zero but collateral * effective underflows to zero. *)
Lemma liquidation_price_raises_on_zero_divisor :
  eq0 2 = false ∧
  calculate_liquidation_price 2%float 3000%float 1%float 0.8%float 0%float
    = Raise ZeroDivisionError ∧
  eq0 1e-200 = false ∧
  eq0 (1e-200 * (1e-200 / 1.05))%float = true ∧
  calculate_liquidation_price_call 1e-200 1 1 1e-200 None = Raise ZeroDivisionError.
Proof. by repeat split. Qed.

(** C5: with the default thresholds [should_alert] is the specification's
    [classifySeverity] at alert 1.2 and critical 1.05: below 1.05 critical,
    else below 1.2 warning, else safe, each bound exclusive; so 1.049 is
    critical, 1.05 is a warning and 1.2 is safe. *)
Theorem should_alert_default (hf : float) :
  should_alert hf None
    = (let '(alert, s) := classifySeverity hf 1.2 1.05 in (alert, severity_name s)) ∧
  (PrimFloat.ltb hf 1.05 = true → should_alert hf None = (true, "critical")) ∧
  (PrimFloat.ltb hf 1.05 = false → PrimFloat.ltb hf 1.2 = true →
     should_alert hf None = (true, "warning")) ∧
  (PrimFloat.ltb hf 1.05 = false → PrimFloat.ltb hf 1.2 = false →
     should_alert hf None = (false, "safe")) ∧
  should_alert 1.049 None = (true, "critical") ∧
  should_alert 1.05 None = (true, "warning") ∧
  should_alert 1.2 None = (false, "safe").
Proof.
  unfold should_alert, classifySeverity; simpl.
  unfold DEFAULT_ALERT_THRESHOLD.
  repeat split.
  - by destruct (PrimFloat.ltb hf 1.05), (PrimFloat.ltb hf 1.2).
  - by intros ->.
  - by intros -> ->.
  - by intros -> ->.
Qed.

(** *** The liquidation price and the bonus *)

Section LiquidationPriceOrder.

Lemma positive_at_least_zero (x : float) :
  PrimFloat.ltb 0 x = true →
  at_least_zero (Prim2SF x) ∧ SFeqb (Prim2SF x) (S754_zero false) = false.
Proof.
  rewrite FloatAxioms.ltb_spec. change (Prim2SF 0) with (S754_zero false).
  by destruct (Prim2SF x) as [[]|[]| |[] m e].
Qed.

Lemma above_positive (x y : float) :
  PrimFloat.ltb 0 x = true → PrimFloat.ltb x y = true →
  PrimFloat.ltb 0 y = true ∧ SFleb (Prim2SF x) (Prim2SF y) = true.
Proof.
  intros H0 H. split; [by apply (ltb_trans 0%float x y)|].
  apply SFltb_leb. by rewrite <- FloatAxioms.ltb_spec.
Qed.

Lemma product_finite_at_least_zero (d p : float) :
  PrimFloat.ltb 0 d = true → PrimFloat.ltb 0 p = true →
  PrimFloat.ltb (d * p) inf = true →
  finite_at_least_zero (Prim2SF (d * p)).
Proof.
  intros Hd Hp Hf.
  destruct (positive_at_least_zero d Hd) as [Ad _].
  destruct (positive_at_least_zero p Hp) as [Ap _].
  rewrite FloatAxioms.ltb_spec in Hf. change (Prim2SF inf) with (S754_infinity false) in Hf.
  rewrite mul_spec in *.
  destruct (Prim2SF d) as [[]|[]| |[] md ed]; try done;
    destruct (Prim2SF p) as [[]|[]| |[] mp ep]; try done;
    try (by cbn in Hf).
  pose proof (SFmul_at_least_zero (S754_finite false md ed) (S754_finite false mp ep) I I) as A.
  unfold SF64mul in *.
  by destruct (SFmul prec emax _ _) as [[]|[]| |[] m e].
Qed.

Lemma liquidation_price_value (c d p t b x : float) :
  PrimFloat.ltb 0 c = true →
  calculate_liquidation_price c d p t b = Ok (PFloat x) →
  eq0 (c * (t / b))%float = false ∧ x = (d * p / (c * (t / b)))%float.
Proof.
  intros Hc. unfold calculate_liquidation_price, truediv. cbn [num_is_zero num_mul num_div binary64].
  assert (eq0 c = false) as ->.
  { rewrite eq0_spec. by destruct (positive_at_least_zero c Hc). }
  destruct (eq0 b); [done|]. simpl.
  destruct (eq0 (c * (t / b))%float); [done|]. simpl. by intros [= <-].
Qed.

Lemma SFmul_positive_at_least_zero c y :
  SFltb (S754_zero false) c = true → SFltb c (S754_infinity false) = true →
  at_least_zero y → at_least_zero (SFmul prec emax c y).
Proof.
  destruct c as [[]|[]| |[] mc ec]; try done; intros _ _.
  destruct y as [[]|[]| |[] my ey]; try done; intros _.
  by apply (SFmul_at_least_zero (S754_finite false mc ec) (S754_finite false my ey)).
Qed.

Lemma SFdiv_finite_at_least_zero t b :
  finite_at_least_zero t → at_least_zero b → SFeqb b (S754_zero false) = false →
  at_least_zero (SFdiv prec emax t b).
Proof.
  intros Ft Ab Nb.
  destruct b as [[]|[]| |[] mb eb]; try done.
  - by destruct t as [[]|[]| |[] mt et].
  - apply SFdiv_at_least_zero; try done. by destruct t as [[]|[]| |[] mt et].
Qed.

(** What is at least a positive number is not zero. *)
Lemma SFleb_above_nonzero x y :
  at_least_zero x → SFeqb x (S754_zero false) = false → SFleb x y = true →
  SFeqb y (S754_zero false) = false.
Proof.
  destruct x as [[]|[]| |[] mx ex], y as [[]|[]| |[] my ey]; done.
Qed.

End LiquidationPriceOrder.

(** C3, as the code has it: on binary64, for fixed positive finite
    collateral, debt, price (with a finite debt value) and threshold, the
    liquidation price does not decrease as a positive bonus increases: when
    the call with the larger bonus returns a price, the call with the smaller
    bonus returns a price too, and that one is not above the former.  The
    bonus divides the threshold, so a larger bonus gives a trigger price that
    is higher than the naive formula, up to rounding. *)
Theorem liquidation_price_nondecreasing_in_bonus (c d p t b1 b2 x2 : float) :
  PrimFloat.ltb 0 c = true → PrimFloat.ltb c inf = true →
  PrimFloat.ltb 0 d = true → PrimFloat.ltb 0 p = true →
  PrimFloat.ltb (d * p) inf = true →
  PrimFloat.ltb 0 t = true → PrimFloat.ltb t inf = true →
  PrimFloat.ltb 0 b1 = true → PrimFloat.ltb b1 b2 = true →
  calculate_liquidation_price c d p t b2 = Ok (PFloat x2) →
  ∃ x1, calculate_liquidation_price c d p t b1 = Ok (PFloat x1) ∧
        PrimFloat.leb x1 x2 = true.
Proof.
  intros Hc Hci Hd Hp Hdp Ht Hti Hb1 Hb H2.
  destruct (liquidation_price_value _ _ _ _ _ _ Hc H2) as [Z2 ->].
  destruct (above_positive b1 b2 Hb1 Hb) as [Hb2 Hle].
  destruct (positive_at_least_zero b1 Hb1) as [Ab1 Nb1].
  destruct (positive_at_least_zero b2 Hb2) as [Ab2 Nb2].
  destruct (positive_at_least_zero c Hc) as [_ Nc].
  assert (Ft : finite_at_least_zero (Prim2SF t)).
  { apply finite_at_least_zero_intro; [|done].
    rewrite FloatAxioms.leb_spec. apply SFltb_leb. by rewrite <- FloatAxioms.ltb_spec. }
  assert (Sc0 : SFltb (S754_zero false) (Prim2SF c) = true)
    by (rewrite FloatAxioms.ltb_spec in Hc; exact Hc).
  assert (Sci : SFltb (Prim2SF c) (S754_infinity false) = true)
    by (rewrite FloatAxioms.ltb_spec in Hci; exact Hci).
  (* the effective thresholds, then the divisors, are ordered the other way *)
  assert (E : SFleb (Prim2SF (t / b2)) (Prim2SF (t / b1)) = true).
  { rewrite !div_spec.
    exact (SFdiv_antitone _ _ _ (Prim2SF_valid b2) (Prim2SF_valid b1)
             Ft Ab2 Ab1 Nb2 Nb1 Hle). }
  assert (Ae1 : at_least_zero (Prim2SF (t / b1)))
    by (rewrite div_spec; by apply SFdiv_finite_at_least_zero).
  assert (Ae2 : at_least_zero (Prim2SF (t / b2)))
    by (rewrite div_spec; by apply SFdiv_finite_at_least_zero).
  assert (Ad1 : at_least_zero (Prim2SF (c * (t / b1))))
    by (rewrite mul_spec; by apply SFmul_positive_at_least_zero).
  assert (Ad2 : at_least_zero (Prim2SF (c * (t / b2))))
    by (rewrite mul_spec; by apply SFmul_positive_at_least_zero).
  assert (D : SFleb (Prim2SF (c * (t / b2))) (Prim2SF (c * (t / b1))) = true).
  { rewrite !mul_spec.
    exact (SFmul_monotone _ _ _ (Prim2SF_valid c) (Prim2SF_valid _) (Prim2SF_valid _)
             Sc0 Sci Ae1 Ae2 E). }
  rewrite eq0_spec in Z2.
  pose proof (SFleb_above_nonzero _ _ Ad2 Z2 D) as Z1.
  exists (d * p / (c * (t / b1)))%float. split.
  - unfold calculate_liquidation_price, truediv.
    cbn [num_is_zero num_mul num_div binary64].
    rewrite !eq0_spec, Nc, Nb1. simpl. rewrite eq0_spec, Z1. reflexivity.
  - rewrite FloatAxioms.leb_spec, !div_spec.
    exact (SFdiv_antitone _ _ _ (Prim2SF_valid _) (Prim2SF_valid _)
             (product_finite_at_least_zero d p Hd Hp Hdp) Ad1 Ad2 Z1 Z2 D).
Qed.

Lemma liquidation_price_nondecreasing_in_bonus_witness :
  ∃ x1, calculate_liquidation_price 2%float 3000%float 1%float 0.8%float 1%float
          = Ok (PFloat x1) ∧
        PrimFloat.leb x1 1968.75 = true.
Proof.
  exact (liquidation_price_nondecreasing_in_bonus 2 3000 1 0.8 1 1.05 1968.75
           eq_refl eq_refl eq_refl eq_refl eq_refl eq_refl eq_refl eq_refl eq_refl
           eq_refl).
Defined.

(** The order is not strict: rounding can give two bonuses the same price,
    here 1.9 and the next binary64 number above it. *)
Lemma liquidation_price_bonus_tie :
  PrimFloat.ltb 1.9 (next_up 1.9) = true ∧
  calculate_liquidation_price 2%float 3000%float 1%float 0.5%float 1.9%float
    = Ok (PFloat 5700%float) ∧
  calculate_liquidation_price 2%float 3000%float 1%float 0.5%float (next_up 1.9)
    = Ok (PFloat 5700%float).
Proof. by repeat split. Qed.

(** Nor does the call with the larger bonus always return: with collateral
    and threshold 1e-160 the bonus 1 gives a price and the bonus 1e10 makes
    collateral * effective underflow to zero. *)
Lemma liquidation_price_larger_bonus_raises :
  (∃ x, calculate_liquidation_price 1e-160%float 1%float 1%float 1e-160%float 1%float
          = Ok (PFloat x)) ∧
  calculate_liquidation_price 1e-160%float 1%float 1%float 1e-160%float 1e10%float
    = Raise ZeroDivisionError.
Proof. split; [by eexists|done]. Qed.

(** C3, as the claim has it, fails: with collateral 2, debt 3000, price 1 and
    threshold 0.8 (all positive, the threshold in (0,1]) and bonus 1 < 1.05,
    the price for the larger bonus is 1968.75, not below the 1875.0 of the
    smaller one. *)
Lemma liquidation_price_not_decreasing_in_bonus :
  PrimFloat.ltb 0 2 = true ∧ PrimFloat.ltb 0 3000 = true ∧ PrimFloat.ltb 0 1 = true ∧
  PrimFloat.ltb 0 0.8 = true ∧ PrimFloat.leb 0.8 1 = true ∧
  PrimFloat.ltb 1 1.05 = true ∧
  calculate_liquidation_price 2%float 3000%float 1%float 0.8%float 1%float
    = Ok (PFloat 1875%float) ∧
  calculate_liquidation_price 2%float 3000%float 1%float 0.8%float 1.05%float
    = Ok (PFloat 1968.75%float) ∧
  PrimFloat.ltb 1968.75 1875 = false.
Proof. by repeat split. Qed.

(** ** Conversions from chain integers *)

Lemma float_of_int_uint256 (z : Z) : uint256 z → float_of_int z = Ok (of_Z z).
Proof.
  intros [Hlo Hhi]. unfold float_of_int.
  assert (Hb : 2 ^ 256 < 2 ^ 1024 - 2 ^ 970) by (by vm_compute).
  assert (Hlt : Z.abs z < 2 ^ 1024 - 2 ^ 970).
  { rewrite Z.abs_eq by done. eapply Z.lt_trans; [exact Hhi | exact Hb]. }
  apply Z.ltb_lt in Hlt. by rewrite Hlt.
Qed.

Lemma int_truediv_uint256 (z : Z) (y : float) :
  uint256 z → eq0 y = false → int_truediv z y = Ok (of_Z z / y)%float.
Proof.
  intros Hz Hy. unfold int_truediv, truediv. rewrite float_of_int_uint256 by done.
  simpl. by rewrite Hy.
Qed.

(** ** The Aave-family adapters *)

(** What the adapter makes of an in-range account tuple: one contract read,
    each field divided by its scale. *)
Lemma aave_get_user_account_data_ok (self : ProtocolInterface) (wallet user : string)
    (w : world) (c d a t l h : Z) :
  to_checksum_address w wallet = Ok user →
  getUserAccountData w (w3 self) (contract self) user = Ok (c, d, a, t, l, h) →
  uint256 c → uint256 d → uint256 a → uint256 t → uint256 l → uint256 h →
  aave_get_user_account_data self wallet w =
    ([ContractRead (w3 self) (contract self) "getUserAccountData" [user]],
     Ok (Some {| total_collateral_usd := (of_Z c / 1e8)%float;
                 total_debt_usd := (of_Z d / 1e8)%float;
                 available_borrows_usd := PFloat (of_Z a / 1e8)%float;
                 liquidation_threshold := (of_Z t / 1e4)%float;
                 ltv := (of_Z l / 1e4)%float;
                 health_factor := (of_Z h / 1e18)%float;
                 positions := [] |})).
Proof.
  intros Hw Hcall Hc Hd Ha Ht Hl Hh.
  unfold aave_get_user_account_data, try_except, bind, checksum,
    call_getUserAccountData, lift, ret.
  rewrite Hw, Hcall.
  rewrite !int_truediv_uint256 by done.
  reflexivity.
Qed.

Lemma family_dispatch (self : ProtocolInterface) (wallet : string) :
  cls self ≠ COMPOUND_V3 →
  get_user_account_data self wallet = aave_get_user_account_data self wallet.
Proof. unfold get_user_account_data. by destruct (cls self). Qed.

(** C6: an Aave-family adapter (Aave V3, Spark, Radiant) that reads an
    in-range account tuple returns collateral, debt and available borrows
    divided by 1e8, liquidation threshold and ltv divided by 1e4 and the
    health factor divided by 1e18; the tuple (500000000000, 250000000000, 0,
    8250, 8000, 1650000000000000000) becomes 5000.0, 2500.0, 0.825, 0.8 and
    1.65. *)
Theorem aave_family_normalization (self : ProtocolInterface) (wallet user : string)
    (w : world) (c d a t l h : Z) :
  cls self ≠ COMPOUND_V3 →
  to_checksum_address w wallet = Ok user →
  getUserAccountData w (w3 self) (contract self) user = Ok (c, d, a, t, l, h) →
  uint256 c → uint256 d → uint256 a → uint256 t → uint256 l → uint256 h →
  get_user_account_data self wallet w =
    ([ContractRead (w3 self) (contract self) "getUserAccountData" [user]],
     Ok (Some {| total_collateral_usd := (of_Z c / 1e8)%float;
                 total_debt_usd := (of_Z d / 1e8)%float;
                 available_borrows_usd := PFloat (of_Z a / 1e8)%float;
                 liquidation_threshold := (of_Z t / 1e4)%float;
                 ltv := (of_Z l / 1e4)%float;
                 health_factor := (of_Z h / 1e18)%float;
                 positions := [] |})) ∧
  (of_Z 500000000000 / 1e8 = 5000)%float ∧
  (of_Z 250000000000 / 1e8 = 2500)%float ∧
  (of_Z 0 / 1e8 = 0)%float ∧
  (of_Z 8250 / 1e4 = 0.825)%float ∧
  (of_Z 8000 / 1e4 = 0.8)%float ∧
  (of_Z 1650000000000000000 / 1e18 = 1.65)%float.
Proof.
  intros Hcls Hw Hcall Hc Hd Ha Ht Hl Hh.
  split; [|by repeat split].
  rewrite family_dispatch by done.
  by apply aave_get_user_account_data_ok.
Qed.

Lemma aave_family_normalization_witness :
  get_user_account_data
    {| cls := SPARK; chain_id := 1; w3 := "https://eth.llamarpc.com";
       contract := "0xC13e21B648A5Ee794902342038FF3aDAB66BE987" |}
    "0x1111111111111111111111111111111111111111"
    (example_world sample_raw 0 0 0 []) =
    ([ContractRead "https://eth.llamarpc.com"
        "0xC13e21B648A5Ee794902342038FF3aDAB66BE987" "getUserAccountData"
        ["0x1111111111111111111111111111111111111111"]],
     Ok (Some {| total_collateral_usd := 5000%float;
                 total_debt_usd := 2500%float;
                 available_borrows_usd := PFloat 0%float;
                 liquidation_threshold := 0.825%float;
                 ltv := 0.8%float;
                 health_factor := 1.65%float;
                 positions := [] |})).
Proof.
  refine (proj1 (aave_family_normalization
            {| cls := SPARK; chain_id := 1; w3 := "https://eth.llamarpc.com";
               contract := "0xC13e21B648A5Ee794902342038FF3aDAB66BE987" |}
            "0x1111111111111111111111111111111111111111"
            "0x1111111111111111111111111111111111111111"
            (example_world sample_raw 0 0 0 [])
            500000000000 250000000000 0 8250 8000 1650000000000000000
            _ eq_refl eq_refl _ _ _ _ _ _));
    first [ discriminate | by vm_compute ].
Defined.

(** No 256-bit integer divided by a float of magnitude at least 2 gives an
    infinity or a NaN. *)
Lemma int_truediv_finite (h : Z) (y : float) sy my ey :
  uint256 h → Prim2SF y = S754_finite sy my ey → 2 ≤ Z.pos (digits2_pos my) + ey →
  int_truediv h y = Ok (of_Z h / y)%float ∧
  SF_finite (Prim2SF (of_Z h / y)%float) = true.
Proof.
  intros Hh Hy Hmag.
  destruct (binary_normalize_uint256 h Hh) as [Hv Hf].
  split.
  - apply int_truediv_uint256; [done|]. rewrite eq0_spec, Hy. by destruct sy.
  - rewrite div_spec. unfold of_Z. rewrite Prim2SF_SF2Prim by done.
    rewrite Hy. by apply SFdiv_finite.
Qed.

Lemma SF_finite_below_infinity (x : float) :
  SF_finite (Prim2SF x) = true → PrimFloat.ltb x inf = true.
Proof.
  rewrite FloatAxioms.ltb_spec. change (Prim2SF inf) with (S754_infinity false).
  by destruct (Prim2SF x) as [[]|[]| |[] m e].
Qed.

(** C2, on the code: whatever in-range account tuple an Aave-family adapter
    (Aave V3, Spark, Radiant) reads, the health factor it returns is the raw
    value divided by 1e18 and is strictly below +infinity; no raw value is
    normalised to +infinity.  For an account without debt, for which an
    Aave-style pool reports [type(uint256).max], each of the three adapters
    returns the finite 1.157920892373162e+59 (not zero, no error), while
    the Compound adapter returns +infinity for an account without debt. *)
Theorem aave_family_health_factor_is_finite (self : ProtocolInterface)
    (wallet user : string) (w : world) (c d a t l h : Z) :
  cls self ≠ COMPOUND_V3 →
  to_checksum_address w wallet = Ok user →
  getUserAccountData w (w3 self) (contract self) user = Ok (c, d, a, t, l, h) →
  uint256 c → uint256 d → uint256 a → uint256 t → uint256 l → uint256 h →
  (∃ data,
     outcome (get_user_account_data self wallet w) = Ok (Some data) ∧
     health_factor data = (of_Z h / 1e18)%float ∧
     PrimFloat.ltb (health_factor data) inf = true) ∧
  (∀ (url pool : string) (chain : Z),
     let w0 := example_world empty_raw 0 0 0 [] in
     let expected :=
       ([ContractRead url pool "getUserAccountData" [wallet]],
        Ok (Some {| total_collateral_usd := 0%float;
                    total_debt_usd := 0%float;
                    available_borrows_usd := PFloat 0%float;
                    liquidation_threshold := 0%float;
                    ltv := 0%float;
                    health_factor := 1.157920892373162e+59%float;
                    positions := [] |})) in
     get_user_account_data
       {| cls := AAVE_V3; chain_id := chain; w3 := url; contract := pool |} wallet w0
       = expected ∧
     get_user_account_data
       {| cls := SPARK; chain_id := chain; w3 := url; contract := pool |} wallet w0
       = expected ∧
     get_user_account_data
       {| cls := RADIANT; chain_id := chain; w3 := url; contract := pool |} wallet w0
       = expected ∧
     outcome (get_user_account_data
                {| cls := COMPOUND_V3; chain_id := chain; w3 := url; contract := pool |}
                wallet w0)
       = Ok (Some {| total_collateral_usd := 0%float;
                     total_debt_usd := 0%float;
                     available_borrows_usd := PInt 0;
                     liquidation_threshold := 0.8%float;
                     ltv := 0.75%float;
                     health_factor := inf;
                     positions := [] |})) ∧
  (of_Z UINT256_MAX / 1e18 = 1.157920892373162e+59)%float ∧
  PrimFloat.ltb 1.157920892373162e+59 inf = true ∧
  PrimFloat.eqb 1.157920892373162e+59 inf = false ∧
  PrimFloat.eqb 1.157920892373162e+59 0 = false.
Proof.
  intros Hcls Hw Hcall Hc Hd Ha Ht Hl Hh.
  split; [|by repeat split].
  rewrite family_dispatch by done.
  rewrite (aave_get_user_account_data_ok self wallet user w c d a t l h) by done.
  eexists. split; [reflexivity|]. split; [reflexivity|]. simpl.
  apply SF_finite_below_infinity.
  by eapply (int_truediv_finite h 1e18 false 7812500000000000 7).
Qed.

Lemma aave_family_health_factor_is_finite_witness :
  ∃ data,
    outcome (get_user_account_data
               {| cls := SPARK; chain_id := 1; w3 := "https://eth.llamarpc.com";
                  contract := "0xC13e21B648A5Ee794902342038FF3aDAB66BE987" |}
               "0x1111111111111111111111111111111111111111"
               (example_world empty_raw 0 0 0 [])) = Ok (Some data) ∧
    health_factor data = (of_Z UINT256_MAX / 1e18)%float ∧
    PrimFloat.ltb (health_factor data) inf = true.
Proof.
  refine (proj1 (aave_family_health_factor_is_finite
            {| cls := SPARK; chain_id := 1; w3 := "https://eth.llamarpc.com";
               contract := "0xC13e21B648A5Ee794902342038FF3aDAB66BE987" |}
            "0x1111111111111111111111111111111111111111"
            "0x1111111111111111111111111111111111111111"
            (example_world empty_raw 0 0 0 [])
            0 0 0 0 0 UINT256_MAX
            _ eq_refl eq_refl _ _ _ _ _ _));
    first [ discriminate | by vm_compute ].
Defined.

(** ** Adapter construction *)

Lemma contains_false (table : gmap Z string) (chain : Z) :
  table !! chain = None → contains table chain = false.
Proof.
  intros H. unfold contains. rewrite H. apply bool_decide_eq_false. by intros [? ?].
Qed.

(** Spark and Radiant look the chain up before anything else. *)
Lemma spark_unsupported_chain (chain : Z) (url : string) (w : world) :
  SPARK_POOL_ADDRESSES !! chain = None →
  get_protocol_interface SPARK chain url w = ([], Raise ValueError).
Proof.
  intros H. unfold get_protocol_interface, SparkInterface_init.
  by rewrite contains_false.
Qed.

Lemma radiant_unsupported_chain (chain : Z) (url : string) (w : world) :
  RADIANT_POOL_ADDRESSES !! chain = None →
  get_protocol_interface RADIANT chain url w = ([], Raise ValueError).
Proof.
  intros H. unfold get_protocol_interface, RadiantInterface_init.
  by rewrite contains_false.
Qed.

Lemma compound_unsupported_chain (chain : Z) (url : string) (w : world) :
  COMPOUND_V3_COMET_ADDRESSES !! chain = None →
  get_protocol_interface COMPOUND_V3 chain url w =
    ([IsConnected url],
     if rpc_is_connected w url then Raise ValueError else Raise ConnectionError).
Proof.
  intros H.
  unfold get_protocol_interface, CompoundV3Interface_init, ProtocolInterface_init,
    bind, is_connected.
  rewrite contains_false by done.
  by destruct (rpc_is_connected w url).
Qed.

(** C8, at the failing inputs: for a chain on which Aave V3 has no pool
    address, constructing the adapter first performs the connectivity check
    (a network call); it ends in [ConnectionError] when the endpoint is
    down, and reaches the [ValueError] for the unsupported chain only after
    the check succeeded.  Aave V3 on BSC (56) is such a pair. *)
Theorem aave_v3_connects_before_chain_check (chain : Z) (url : string) (w : world) :
  AAVE_V3_POOL_ADDRESSES !! chain = None →
  get_protocol_interface AAVE_V3 chain url w =
    ([IsConnected url],
     if rpc_is_connected w url then Raise ValueError else Raise ConnectionError).
Proof.
  intros H.
  unfold get_protocol_interface, AaveV3Interface_init, ProtocolInterface_init,
    bind, is_connected.
  rewrite contains_false by done.
  by destruct (rpc_is_connected w url).
Qed.

Lemma aave_v3_connects_before_chain_check_witness :
  get_protocol_interface AAVE_V3 56 "https://binance.llamarpc.com" offline_world =
    ([IsConnected "https://binance.llamarpc.com"], Raise ConnectionError).
Proof.
  exact (aave_v3_connects_before_chain_check
           56 "https://binance.llamarpc.com" offline_world eq_refl).
Defined.

(** ** The monitor *)


Lemma monitor_position_returns (self : LendingMonitor) (wallet : string)
    (protocol : ProtocolType) (chain : Z) (filters : option (list string))
    (w : world) :
  ∃ r, outcome (monitor_position self wallet protocol chain filters w) = Ok r.
Proof.
  unfold monitor_position, try_except, bind, outcome, lift, ret.
  destruct (rpc_urls self !! chain) as [url|]; [|by eexists].
  destruct (get_protocol_interface protocol chain url w) as [t1 [pi|e1]]; [|by eexists].
  destruct (get_user_account_data pi wallet w) as [t2 [[data|]|e2]]; [|by eexists..].
  destruct (assemble chain data) as [r'|e3]; by eexists.
Qed.




(** ** The price feed *)

Section PriceFeedFacts.

Implicit Types (symbols : list string) (s id k : string).

Lemma map_symbol_id_of (st : list string * gmap string string) s :
  map_symbol st s =
    match id_of s with
    | Some id => (st.1 ++ [id], <[ id := upper s ]> st.2)
    | None => st
    end.
Proof.
  unfold map_symbol, id_of. destruct st as [ids m]; cbn [fst snd].
  destruct (COINGECKO_IDS !! upper s) as [id|]; [|done].
  by destruct (truthy id).
Qed.

Lemma map_symbols_snoc symbols s :
  map_symbols (symbols ++ [s]) = map_symbol (map_symbols symbols) s.
Proof. unfold map_symbols. by rewrite foldl_app. Qed.

Lemma id_of_upper s s' : upper s = upper s' → id_of s = id_of s'.
Proof. unfold id_of. by intros ->. Qed.

(** The ids requested: those of the mapped symbols, in input order. *)
Lemma map_symbols_ids symbols : (map_symbols symbols).1 = omap id_of symbols.
Proof.
  induction symbols as [|s l IH] using rev_ind; [done|].
  rewrite map_symbols_snoc, map_symbol_id_of, omap_app. cbn [omap list_omap].
  destruct (id_of s); cbn [fst snd]; rewrite IH; [done|]. by rewrite app_nil_r.
Qed.

(** Every entry of [symbol_to_id] is the upper-cased form of an input
    symbol sent under that id. *)
Lemma symbol_to_id_inv symbols id k :
  (map_symbols symbols).2 !! id = Some k →
  ∃ s, s ∈ symbols ∧ id_of s = Some id ∧ k = upper s.
Proof.
  induction symbols as [|s l IH] using rev_ind; [done|].
  rewrite map_symbols_snoc, map_symbol_id_of.
  destruct (id_of s) as [id'|] eqn:E; simpl.
  - destruct (decide (id' = id)) as [->|Hne].
    + rewrite lookup_insert_eq. intros [= <-]. exists s. set_solver.
    + rewrite lookup_insert_ne by done. intros H.
      destruct (IH H) as (s' & ? & ? & ?). exists s'. set_solver.
  - intros H. destruct (IH H) as (s' & ? & ? & ?). exists s'. set_solver.
Qed.

(** [symbol_to_id] keeps, for each id, the last symbol sent under it. *)
Lemma symbol_to_id_last (l1 l2 : list string) s id :
  id_of s = Some id → (∀ s', s' ∈ l2 → id_of s' ≠ Some id) →
  (map_symbols (l1 ++ s :: l2)).2 !! id = Some (upper s).
Proof.
  intros Hs. induction l2 as [|s' l2 IH] using rev_ind; intros Hl2.
  - rewrite map_symbols_snoc, map_symbol_id_of, Hs; simpl.
    by rewrite lookup_insert_eq.
  - replace (l1 ++ s :: l2 ++ [s']) with ((l1 ++ s :: l2) ++ [s'])
      by (by rewrite <- app_assoc).
    rewrite map_symbols_snoc, map_symbol_id_of.
    assert (Hs' : id_of s' ≠ Some id) by (apply Hl2; set_solver).
    destruct (id_of s') as [id'|]; simpl.
    + rewrite lookup_insert_ne by congruence. apply IH. set_solver.
    + apply IH. set_solver.
Qed.

(** Where a price in the result comes from: it was there before, or a
    response entry with that [usd] field was stored under the symbol that
    [symbol_to_id] holds for the entry's id. *)
Lemma parse_response_lookup (m : gmap string string)
    (items : list (string * gmap string float)) (prices : gmap string float)
    k (v : float) :
  (parse_response m items prices).1 !! k = Some v →
  prices !! k = Some v ∨
  ∃ id data, (id, data) ∈ items ∧ data !! "usd" = Some v ∧ m !! id = Some k.
Proof.
  revert prices. induction items as [|[id data] items IH]; intros prices; simpl.
  - by left.
  - destruct (data !! "usd") as [usd|] eqn:Eusd.
    + destruct (m !! id) as [symbol|] eqn:Eid; simpl.
      * intros H. destruct (IH _ H) as [Hin | (id' & data' & ? & ? & ?)].
        -- destruct (decide (symbol = k)) as [->|Hne].
           ++ rewrite lookup_insert_eq in Hin. injection Hin as <-.
              right. exists id, data. set_solver.
           ++ rewrite lookup_insert_ne in Hin by done. by left.
        -- right. exists id', data'. set_solver.
      * by left.
    + intros H. destruct (IH _ H) as [Hin | (id' & data' & ? & ? & ?)]; [by left|].
      right. exists id', data'. set_solver.
Qed.

(** [get_token_prices] spelled out: no request when no symbol is mapped;
    otherwise one request for the mapped ids, and the prices that the
    response loop stored (none when the request failed). *)
Lemma get_token_prices_unfold symbols (w : world) :
  get_token_prices symbols w =
    match omap id_of symbols with
    | [] => ([], Ok ∅)
    | ids =>
        ([HttpGet (price_url ids)],
         Ok match http_get_json w (price_url ids) with
            | Ok data => (parse_response (map_symbols symbols).2 data ∅).1
            | Raise _ => ∅
            end)
    end.
Proof.
  unfold get_token_prices. rewrite <- map_symbols_ids.
  destruct (map_symbols symbols) as [ids m]; simpl.
  destruct ids as [|id ids]; [done|].
  unfold fetch_into, http_get.
  destruct (http_get_json w _) as [data|e]; [|done].
  by destruct (parse_response m data ∅) as [prices [[]|e]].
Qed.

(** The batch never fails. *)
Lemma get_token_prices_returns symbols (w : world) :
  ∃ prices, outcome (get_token_prices symbols w) = Ok prices.
Proof.
  rewrite get_token_prices_unfold. destruct (omap id_of symbols); by eexists.
Qed.

(** Unmapped symbols alone cause no request. *)
Lemma get_token_prices_unmapped symbols (w : world) :
  (∀ s, s ∈ symbols → id_of s = None) →
  get_token_prices symbols w = ([], Ok ∅).
Proof.
  intros H. rewrite get_token_prices_unfold.
  replace (omap id_of symbols) with (@nil string); [done|].
  symmetry. induction symbols as [|s l IH]; [done|]. cbn [omap list_omap].
  rewrite H by set_solver. apply IH. intros s' Hs'. apply H. set_solver.
Qed.

(** Every returned price is the [usd] field of a response entry whose id is
    the id of an input symbol, and is filed under that symbol. *)
Lemma get_token_prices_sound symbols (w : world) (prices : gmap string float)
    k (v : float) :
  outcome (get_token_prices symbols w) = Ok prices → prices !! k = Some v →
  ∃ s id response data,
    s ∈ symbols ∧ k = upper s ∧ id_of s = Some id ∧
    http_get_json w (price_url (omap id_of symbols)) = Ok response ∧
    (id, data) ∈ response ∧ data !! "usd" = Some v.
Proof.
  rewrite get_token_prices_unfold.
  destruct (omap id_of symbols) as [|i ids] eqn:E; simpl.
  - by intros [= <-].
  - destruct (http_get_json w _) as [response|e] eqn:Eresp; intros [= <-]; [|done].
    intros H. apply parse_response_lookup in H as [H | (id & data & ? & ? & Hm)]; [done|].
    apply symbol_to_id_inv in Hm as (s & ? & ? & ->).
    by exists s, id, response, data.
Qed.

(** A symbol that is not the last one sent under its id is never priced. *)
Lemma get_token_prices_drops_earlier (l1 l2 : list string) s1 s2 id (w : world)
    (prices : gmap string float) :
  id_of s2 = Some id → (∀ s, s ∈ l2 → id_of s ≠ Some id) →
  id_of s1 = Some id → upper s1 ≠ upper s2 →
  outcome (get_token_prices (l1 ++ s2 :: l2) w) = Ok prices →
  prices !! upper s1 = None.
Proof.
  intros H2 Hlast H1 Hne Hout.
  destruct (prices !! upper s1) as [v|] eqn:E; [|done]. exfalso.
  rewrite get_token_prices_unfold in Hout.
  destruct (omap id_of (l1 ++ s2 :: l2)) as [|i ids]; simpl in Hout.
  { by injection Hout as <-. }
  destruct (http_get_json w _) as [response|e]; injection Hout as <-; [|done].
  apply parse_response_lookup in E as [E | (id' & data & _ & _ & Hm)]; [done|].
  pose proof Hm as Hm'.
  apply symbol_to_id_inv in Hm' as (s & _ & Hs & Hup).
  rewrite <- (id_of_upper _ _ Hup), H1 in Hs. injection Hs as <-.
  rewrite (symbol_to_id_last l1 l2 s2 id) in Hm by done.
  by injection Hm as Hm.
Qed.

(** The last input symbol sent under a given id. *)
Lemma last_sent_under symbols s id :
  s ∈ symbols → id_of s = Some id →
  ∃ l1 s' l2, symbols = l1 ++ s' :: l2 ∧ id_of s' = Some id ∧
              ∀ x, x ∈ l2 → id_of x ≠ Some id.
Proof.
  induction symbols as [|x l IH] using rev_ind; [set_solver|].
  intros Hin Hs.
  destruct (decide (id_of x = Some id)) as [Hx|Hx].
  - exists l, x, []. set_solver.
  - assert (s ∈ l) as Hl by (set_unfold; naive_solver).
    destruct (IH Hl Hs) as (l1 & s' & l2 & -> & ? & Hl2).
    exists l1, s', (l2 ++ [x]). rewrite <- app_assoc. split; [done|].
    split; [done|]. intros y Hy. apply elem_of_app in Hy as [Hy|Hy]; [by apply Hl2|].
    by apply list_elem_of_singleton in Hy as ->.
Qed.






End PriceFeedFacts.

(** C9, at the failing input: the batch ["ETH", "WETH"] against an
    aggregator that resolves [ethereum] at 3000 USD.  One request is made
    and only "WETH" is returned, although "ETH" is mapped and its id came
    back with a [usd] field; asked alone, or through
    [get_token_price_with_fallback], "ETH" is priced in the same world.  The
    tolerance the claim describes is there: ["ETH", "UNKNOWNXYZ"] yields
    exactly "ETH", and an unmapped symbol alone causes no request. *)
Theorem batch_drops_a_resolved_symbol :
  let w := example_world empty_raw 0 0 0 eth_response in
  get_token_prices ["ETH"; "WETH"] w =
    ([HttpGet "https://api.coingecko.com/api/v3/simple/price?ids=ethereum,ethereum&vs_currencies=usd"],
     Ok {[ "WETH" := 3000%float ]}) ∧
  id_of "ETH" = Some "ethereum" ∧
  eth_response = [("ethereum", {[ "usd" := 3000%float ]})] ∧
  outcome (get_token_prices ["ETH"] w) = Ok {[ "ETH" := 3000%float ]} ∧
  outcome (get_token_price_with_fallback "ETH" None None None w) = Ok (Some 3000%float) ∧
  get_token_prices ["ETH"; "UNKNOWNXYZ"] w =
    ([HttpGet "https://api.coingecko.com/api/v3/simple/price?ids=ethereum&vs_currencies=usd"],
     Ok {[ "ETH" := 3000%float ]}) ∧
  get_token_prices ["UNKNOWNXYZ"] w = ([], Ok ∅).
Proof. by repeat split. Qed.

(** C10: for ASCII symbols, when two symbols that differ (case aside) are
    sent under the same external id, the batch always returns, prices at
    most one of them, and never the one that is followed in the input by the
    other as the last symbol under that id, whatever the aggregator answers.  For ["ETH",
    "WETH"] and an aggregator that resolves [ethereum], the result is
    "WETH" alone. *)
Theorem shared_id_keeps_last_symbol (symbols : list string) (w : world)
    (s1 s2 id : string) :
  forallb is_ascii symbols = true →
  s1 ∈ symbols → s2 ∈ symbols → upper s1 ≠ upper s2 →
  id_of s1 = Some id → id_of s2 = Some id →
  ∃ prices,
    outcome (get_token_prices symbols w) = Ok prices ∧
    (prices !! upper s1 = None ∨ prices !! upper s2 = None) ∧
    (∀ l1 l2, symbols = l1 ++ s2 :: l2 → (∀ s, s ∈ l2 → id_of s ≠ Some id) →
       prices !! upper s1 = None) ∧
    get_token_prices ["ETH"; "WETH"] (example_world empty_raw 0 0 0 eth_response) =
      ([HttpGet "https://api.coingecko.com/api/v3/simple/price?ids=ethereum,ethereum&vs_currencies=usd"],
       Ok {[ "WETH" := 3000%float ]}).
Proof.
  intros _ Hin1 Hin2 Hne H1 H2.
  destruct (get_token_prices_returns symbols w) as [prices Hout].
  exists prices. split; [done|]. repeat split.
  - destruct (last_sent_under symbols s1 id Hin1 H1) as (l1 & s & l2 & -> & Hs & Hlast).
    destruct (decide (upper s1 = upper s)) as [E|E].
    + right. eapply get_token_prices_drops_earlier; [exact Hs|exact Hlast|done| |done].
      congruence.
    + left. by eapply get_token_prices_drops_earlier.
  - intros l1 l2 -> Hlast. by eapply get_token_prices_drops_earlier.
Qed.

Lemma shared_id_keeps_last_symbol_witness :
  ∃ prices,
    outcome (get_token_prices ["ETH"; "WETH"]
               (example_world empty_raw 0 0 0 eth_response)) = Ok prices ∧
    (prices !! upper "ETH" = None ∨ prices !! upper "WETH" = None).
Proof.
  destruct (shared_id_keeps_last_symbol ["ETH"; "WETH"]
              (example_world empty_raw 0 0 0 eth_response) "ETH" "WETH" "ethereum")
    as (prices & Hout & Hone & _);
    [ reflexivity
    | by apply list_elem_of_In; vm_compute; auto
    | by apply list_elem_of_In; vm_compute; auto
    | discriminate | reflexivity | reflexivity | ].
  exists prices. by split.
Defined.

(** * Further properties of the code *)

(** ** Constructing an adapter *)


Lemma contains_true (table : gmap Z string) (chain : Z) (a : string) :
  table !! chain = Some a → contains table chain = true.
Proof.
  intros H. unfold contains. rewrite H. apply bool_decide_eq_true. by eexists.
Qed.

(** X1: Spark and Radiant look the chain up first: on a chain where they have no
    pool, construction fails with ValueError and nothing is sent, not even the
    connectivity check. *)
Theorem spark_radiant_reject_before_network (protocol : ProtocolType) (chain : Z)
    (url : string) (w : world) :
  protocol = SPARK ∨ protocol = RADIANT →
  address_table protocol !! chain = None →
  get_protocol_interface protocol chain url w = ([], Raise ValueError).
Proof.
  intros [-> | ->] H; [by apply spark_unsupported_chain|by apply radiant_unsupported_chain].
Qed.

Lemma spark_radiant_reject_before_network_witness :
  get_protocol_interface SPARK 137 "https://polygon.llamarpc.com" offline_world
    = ([], Raise ValueError).
Proof.
  exact (spark_radiant_reject_before_network SPARK 137 "https://polygon.llamarpc.com"
           offline_world (or_introl eq_refl) eq_refl).
Defined.

Lemma aave_unsupported_chain (chain : Z) (url : string) (w : world) :
  AAVE_V3_POOL_ADDRESSES !! chain = None →
  get_protocol_interface AAVE_V3 chain url w =
    ([IsConnected url],
     if rpc_is_connected w url then Raise ValueError else Raise ConnectionError).
Proof.
  intros H.
  unfold get_protocol_interface, AaveV3Interface_init, ProtocolInterface_init,
    bind, is_connected.
  rewrite contains_false by done.
  by destruct (rpc_is_connected w url).
Qed.

Lemma construction_registered (protocol : ProtocolType) (chain : Z)
    (url address : string) (w : world) :
  address_table protocol !! chain = Some address →
  get_protocol_interface protocol chain url w =
    ([IsConnected url],
     if rpc_is_connected w url
     then match to_checksum_address w address with
          | Ok a => Ok {| cls := protocol; chain_id := chain; w3 := url; contract := a |}
          | Raise e => Raise e
          end
     else Raise ConnectionError).
Proof.
  intros H.
  destruct protocol; simpl in H;
    unfold get_protocol_interface, AaveV3Interface_init, CompoundV3Interface_init,
      SparkInterface_init, RadiantInterface_init, ProtocolInterface_init,
      bind, is_connected, lift, checksum, getitem, ret, raise;
    rewrite (contains_true _ _ _ H), H; simpl;
    destruct (rpc_is_connected w url); simpl; try done;
    by destruct (to_checksum_address w address).
Qed.

(** X2: construction on a chain the protocol is registered on, for all four
    protocols: exactly one connectivity check and no contract read; an
    unreachable endpoint gives ConnectionError, and otherwise the adapter is
    bound to the check-summed registered address of that chain and protocol (an
    address web3 rejects fails the construction). *)
Theorem adapter_construction_on_registered_chain (protocol : ProtocolType) (chain : Z)
    (url address : string) (w : world) :
  address_table protocol !! chain = Some address →
  get_protocol_interface protocol chain url w =
    ([IsConnected url],
     if rpc_is_connected w url
     then match to_checksum_address w address with
          | Ok a => Ok {| cls := protocol; chain_id := chain; w3 := url; contract := a |}
          | Raise e => Raise e
          end
     else Raise ConnectionError).
Proof. apply construction_registered. Qed.

Lemma adapter_construction_on_registered_chain_witness :
  get_protocol_interface RADIANT 56 "https://binance.llamarpc.com"
    (example_world sample_raw 0 0 0 []) =
    ([IsConnected "https://binance.llamarpc.com"],
     Ok {| cls := RADIANT; chain_id := 56; w3 := "https://binance.llamarpc.com";
           contract := "0xd50Cf00b6e600Dd036Ba8eF475677d816d6c4281" |}).
Proof.
  exact (adapter_construction_on_registered_chain RADIANT 56
           "https://binance.llamarpc.com" "0xd50Cf00b6e600Dd036Ba8eF475677d816d6c4281"
           (example_world sample_raw 0 0 0 []) eq_refl).
Defined.

(** X3: constructing an adapter never reads a contract and sends at most the one
    connectivity check. It sends nothing only when Spark or Radiant reject an
    unregistered chain; the Aave V3 and Compound adapters always check
    connectivity first, also on a chain they are not registered on, and whenever
    the check is made and fails the error is ConnectionError. *)
Theorem adapter_construction_traffic (protocol : ProtocolType) (chain : Z)
    (url : string) (w : world) :
  (get_protocol_interface protocol chain url w = ([], Raise ValueError) ∧
   (protocol = SPARK ∨ protocol = RADIANT) ∧
   address_table protocol !! chain = None) ∨
  (trace (get_protocol_interface protocol chain url w) = [IsConnected url] ∧
   (rpc_is_connected w url = false →
      outcome (get_protocol_interface protocol chain url w) = Raise ConnectionError) ∧
   (address_table protocol !! chain = None →
      protocol = AAVE_V3 ∨ protocol = COMPOUND_V3)).
Proof.
  destruct (address_table protocol !! chain) as [address|] eqn:E.
  - right. rewrite (construction_registered _ _ _ _ _ E).
    split; [done|]. split; [by intros ->|done].
  - destruct protocol; simpl in E.
    + right. rewrite aave_unsupported_chain by done.
      split; [done|]. split; [by intros ->|by left].
    + right. rewrite compound_unsupported_chain by done.
      split; [done|]. split; [by intros ->|by right].
    + left. rewrite spark_unsupported_chain by done. split; [done|]. by split; [left|].
    + left. rewrite radiant_unsupported_chain by done. split; [done|]. by split; [right|].
Qed.

(** ** Reading an account through an adapter *)

(** X4: a wallet address that web3 rejects: no contract is read and the adapter
    answers None, whatever the protocol. *)
Theorem malformed_wallet_reads_nothing (self : ProtocolInterface) (wallet : string)
    (w : world) (e : exn) :
  to_checksum_address w wallet = Raise e →
  get_user_account_data self wallet w = ([], Ok None).
Proof.
  intros H. unfold get_user_account_data.
  destruct (cls self);
    unfold aave_get_user_account_data, compound_get_user_account_data,
      try_except, bind, checksum;
    by rewrite H.
Qed.

Lemma malformed_wallet_reads_nothing_witness :
  get_user_account_data
    {| cls := COMPOUND_V3; chain_id := 1; w3 := "https://eth.llamarpc.com";
       contract := "0xc3d688B66703497DAA19211EEdff47f25384cdc3" |}
    "not-an-address" rejecting_world
    = ([], Ok None).
Proof.
  exact (malformed_wallet_reads_nothing
           {| cls := COMPOUND_V3; chain_id := 1; w3 := "https://eth.llamarpc.com";
              contract := "0xc3d688B66703497DAA19211EEdff47f25384cdc3" |}
           "not-an-address" rejecting_world ValueError eq_refl).
Defined.

(** X5: when the [getUserAccountData] read of an Aave-family adapter fails, the
    adapter has made that one read and answers None: the error is swallowed. *)
Theorem aave_family_failed_read (self : ProtocolInterface) (wallet user : string)
    (w : world) (e : exn) :
  cls self ≠ COMPOUND_V3 →
  to_checksum_address w wallet = Ok user →
  getUserAccountData w (w3 self) (contract self) user = Raise e →
  get_user_account_data self wallet w =
    ([ContractRead (w3 self) (contract self) "getUserAccountData" [user]], Ok None).
Proof.
  intros Hcls Hw Hcall. rewrite family_dispatch by done.
  unfold aave_get_user_account_data, try_except, bind, checksum,
    call_getUserAccountData.
  by rewrite Hw, Hcall.
Qed.

Lemma aave_family_failed_read_witness :
  get_user_account_data
    {| cls := AAVE_V3; chain_id := 1; w3 := "https://eth.llamarpc.com";
       contract := "0x87870Bca3F3fD6335C3F4ce8392D69350B4fA4E2" |}
    "0x1111111111111111111111111111111111111111" offline_world
    = ([ContractRead "https://eth.llamarpc.com"
          "0x87870Bca3F3fD6335C3F4ce8392D69350B4fA4E2" "getUserAccountData"
          ["0x1111111111111111111111111111111111111111"]], Ok None).
Proof.
  refine (aave_family_failed_read
            {| cls := AAVE_V3; chain_id := 1; w3 := "https://eth.llamarpc.com";
               contract := "0x87870Bca3F3fD6335C3F4ce8392D69350B4fA4E2" |}
            "0x1111111111111111111111111111111111111111"
            "0x1111111111111111111111111111111111111111" offline_world
            ContractCallError _ eq_refl eq_refl).
  discriminate.
Defined.

(** X6: the comet is read in the order borrow balance, collateral balance,
    price; the first failing read ends the reads and the answer is None. *)
Theorem compound_reads_stop_at_first_failure (self : ProtocolInterface)
    (wallet user : string) (w : world) :
  cls self = COMPOUND_V3 →
  to_checksum_address w wallet = Ok user →
  let rd fn args := ContractRead (w3 self) (contract self) fn args in
  (∀ e, borrowBalanceOf w (w3 self) (contract self) user = Raise e →
     get_user_account_data self wallet w
       = ([rd "borrowBalanceOf" [user]], Ok None)) ∧
  (∀ b e, borrowBalanceOf w (w3 self) (contract self) user = Ok b →
     collateralBalanceOf w (w3 self) (contract self) user = Raise e →
     get_user_account_data self wallet w
       = ([rd "borrowBalanceOf" [user]; rd "collateralBalanceOf" [user]], Ok None)) ∧
  (∀ b c e, borrowBalanceOf w (w3 self) (contract self) user = Ok b →
     collateralBalanceOf w (w3 self) (contract self) user = Ok c →
     getPrice w (w3 self) (contract self) = Raise e →
     get_user_account_data self wallet w
       = ([rd "borrowBalanceOf" [user]; rd "collateralBalanceOf" [user];
           rd "getPrice" []], Ok None)).
Proof.
  intros Hcls Hw rd.
  unfold get_user_account_data. rewrite Hcls.
  unfold compound_get_user_account_data, try_except, bind,
    checksum, call_borrowBalanceOf, call_collateralBalanceOf, call_getPrice.
  rewrite Hw. repeat split.
  - by intros e ->.
  - by intros b e -> ->.
  - by intros b c e -> -> ->.
Qed.

Lemma compound_reads_stop_at_first_failure_witness :
  get_user_account_data
    {| cls := COMPOUND_V3; chain_id := 1; w3 := "https://eth.llamarpc.com";
       contract := "0xc3d688B66703497DAA19211EEdff47f25384cdc3" |}
    "0x1111111111111111111111111111111111111111" offline_world
    = ([ContractRead "https://eth.llamarpc.com"
          "0xc3d688B66703497DAA19211EEdff47f25384cdc3" "borrowBalanceOf"
          ["0x1111111111111111111111111111111111111111"]], Ok None).
Proof.
  exact (proj1 (compound_reads_stop_at_first_failure
            {| cls := COMPOUND_V3; chain_id := 1; w3 := "https://eth.llamarpc.com";
               contract := "0xc3d688B66703497DAA19211EEdff47f25384cdc3" |}
            "0x1111111111111111111111111111111111111111"
            "0x1111111111111111111111111111111111111111" offline_world
            eq_refl eq_refl) ContractCallError eq_refl).
Defined.

(** No exception leaves [get_user_account_data]. *)
Lemma try_except_none_returns {A} (body : M (option A)) (w : world) :
  ∃ r, outcome (try_except body (fun _ => ret None) w) = Ok r.
Proof.
  unfold try_except, outcome, ret. destruct (body w) as [t [a|e]]; by eexists.
Qed.

Lemma get_user_account_data_returns (self : ProtocolInterface) (wallet : string)
    (w : world) :
  ∃ r, outcome (get_user_account_data self wallet w) = Ok r.
Proof.
  unfold get_user_account_data, aave_get_user_account_data,
    compound_get_user_account_data.
  destruct (cls self); apply try_except_none_returns.
Qed.

(** ** Conversions of chain integers *)

Lemma float_of_int_bounded (z : Z) : 0 ≤ z < 2 ^ 1000 → float_of_int z = Ok (of_Z z).
Proof.
  intros [Hlo Hhi]. unfold float_of_int.
  assert (Hb : 2 ^ 1000 < 2 ^ 1024 - 2 ^ 970) by (by vm_compute).
  assert (Hlt : Z.abs z < 2 ^ 1024 - 2 ^ 970).
  { rewrite Z.abs_eq by done. eapply Z.lt_trans; [exact Hhi | exact Hb]. }
  apply Z.ltb_lt in Hlt. by rewrite Hlt.
Qed.

(** [float(h)] of a non-negative int below 2^1000: canonical, finite and not
    negative. *)
Lemma binary_normalize_bounded h :
  0 ≤ h < 2 ^ 1000 →
  let x := binary_normalize prec emax h 0 false in
  valid_binary x = true ∧ SF_finite x = true ∧ at_least_zero x.
Proof.
  intros [Hlo Hhi]. destruct h as [|p|p]; [done| |lia]. simpl.
  unfold binary_round.
  pose proof (shl_align_spec p 0 (SpecFloat.fexp prec emax (Z.pos (digits2_pos p) + 0))) as S.
  destruct (shl_align p 0 _) as [mz ez]. destruct S as [Ez Em].
  change (Z.pos (digits2_pos p)) with (Zdigits2 (Z.pos p)) in *.
  rewrite Z.add_0_r in Ez.
  assert (Zdigits2 (Z.pos p) ≤ 1000) as Hd.
  { destruct (decide (Zdigits2 (Z.pos p) ≤ 1000)); [done|].
    pose proof (Zdigits2_bounds (Z.pos p) ltac:(lia)) as [B _].
    pose proof (Z.pow_le_mono_r 2 1000 (Zdigits2 (Z.pos p) - 1) ltac:(lia) ltac:(lia)).
    lia. }
  assert (0 < Zdigits2 (Z.pos p)) by (simpl; lia).
  assert (Zdigits2 (Z.pos mz) + ez = Zdigits2 (Z.pos p)) as Hdz.
  { rewrite Em, Zdigits2_mul_pow2 by lia. lia. }
  split; [|split].
  - apply binary_round_aux_valid; [lia|]. rewrite Hdz. lia.
  - apply binary_round_aux_finite; [lia| |].
    + unfold emax, prec. lia.
    + replace (Zdigits2 (Z.pos mz) + ez + 1) with (Zdigits2 (Z.pos p) + 1) by lia.
      rewrite fexp_eq. unfold emax, prec. lia.
  - apply binary_round_aux_at_least_zero. lia.
Qed.

Lemma finite_at_least_zero_both x :
  SF_finite x = true → at_least_zero x → finite_at_least_zero x.
Proof. by destruct x as [[]|[]| |[] m e]. Qed.

(** A non-negative int below 2^1000 divided by a positive finite float of
    magnitude at least 2: the quotient is a finite number that is at least
    zero. *)
Lemma int_truediv_bounded (h : Z) (y : float) my ey :
  0 ≤ h < 2 ^ 1000 → Prim2SF y = S754_finite false my ey →
  2 ≤ Z.pos (digits2_pos my) + ey →
  int_truediv h y = Ok (of_Z h / y)%float ∧
  SF_finite (Prim2SF (of_Z h / y)%float) = true ∧
  at_least_zero (Prim2SF (of_Z h / y)%float).
Proof.
  intros Hh Hy Hmag.
  destruct (binary_normalize_bounded h Hh) as (Hv & Hf & Hz).
  assert (E : Prim2SF (of_Z h) = binary_normalize prec emax h 0 false)
    by (unfold of_Z; by rewrite Prim2SF_SF2Prim).
  split; [|split].
  - unfold int_truediv. rewrite float_of_int_bounded by done. simpl.
    unfold truediv. simpl. by rewrite eq0_spec, Hy.
  - rewrite div_spec, E, Hy. by apply SFdiv_finite.
  - rewrite div_spec, E, Hy. by apply SFdiv_at_least_zero.
Qed.

Lemma finite_number_order (x : float) :
  SF_finite (Prim2SF x) = true → at_least_zero (Prim2SF x) →
  PrimFloat.leb 0 x = true ∧ PrimFloat.ltb x inf = true ∧ gt0 x = negb (eq0 x).
Proof.
  intros Hf Hz. unfold gt0. rewrite eq0_spec.
  rewrite FloatAxioms.leb_spec, !FloatAxioms.ltb_spec.
  change (Prim2SF 0) with (S754_zero false).
  change (Prim2SF inf) with (S754_infinity false).
  by destruct (Prim2SF x) as [[]|[]| |[] m e].
Qed.

Lemma uint256_bounded (z : Z) : uint256 z → 0 ≤ z < 2 ^ 1000.
Proof.
  intros [H1 H2]. split; [done|].
  eapply Z.lt_trans; [exact H2|]. by vm_compute.
Qed.

Lemma uint256_mul_bounded (a b : Z) : uint256 a → uint256 b → 0 ≤ a * b < 2 ^ 1000.
Proof.
  intros [A1 A2] [B1 B2]. split; [nia|].
  assert (a * b < 2 ^ 256 * 2 ^ 256) by nia.
  eapply Z.lt_trans; [exact H|]. by vm_compute.
Qed.

Lemma scaled_uint256_finite_nonneg (z : Z) (y : float) my ey :
  uint256 z → Prim2SF y = S754_finite false my ey →
  2 ≤ Z.pos (digits2_pos my) + ey →
  finite_nonneg (of_Z z / y)%float.
Proof.
  intros Hz Hy Hm.
  destruct (int_truediv_bounded z y my ey (uint256_bounded z Hz) Hy Hm) as (_ & Hf & Ha).
  destruct (finite_number_order _ Hf Ha) as (? & ? & _). by split.
Qed.

(** X7: every figure an Aave-family adapter returns for an in-range account
    tuple is a finite number that is at least zero: never NaN, never infinite,
    never negative. *)
Theorem aave_family_figures_finite_nonneg (self : ProtocolInterface)
    (wallet user : string) (w : world) (c d a t l h : Z) :
  cls self ≠ COMPOUND_V3 →
  to_checksum_address w wallet = Ok user →
  getUserAccountData w (w3 self) (contract self) user = Ok (c, d, a, t, l, h) →
  uint256 c → uint256 d → uint256 a → uint256 t → uint256 l → uint256 h →
  ∃ data available,
    outcome (get_user_account_data self wallet w) = Ok (Some data) ∧
    available_borrows_usd data = PFloat available ∧
    finite_nonneg (total_collateral_usd data) ∧
    finite_nonneg (total_debt_usd data) ∧
    finite_nonneg available ∧
    finite_nonneg (liquidation_threshold data) ∧
    finite_nonneg (ltv data) ∧
    finite_nonneg (health_factor data).
Proof.
  intros Hcls Hw Hcall Hc Hd Ha Ht Hl Hh.
  rewrite family_dispatch by done.
  rewrite (aave_get_user_account_data_ok self wallet user w c d a t l h) by done.
  eexists _, _. split; [reflexivity|]. split; [reflexivity|]. simpl.
  repeat apply conj;
    first [ by eapply (scaled_uint256_finite_nonneg _ 1e8 6710886400000000 (-26))
          | by eapply (scaled_uint256_finite_nonneg _ 1e4 5497558138880000 (-39))
          | by eapply (scaled_uint256_finite_nonneg _ 1e18 7812500000000000 7) ].
Qed.

Lemma aave_family_figures_finite_nonneg_witness :
  ∃ data available,
    outcome (get_user_account_data
               {| cls := RADIANT; chain_id := 56; w3 := "https://binance.llamarpc.com";
                  contract := "0xd50Cf00b6e600Dd036Ba8eF475677d816d6c4281" |}
               "0x1111111111111111111111111111111111111111"
               (example_world sample_raw 0 0 0 [])) = Ok (Some data) ∧
    available_borrows_usd data = PFloat available ∧
    finite_nonneg (total_collateral_usd data) ∧
    finite_nonneg (total_debt_usd data) ∧
    finite_nonneg available ∧
    finite_nonneg (liquidation_threshold data) ∧
    finite_nonneg (ltv data) ∧
    finite_nonneg (health_factor data).
Proof.
  refine (aave_family_figures_finite_nonneg
            {| cls := RADIANT; chain_id := 56; w3 := "https://binance.llamarpc.com";
               contract := "0xd50Cf00b6e600Dd036Ba8eF475677d816d6c4281" |}
            "0x1111111111111111111111111111111111111111"
            "0x1111111111111111111111111111111111111111"
            (example_world sample_raw 0 0 0 [])
            500000000000 250000000000 0 8250 8000 1650000000000000000
            _ eq_refl eq_refl _ _ _ _ _ _);
    first [ discriminate | by vm_compute ].
Defined.

(** X8: the Compound adapter on in-range reads: three reads in order, debt
    scaled by 1e6, collateral balance times price scaled by 1e14, the constants
    0.8 and 0.75, and a health factor equal to what [calculate_health_factor]
    gives for the returned collateral, debt and threshold. *)
Theorem compound_normalization (self : ProtocolInterface) (wallet user : string)
    (w : world) (b c p : Z) :
  cls self = COMPOUND_V3 →
  to_checksum_address w wallet = Ok user →
  borrowBalanceOf w (w3 self) (contract self) user = Ok b →
  collateralBalanceOf w (w3 self) (contract self) user = Ok c →
  getPrice w (w3 self) (contract self) = Ok p →
  uint256 b → uint256 c → uint256 p →
  ∃ hf,
    get_user_account_data self wallet w =
      ([ContractRead (w3 self) (contract self) "borrowBalanceOf" [user];
        ContractRead (w3 self) (contract self) "collateralBalanceOf" [user];
        ContractRead (w3 self) (contract self) "getPrice" []],
       Ok (Some {| total_collateral_usd := (of_Z (c * p) / 1e14)%float;
                   total_debt_usd := (of_Z b / 1e6)%float;
                   available_borrows_usd := PInt 0;
                   liquidation_threshold := 0.8%float;
                   ltv := 0.75%float;
                   health_factor := hf;
                   positions := [] |})) ∧
    calculate_health_factor (of_Z (c * p) / 1e14)%float (of_Z b / 1e6)%float 0.8
      = Ok hf ∧
    (b = 0 → hf = inf).
Proof.
  intros Hcls Hw Hb Hc Hp Ub Uc Up.
  destruct (int_truediv_bounded b 1e6 8589934592000000 (-33)
              (uint256_bounded b Ub) eq_refl ltac:(done)) as (Eb & Fb & Ab).
  destruct (int_truediv_bounded (c * p) 1e14 6400000000000000 (-6)
              (uint256_mul_bounded c p Uc Up) eq_refl ltac:(done)) as (Ec & _ & _).
  destruct (finite_number_order _ Fb Ab) as (_ & _ & Hgt).
  unfold get_user_account_data. rewrite Hcls.
  unfold compound_get_user_account_data, try_except, bind, checksum,
    call_borrowBalanceOf, call_collateralBalanceOf, call_getPrice, lift, ret.
  rewrite Hw, Hb, Hc, Hp, Eb, Ec, Hgt.
  unfold calculate_health_factor, truediv. simpl.
  destruct (eq0 (of_Z b / 1e6)%float) eqn:E0; simpl.
  - eexists. split; [reflexivity|]. by split.
  - eexists. split; [reflexivity|]. split; [done|].
    intros ->. by vm_compute in E0.
Qed.

Lemma compound_normalization_witness :
  ∃ hf,
    get_user_account_data
      {| cls := COMPOUND_V3; chain_id := 1; w3 := "https://eth.llamarpc.com";
         contract := "0xc3d688B66703497DAA19211EEdff47f25384cdc3" |}
      "0x1111111111111111111111111111111111111111"
      (example_world sample_raw 1500000000 100000000 300000000000 []) =
      ([ContractRead "https://eth.llamarpc.com"
          "0xc3d688B66703497DAA19211EEdff47f25384cdc3" "borrowBalanceOf"
          ["0x1111111111111111111111111111111111111111"];
        ContractRead "https://eth.llamarpc.com"
          "0xc3d688B66703497DAA19211EEdff47f25384cdc3" "collateralBalanceOf"
          ["0x1111111111111111111111111111111111111111"];
        ContractRead "https://eth.llamarpc.com"
          "0xc3d688B66703497DAA19211EEdff47f25384cdc3" "getPrice" []],
       Ok (Some {| total_collateral_usd := 300000%float;
                   total_debt_usd := 1500%float;
                   available_borrows_usd := PInt 0;
                   liquidation_threshold := 0.8%float;
                   ltv := 0.75%float;
                   health_factor := hf;
                   positions := [] |})) ∧
    calculate_health_factor 300000 1500 0.8 = Ok hf ∧
    (1500000000 = 0 → hf = inf).
Proof.
  refine (compound_normalization
            {| cls := COMPOUND_V3; chain_id := 1; w3 := "https://eth.llamarpc.com";
               contract := "0xc3d688B66703497DAA19211EEdff47f25384cdc3" |}
            "0x1111111111111111111111111111111111111111"
            "0x1111111111111111111111111111111111111111"
            (example_world sample_raw 1500000000 100000000 300000000000 [])
            1500000000 100000000 300000000000
            eq_refl eq_refl eq_refl eq_refl eq_refl _ _ _); by vm_compute.
Defined.

(** ** The monitor *)

Lemma init_run (w : world) :
  init w =
    ([], Ok {| rpc_urls :=
                 foldl (fun urls '(chain_id, url) =>
                          <[ chain_id := default url (getenv w (env_key chain_id)) ]> urls)
                       ∅ DEFAULT_RPC_URLS |}).
Proof. reflexivity. Qed.

Lemma init_lookup (w : world) (m : LendingMonitor) (chain : Z) :
  outcome (init w) = Ok m →
  (∀ url, (chain, url) ∈ DEFAULT_RPC_URLS →
     rpc_urls m !! chain = Some (configured_url w chain url)) ∧
  (chain ∉ DEFAULT_CHAINS → rpc_urls m !! chain = None).
Proof.
  rewrite init_run. intros [= <-]. unfold DEFAULT_CHAINS, DEFAULT_RPC_URLS, configured_url.
  cbn [foldl rpc_urls fmap list_fmap fst]. split.
  - intros url H.
    repeat (apply elem_of_cons in H as [[= -> ->]|H]; [by simplify_map_eq|]).
    by apply elem_of_nil in H.
  - intros H.
    repeat (apply not_elem_of_cons in H as [? H]).
    by simplify_map_eq.
Qed.

(** X9: [__init__] configures exactly the seven default chains, each with the
    endpoint from the environment when one is set and the default otherwise. *)
Theorem init_configures_default_chains (w : world) :
  ∃ m, init w = ([], Ok m) ∧
    (∀ chain url, (chain, url) ∈ DEFAULT_RPC_URLS →
       rpc_urls m !! chain = Some (default url (getenv w (env_key chain)))) ∧
    (∀ chain, chain ∉ [1; 137; 42161; 10; 8453; 43114; 56] →
       rpc_urls m !! chain = None).
Proof.
  rewrite init_run. eexists. split; [reflexivity|]. split.
  - intros chain url H. by eapply init_lookup.
  - intros chain H. by eapply init_lookup.
Qed.

Lemma monitor_position_unconfigured (self : LendingMonitor) (wallet : string)
    (protocol : ProtocolType) (chain : Z) (filters : option (list string)) (w : world) :
  rpc_urls self !! chain = None →
  monitor_position self wallet protocol chain filters w = ([], Ok None).
Proof.
  intros H. unfold monitor_position, try_except. by rewrite H.
Qed.

(** X10: a chain outside the seven defaults: the monitor answers None and causes
    no network traffic, whatever the environment configures. *)
Theorem monitor_unsupported_chain (wallet : string) (protocol : ProtocolType)
    (chain : Z) (filters : option (list string)) (w : world) :
  chain ∉ [1; 137; 42161; 10; 8453; 43114; 56] →
  (m <- init ;; monitor_position m wallet protocol chain filters)%io w = ([], Ok None).
Proof.
  intros H. unfold bind. rewrite init_run.
  rewrite monitor_position_unconfigured; [done|].
  by eapply (init_lookup w); [rewrite init_run|].
Qed.

Lemma monitor_unsupported_chain_witness :
  (m <- init ;; monitor_position m "0x1111111111111111111111111111111111111111"
                  AAVE_V3 5 None)%io (example_world sample_raw 0 0 0 [])
    = ([], Ok None).
Proof.
  apply (monitor_unsupported_chain "0x1111111111111111111111111111111111111111"
           AAVE_V3 5 None (example_world sample_raw 0 0 0 [])).
  intros H. repeat (apply elem_of_cons in H as [H|H]; [discriminate|]).
  by apply elem_of_nil in H.
Defined.

(** How [monitor_position] composes its parts on a configured chain. *)
Lemma monitor_position_run (self : LendingMonitor) (wallet : string)
    (protocol : ProtocolType) (chain : Z) (filters : option (list string))
    (w : world) (url : string) :
  rpc_urls self !! chain = Some url →
  monitor_position self wallet protocol chain filters w =
    match get_protocol_interface protocol chain url w with
    | (t1, Raise _) => (t1, Ok None)
    | (t1, Ok adapter) =>
        match get_user_account_data adapter wallet w with
        | (t2, Raise _) => (t1 ++ t2, Ok None)
        | (t2, Ok None) => (t1 ++ t2, Ok None)
        | (t2, Ok (Some data)) =>
            (t1 ++ t2,
             Ok match assemble chain data with
                | Ok r => Some r
                | Raise _ => None
                end)
        end
    end.
Proof.
  intros H. unfold monitor_position, try_except, bind, lift, ret. rewrite H.
  destruct (get_protocol_interface protocol chain url w) as [t1 [adapter|e1]];
    [|by rewrite app_nil_r].
  destruct (get_user_account_data adapter wallet w) as [t2 [[data|]|e2]];
    rewrite ?app_nil_r; try done.
  destruct (assemble chain data); by rewrite ?app_nil_r.
Qed.

(** X11: on a configured chain the monitor's traffic is the adapter
    construction's followed by the adapter read's; a failed construction or a
    failed read gives None, and fetched account data give the assembled
    position, or None when assembling divides by zero. *)
Theorem monitor_position_composition (self : LendingMonitor) (wallet : string)
    (protocol : ProtocolType) (chain : Z) (filters : option (list string))
    (w : world) (url : string) :
  rpc_urls self !! chain = Some url →
  (∀ t1 e, get_protocol_interface protocol chain url w = (t1, Raise e) →
     monitor_position self wallet protocol chain filters w = (t1, Ok None)) ∧
  (∀ t1 adapter t2,
     get_protocol_interface protocol chain url w = (t1, Ok adapter) →
     get_user_account_data adapter wallet w = (t2, Ok None) →
     monitor_position self wallet protocol chain filters w = (t1 ++ t2, Ok None)) ∧
  (∀ t1 adapter t2 data,
     get_protocol_interface protocol chain url w = (t1, Ok adapter) →
     get_user_account_data adapter wallet w = (t2, Ok (Some data)) →
     monitor_position self wallet protocol chain filters w =
       (t1 ++ t2,
        Ok match assemble chain data with
           | Ok r => Some r
           | Raise _ => None
           end)).
Proof.
  intros H. rewrite (monitor_position_run _ _ _ _ _ _ _ H). repeat split.
  - by intros t1 e ->.
  - by intros t1 adapter t2 -> ->.
  - by intros t1 adapter t2 data -> ->.
Qed.

Lemma monitor_position_composition_witness :
  rpc_urls {| rpc_urls := {[ 137 := "https://polygon.llamarpc.com" ]} |} !! 137
    = Some "https://polygon.llamarpc.com" ∧
  get_protocol_interface SPARK 137 "https://polygon.llamarpc.com"
    (example_world sample_raw 0 0 0 []) = ([], Raise ValueError) ∧
  monitor_position
    {| rpc_urls := {[ 137 := "https://polygon.llamarpc.com" ]} |}
    "0x1111111111111111111111111111111111111111" SPARK 137 None
    (example_world sample_raw 0 0 0 []) = ([], Ok None).
Proof.
  split; [reflexivity|]. split; [reflexivity|].
  exact (proj1 (monitor_position_composition
           {| rpc_urls := {[ 137 := "https://polygon.llamarpc.com" ]} |}
           "0x1111111111111111111111111111111111111111" SPARK 137 None
           (example_world sample_raw 0 0 0 []) "https://polygon.llamarpc.com" eq_refl)
         [] ValueError eq_refl).
Defined.

(** X12: account data with positive debt and collateral whose collateral times
    threshold is zero (a zero liquidation threshold): computing the liquidation
    price divides by zero, the error is swallowed, and the monitor answers None
    after both network calls instead of a position. *)
Theorem monitor_zero_threshold_loses_position (self : LendingMonitor)
    (wallet : string) (protocol : ProtocolType) (chain : Z)
    (filters : option (list string)) (w : world) (url : string)
    (t1 t2 : list event) (adapter : ProtocolInterface) (data : account_data) :
  rpc_urls self !! chain = Some url →
  get_protocol_interface protocol chain url w = (t1, Ok adapter) →
  get_user_account_data adapter wallet w = (t2, Ok (Some data)) →
  gt0 (total_debt_usd data) = true → gt0 (total_collateral_usd data) = true →
  eq0 (total_collateral_usd data * liquidation_threshold data)%float = true →
  assemble chain data = Raise ZeroDivisionError ∧
  monitor_position self wallet protocol chain filters w = (t1 ++ t2, Ok None).
Proof.
  intros Hurl Hc Hr Hd Hcoll Hz.
  assert (E : assemble chain data = Raise ZeroDivisionError).
  { unfold assemble, truediv. rewrite Hd, Hcoll. simpl. by rewrite Hz. }
  split; [done|].
  rewrite (monitor_position_run _ _ _ _ _ _ _ Hurl), Hc, Hr. by rewrite E.
Qed.

Lemma monitor_zero_threshold_loses_position_witness :
  assemble 1 {| total_collateral_usd := 1%float; total_debt_usd := 1%float;
                available_borrows_usd := PFloat 0%float;
                liquidation_threshold := 0%float; ltv := 0%float;
                health_factor := 1%float; positions := [] |}
    = Raise ZeroDivisionError ∧
  monitor_position {| rpc_urls := {[ 1 := "https://eth.llamarpc.com" ]} |}
    "0x1111111111111111111111111111111111111111" AAVE_V3 1 None
    (example_world (100000000, 100000000, 0, 0, 0, 1000000000000000000) 0 0 0 [])
    = ([IsConnected "https://eth.llamarpc.com"] ++
       [ContractRead "https://eth.llamarpc.com"
          "0x87870Bca3F3fD6335C3F4ce8392D69350B4fA4E2" "getUserAccountData"
          ["0x1111111111111111111111111111111111111111"]], Ok None).
Proof.
  exact (monitor_zero_threshold_loses_position
           {| rpc_urls := {[ 1 := "https://eth.llamarpc.com" ]} |}
           "0x1111111111111111111111111111111111111111" AAVE_V3 1 None
           (example_world (100000000, 100000000, 0, 0, 0, 1000000000000000000) 0 0 0 [])
           "https://eth.llamarpc.com" _ _ _ _
           eq_refl eq_refl eq_refl eq_refl eq_refl eq_refl).
Defined.

Lemma assemble_fields (chain : Z) (data : account_data) (r : position) :
  assemble chain data = Ok r →
  p_chain_name r = default ("Chain " +:+ pretty chain) (CHAIN_NAMES !! chain) ∧
  p_health_factor r = health_factor data ∧
  p_total_collateral_usd r = total_collateral_usd data ∧
  p_total_debt_usd r = total_debt_usd data ∧
  p_liquidation_threshold r = liquidation_threshold data ∧
  p_ltv r = ltv data ∧
  p_positions r = positions data.
Proof.
  unfold assemble.
  destruct (_ && _); simpl; [destruct (truediv _ _); simpl; [|done]|];
    by intros [= <-].
Qed.

(** X13: a position returned by an initialised monitor names its chain by the
    registered name, never by the "Chain N" fallback, and carries the adapter's
    figures unchanged. *)
Theorem monitor_position_reports_adapter_figures (wallet : string)
    (protocol : ProtocolType) (chain : Z) (filters : option (list string))
    (w : world) (r : position) :
  outcome ((m <- init ;; monitor_position m wallet protocol chain filters)%io w)
    = Ok (Some r) →
  CHAIN_NAMES !! chain = Some (p_chain_name r) ∧
  ∃ url adapter t1 t2 data,
    (chain, url) ∈ DEFAULT_RPC_URLS ∧
    get_protocol_interface protocol chain (default url (getenv w (env_key chain))) w
      = (t1, Ok adapter) ∧
    get_user_account_data adapter wallet w = (t2, Ok (Some data)) ∧
    p_health_factor r = health_factor data ∧
    p_total_collateral_usd r = total_collateral_usd data ∧
    p_total_debt_usd r = total_debt_usd data ∧
    p_liquidation_threshold r = liquidation_threshold data ∧
    p_ltv r = ltv data ∧
    p_positions r = positions data.
Proof.
  unfold bind. rewrite init_run.
  set (m := {| rpc_urls := _ |}).
  assert (Hm : outcome (init w) = Ok m) by (by rewrite init_run).
  destruct (decide (chain ∈ DEFAULT_CHAINS)) as [Hin|Hout].
  2:{ rewrite monitor_position_unconfigured by (by eapply init_lookup). done. }
  apply list_elem_of_fmap in Hin as ([c url] & -> & Hin). simpl.
  pose proof (proj1 (init_lookup w m c Hm) url Hin) as Hurl.
  rewrite (monitor_position_run _ _ _ _ _ _ _ Hurl). unfold configured_url.
  destruct (get_protocol_interface protocol c _ w) as [t1 [adapter|e1]] eqn:E1;
    [|done].
  destruct (get_user_account_data adapter wallet w) as [t2 [[data|]|e2]] eqn:E2;
    [|done..].
  destruct (assemble c data) as [r'|e3] eqn:E3; simpl; [|done].
  intros [= ->]. split.
  - destruct (assemble_fields _ _ _ E3) as (-> & _).
    unfold DEFAULT_RPC_URLS in Hin.
    repeat (apply elem_of_cons in Hin as [[= -> ->]|Hin]; [done|]).
    by apply elem_of_nil in Hin.
  - exists url, adapter, t1, t2, data. split; [done|]. split; [done|]. split; [done|].
    by destruct (assemble_fields _ _ _ E3) as (_ & ? & ? & ? & ? & ? & ?).
Qed.

Lemma monitor_position_reports_adapter_figures_witness :
  outcome ((m <- init ;;
            monitor_position m "0x1111111111111111111111111111111111111111"
              AAVE_V3 1 None)%io (example_world sample_raw 0 0 0 []))
    = Ok (Some sample_position) ∧
  CHAIN_NAMES !! 1 = Some (p_chain_name sample_position) ∧
  ∃ url adapter t1 t2 data,
    (1, url) ∈ DEFAULT_RPC_URLS ∧
    get_protocol_interface AAVE_V3 1
      (default url (getenv (example_world sample_raw 0 0 0 []) (env_key 1)))
      (example_world sample_raw 0 0 0 []) = (t1, Ok adapter) ∧
    get_user_account_data adapter "0x1111111111111111111111111111111111111111"
      (example_world sample_raw 0 0 0 []) = (t2, Ok (Some data)) ∧
    p_health_factor sample_position = health_factor data ∧
    p_total_collateral_usd sample_position = total_collateral_usd data ∧
    p_total_debt_usd sample_position = total_debt_usd data ∧
    p_liquidation_threshold sample_position = liquidation_threshold data ∧
    p_ltv sample_position = ltv data ∧
    p_positions sample_position = positions data.
Proof.
  split; [reflexivity|].
  exact (monitor_position_reports_adapter_figures
           "0x1111111111111111111111111111111111111111" AAVE_V3 1 None
           (example_world sample_raw 0 0 0 []) sample_position eq_refl).
Defined.

(** ** Alert classification *)

(** X14: a NaN health factor triggers nothing: it is reported safe, whatever the
    threshold. *)
Theorem should_alert_nan_is_safe (hf : float) (threshold : option float) :
  is_nan hf = true → should_alert hf threshold = (false, "safe").
Proof.
  intros H. unfold should_alert. by rewrite !is_nan_ltb.
Qed.

Lemma should_alert_nan_is_safe_witness :
  should_alert nan (Some 1.5%float) = (false, "safe").
Proof. exact (should_alert_nan_is_safe nan (Some 1.5%float) eq_refl). Defined.

(** X15: severity is monotone: a health factor that is not above another is
    classified at least as grave, and alerts whenever the other does. *)
Theorem should_alert_monotone (hf1 hf2 : float) (threshold : option float) :
  PrimFloat.leb hf1 hf2 = true →
  (severity_rank (should_alert hf2 threshold).2
     ≤ severity_rank (should_alert hf1 threshold).2)%nat ∧
  ((should_alert hf2 threshold).1 = true → (should_alert hf1 threshold).1 = true).
Proof.
  intros Hle. unfold should_alert.
  set (th := default DEFAULT_ALERT_THRESHOLD threshold).
  destruct (PrimFloat.ltb hf2 1.05) eqn:C2.
  - rewrite (leb_ltb_trans _ _ _ Hle C2). by split.
  - destruct (PrimFloat.ltb hf2 th) eqn:W2.
    + rewrite (leb_ltb_trans _ _ _ Hle W2).
      destruct (PrimFloat.ltb hf1 1.05); cbn [fst snd]; split;
        first [ done | vm_compute; lia ].
    + destruct (PrimFloat.ltb hf1 1.05), (PrimFloat.ltb hf1 th); cbn [fst snd];
        split; first [ done | vm_compute; lia ].
Qed.

Lemma should_alert_monotone_witness :
  (severity_rank (should_alert 1.1 None).2
     ≤ severity_rank (should_alert 1.0 None).2)%nat ∧
  ((should_alert 1.1 None).1 = true → (should_alert 1.0 None).1 = true).
Proof. exact (should_alert_monotone 1.0 1.1 None eq_refl). Defined.

(** X16: the alert fires exactly below the larger of the threshold and the fixed
    critical bound 1.05: for a threshold of at least 1.05 it fires iff the
    health factor is below the threshold (below 1.2 by default); a threshold
    under 1.05 has no effect and no warning is ever issued. *)
Theorem should_alert_effective_threshold (hf th : float) :
  (should_alert hf None).1 = PrimFloat.ltb hf 1.2 ∧
  (PrimFloat.leb 1.05 th = true →
     (should_alert hf (Some th)).1 = PrimFloat.ltb hf th) ∧
  (PrimFloat.ltb th 1.05 = true →
     should_alert hf (Some th)
       = if PrimFloat.ltb hf 1.05 then (true, "critical") else (false, "safe")).
Proof.
  unfold should_alert. simpl. unfold DEFAULT_ALERT_THRESHOLD. repeat split.
  - destruct (PrimFloat.ltb hf 1.05) eqn:C.
    + by rewrite (ltb_leb_trans hf 1.05 1.2 C eq_refl).
    + by destruct (PrimFloat.ltb hf 1.2).
  - intros Hth. destruct (PrimFloat.ltb hf 1.05) eqn:C.
    + by rewrite (ltb_leb_trans hf 1.05 th C Hth).
    + by destruct (PrimFloat.ltb hf th).
  - intros Hth. destruct (PrimFloat.ltb hf 1.05) eqn:C; [done|].
    destruct (PrimFloat.ltb hf th) eqn:W; [|done].
    by rewrite (ltb_trans hf th 1.05 W Hth) in C.
Qed.

Lemma should_alert_effective_threshold_witness :
  PrimFloat.leb 1.05 1.5 = true ∧
  (should_alert 1.3 (Some 1.5%float)).1 = PrimFloat.ltb 1.3 1.5 ∧
  PrimFloat.ltb 1.0 1.05 = true ∧
  should_alert 1.04 (Some 1.0%float) = (true, "critical") ∧
  should_alert 1.1 (Some 1.0%float) = (false, "safe").
Proof.
  split; [reflexivity|].
  split; [exact (proj1 (proj2 (should_alert_effective_threshold 1.3 1.5)) eq_refl)|].
  split; [reflexivity|].
  split.
  - exact (proj2 (proj2 (should_alert_effective_threshold 1.04 1.0)) eq_refl).
  - exact (proj2 (proj2 (should_alert_effective_threshold 1.1 1.0)) eq_refl).
Defined.

(** ** The price feed *)

Section PriceFeedBehaviour.

Implicit Types (symbols : list string) (s id k : string).

Lemma upper_char_idemp (c : ascii) : upper_char (upper_char c) = upper_char c.
Proof. by destruct c as [[] [] [] [] [] [] [] []]. Qed.

Lemma upper_idemp s : upper (upper s) = upper s.
Proof. induction s as [|c s IH]; [done|]. simpl. by rewrite upper_char_idemp, IH. Qed.

Lemma map_symbol_upper (st : list string * gmap string string) s :
  map_symbol st (upper s) = map_symbol st s.
Proof. unfold map_symbol. by rewrite upper_idemp. Qed.

Lemma map_symbols_upper symbols : map_symbols (upper <$> symbols) = map_symbols symbols.
Proof.
  induction symbols as [|s l IH] using rev_ind; [done|].
  rewrite fmap_app. change (upper <$> [s]) with [upper s].
  by rewrite !map_symbols_snoc, IH, map_symbol_upper.
Qed.

Lemma symbol_to_id_unrequested symbols id :
  (∀ s, s ∈ symbols → id_of s ≠ Some id) → (map_symbols symbols).2 !! id = None.
Proof.
  intros H. destruct (_ !! id) as [k|] eqn:E; [|done].
  apply symbol_to_id_inv in E as (s & Hin & Hs & _). by destruct (H s Hin).
Qed.

Lemma parse_response_app (m : gmap string string)
    (l1 l2 : list (string * gmap string float)) (prices : gmap string float) :
  parse_response m (l1 ++ l2) prices =
    match parse_response m l1 prices with
    | (prices', Ok _) => parse_response m l2 prices'
    | (prices', Raise e) => (prices', Raise e)
    end.
Proof.
  revert prices. induction l1 as [|[id data] l1 IH]; intros prices; [done|].
  simpl. destruct (data !! "usd"); [|done]. by destruct (m !! id).
Qed.

Lemma parse_response_cut (m : gmap string string)
    (pre post : list (string * gmap string float)) (prices : gmap string float)
    id data (v : float) :
  data !! "usd" = Some v → m !! id = None →
  (parse_response m (pre ++ (id, data) :: post) prices).1
    = (parse_response m pre prices).1.
Proof.
  intros Hv Hm. rewrite parse_response_app.
  destruct (parse_response m pre prices) as [prices' [[]|e]]; [|done].
  simpl. by rewrite Hv, Hm.
Qed.

Lemma fallback_is_batch_lookup s (token_address : option string) (chain : option Z)
    (rpc_url : option string) (w : world) :
  get_token_price_with_fallback s token_address chain rpc_url w =
    (prices <- get_token_prices [s] ;; ret (prices !! upper s))%io w.
Proof.
  assert (H : ∀ k : option float → M (option float),
            (x <- ret None ;; k x)%io w = k None w).
  { intros k. unfold bind, ret. by destruct (k None w). }
  unfold get_token_price_with_fallback, get_price_from_chainlink.
  destruct token_address as [a|], chain as [c|], rpc_url as [u|];
    try (by rewrite H).
  destruct (truthy a && negb (c =? 0) && truthy u); by rewrite H.
Qed.

End PriceFeedBehaviour.

(** X17: for ASCII symbols, the price batch never fails and sends at most one
    request, to the aggregator only; when no symbol is mapped it sends none and
    returns no price; every key it returns is the upper-cased form of a mapped
    input symbol. *)
Theorem price_batch_never_fails (symbols : list string) (w : world) :
  forallb is_ascii symbols = true →
  ∃ prices,
    outcome (get_token_prices symbols w) = Ok prices ∧
    (length (trace (get_token_prices symbols w)) ≤ 1)%nat ∧
    forallb is_http (trace (get_token_prices symbols w)) = true ∧
    ((∀ s, s ∈ symbols → id_of s = None) →
       get_token_prices symbols w = ([], Ok ∅)) ∧
    (∀ k, is_Some (prices !! k) →
       ∃ s, s ∈ symbols ∧ k = upper s ∧ is_Some (id_of s)).
Proof.
  intros _.
  destruct (get_token_prices_returns symbols w) as [prices Hout].
  exists prices. split; [done|]. split; [|split; [|split]].
  - rewrite get_token_prices_unfold. destruct (omap id_of symbols); simpl; lia.
  - rewrite get_token_prices_unfold. by destruct (omap id_of symbols).
  - apply get_token_prices_unmapped.
  - intros k [v Hk].
    destruct (get_token_prices_sound symbols w prices k v Hout Hk)
      as (s & id & _ & _ & ? & ? & Hs & _).
    exists s. by rewrite Hs.
Qed.

Lemma price_batch_never_fails_witness :
  forallb is_ascii ["eth"; "UNKNOWNXYZ"] = true ∧
  ∃ prices,
    outcome (get_token_prices ["eth"; "UNKNOWNXYZ"] (aggregator_world eth_response))
      = Ok prices ∧
    (length (trace (get_token_prices ["eth"; "UNKNOWNXYZ"]
                      (aggregator_world eth_response))) ≤ 1)%nat ∧
    forallb is_http (trace (get_token_prices ["eth"; "UNKNOWNXYZ"]
                              (aggregator_world eth_response))) = true ∧
    ((∀ s, s ∈ ["eth"; "UNKNOWNXYZ"] → id_of s = None) →
       get_token_prices ["eth"; "UNKNOWNXYZ"] (aggregator_world eth_response)
         = ([], Ok ∅)) ∧
    (∀ k, is_Some (prices !! k) →
       ∃ s, s ∈ ["eth"; "UNKNOWNXYZ"] ∧ k = upper s ∧ is_Some (id_of s)).
Proof.
  split; [reflexivity|].
  exact (price_batch_never_fails ["eth"; "UNKNOWNXYZ"]
           (aggregator_world eth_response) eq_refl).
Defined.

(** X18: for ASCII symbols, every price the batch returns is the [usd] field
    of an entry of the aggregator's answer to the one request made, and that
    entry's id is the id of the input symbol the price is filed under. *)
Theorem price_batch_sound (symbols : list string) (w : world)
    (prices : gmap string float) (k : string) (v : float) :
  forallb is_ascii symbols = true →
  outcome (get_token_prices symbols w) = Ok prices → prices !! k = Some v →
  ∃ s id response data,
    s ∈ symbols ∧ k = upper s ∧ id_of s = Some id ∧
    trace (get_token_prices symbols w) = [HttpGet (price_url (omap id_of symbols))] ∧
    http_get_json w (price_url (omap id_of symbols)) = Ok response ∧
    (id, data) ∈ response ∧ data !! "usd" = Some v.
Proof.
  intros _ Hout Hk.
  destruct (get_token_prices_sound symbols w prices k v Hout Hk)
    as (s & id & response & data & Hin & -> & Hs & Hresp & Hd & Hv).
  exists s, id, response, data. repeat split; try done.
  rewrite get_token_prices_unfold.
  destruct (omap id_of symbols) eqn:E; [|done].
  rewrite get_token_prices_unfold, E in Hout. injection Hout as <-. done.
Qed.

Lemma price_batch_sound_witness :
  ∃ s id response data,
    s ∈ ["eth"; "DAI"] ∧ "ETH" = upper s ∧ id_of s = Some id ∧
    trace (get_token_prices ["eth"; "DAI"] (aggregator_world eth_response))
      = [HttpGet (price_url (omap id_of ["eth"; "DAI"]))] ∧
    http_get_json (aggregator_world eth_response)
      (price_url (omap id_of ["eth"; "DAI"])) = Ok response ∧
    (id, data) ∈ response ∧ data !! "usd" = Some 3000%float.
Proof.
  exact (price_batch_sound ["eth"; "DAI"] (aggregator_world eth_response)
           {[ "ETH" := 3000%float ]} "ETH" 3000%float eq_refl eq_refl eq_refl).
Defined.



(** X20: a failed request (transport error or error status) is swallowed: the
    batch returns no price at all, and the single lookup returns None. *)
Theorem price_request_failure_is_silent (symbols : list string) (s : string)
    (w : world) :
  (∀ url, ∃ e, http_get_json w url = Raise e) →
  outcome (get_token_prices symbols w) = Ok ∅ ∧
  outcome (get_token_price_with_fallback s None None None w) = Ok None.
Proof.
  intros H. split.
  - rewrite get_token_prices_unfold. destruct (omap id_of symbols) as [|i ids]; [done|].
    simpl. by destruct (H (price_url (i :: ids))) as [e ->].
  - rewrite fallback_is_batch_lookup. unfold bind, ret.
    rewrite get_token_prices_unfold. destruct (omap id_of [s]) as [|i ids]; [done|].
    cbv beta iota zeta. by destruct (H (price_url (i :: ids))) as [e ->].
Qed.

Lemma price_request_failure_is_silent_witness :
  outcome (get_token_prices ["ETH"; "DAI"] offline_world) = Ok ∅ ∧
  outcome (get_token_price_with_fallback "ETH" None None None offline_world) = Ok None.
Proof.
  apply (price_request_failure_is_silent ["ETH"; "DAI"] "ETH" offline_world).
  intros url. by exists HTTPError.
Defined.

(** X21: for ASCII symbols, an answer that carries a priced entry for an id that
    was not requested ends the batch at that entry: the result is what the
    entries before it gave, and every entry after it is lost. *)
Theorem unrequested_id_truncates_batch (symbols : list string) (w w' : world)
    (pre post : list (string * gmap string float)) (id : string)
    (data : gmap string float) (v : float) :
  forallb is_ascii symbols = true →
  (∀ s, s ∈ symbols → id_of s ≠ Some id) → data !! "usd" = Some v →
  http_get_json w (price_url (omap id_of symbols)) = Ok (pre ++ (id, data) :: post) →
  http_get_json w' (price_url (omap id_of symbols)) = Ok pre →
  get_token_prices symbols w = get_token_prices symbols w'.
Proof.
  intros _ Hid Hv Hw Hw'. rewrite !get_token_prices_unfold.
  destruct (omap id_of symbols) as [|i ids]; [done|]. simpl. rewrite Hw, Hw'.
  do 2 f_equal. eapply parse_response_cut; [done|].
  by apply symbol_to_id_unrequested.
Qed.

Lemma unrequested_id_truncates_batch_witness :
  get_token_prices ["DAI"; "ETH"]
    (aggregator_world
       ([("dai", {[ "usd" := 1%float ]})]
          ++ ("bitcoin", {[ "usd" := 60000%float ]}) :: eth_response))
  = get_token_prices ["DAI"; "ETH"]
      (aggregator_world [("dai", {[ "usd" := 1%float ]})]).
Proof.
  refine (unrequested_id_truncates_batch ["DAI"; "ETH"]
            (aggregator_world
               ([("dai", {[ "usd" := 1%float ]})]
                  ++ ("bitcoin", {[ "usd" := 60000%float ]}) :: eth_response))
            (aggregator_world [("dai", {[ "usd" := 1%float ]})])
            [("dai", {[ "usd" := 1%float ]})] eth_response "bitcoin"
            {[ "usd" := 60000%float ]} 60000%float eq_refl _ eq_refl eq_refl eq_refl).
  intros s Hs.
  repeat (apply elem_of_cons in Hs as [->|Hs]; [discriminate|]).
  by apply elem_of_nil in Hs.
Defined.

(** X22: symbols are matched without regard to case: a batch gives the same
    request and the same prices as the batch of its upper-cased symbols, and
    every key of the result is in upper case. *)
Theorem price_batch_ignores_case (symbols : list string) (w : world) :
  get_token_prices (upper <$> symbols) w = get_token_prices symbols w ∧
  ∃ prices, outcome (get_token_prices symbols w) = Ok prices ∧
            ∀ k, is_Some (prices !! k) → upper k = k.
Proof.
  split.
  - unfold get_token_prices. by rewrite map_symbols_upper.
  - destruct (get_token_prices_returns symbols w) as [prices Hout].
    exists prices. split; [done|]. intros k [v Hk].
    destruct (get_token_prices_sound symbols w prices k v Hout Hk)
      as (s & _ & _ & _ & _ & -> & _).
    apply upper_idemp.
Qed.

(** X23: the single lookup of an ASCII symbol never consults a chain: whatever
    token address, chain id and endpoint it is given, it is the case-insensitive
    lookup of the symbol in the batch of that one symbol, it never fails, and
    its only traffic is the batch's request to the aggregator. *)
Theorem fallback_never_consults_chain (s : string) (token_address : option string)
    (chain : option Z) (rpc_url : option string) (w : world) :
  is_ascii s = true →
  ∃ prices,
    get_token_prices [s] w = (trace (get_token_prices [s] w), Ok prices) ∧
    get_token_price_with_fallback s token_address chain rpc_url w
      = (trace (get_token_prices [s] w), Ok (prices !! upper s)) ∧
    forallb is_http (trace (get_token_prices [s] w)) = true.
Proof.
  intros _.
  rewrite fallback_is_batch_lookup. unfold bind, ret.
  rewrite get_token_prices_unfold.
  generalize (map_symbols [s]).2. intros m.
  destruct (omap id_of [s]) as [|i ids]; eexists; cbn [trace fst app]; done.
Qed.

Lemma fallback_never_consults_chain_witness :
  is_ascii "eth" = true ∧
  ∃ prices,
    get_token_prices ["eth"] (aggregator_world eth_response)
      = (trace (get_token_prices ["eth"] (aggregator_world eth_response)), Ok prices) ∧
    get_token_price_with_fallback "eth"
      (Some "0xC02aaA39b223FE8D0A0e5C4F27eAD9083C756Cc2") (Some 1)
      (Some "https://eth.llamarpc.com") (aggregator_world eth_response)
      = (trace (get_token_prices ["eth"] (aggregator_world eth_response)),
         Ok (prices !! upper "eth")) ∧
    forallb is_http (trace (get_token_prices ["eth"] (aggregator_world eth_response)))
      = true.
Proof.
  split; [reflexivity|].
  exact (fallback_never_consults_chain "eth"
           (Some "0xC02aaA39b223FE8D0A0e5C4F27eAD9083C756Cc2") (Some 1)
           (Some "https://eth.llamarpc.com") (aggregator_world eth_response) eq_refl).
Defined.

(** X24: the single lookup of a mapped ASCII symbol returns the [usd] field of
    the entry the aggregator answers for the symbol's id, and None for an ASCII
    symbol that is not mapped, then without any request. *)
Theorem fallback_price (s : string) (token_address : option string)
    (chain : option Z) (rpc_url : option string) (w : world) :
  is_ascii s = true →
  (id_of s = None →
     get_token_price_with_fallback s token_address chain rpc_url w = ([], Ok None)) ∧
  (∀ id data v,
     id_of s = Some id → http_get_json w (price_url [id]) = Ok [(id, data)] →
     data !! "usd" = Some v →
     get_token_price_with_fallback s token_address chain rpc_url w
       = ([HttpGet (price_url [id])], Ok (Some v))).
Proof.
  intros _.
  rewrite fallback_is_batch_lookup. unfold bind, ret.
  rewrite get_token_prices_unfold. unfold map_symbols. cbn [foldl omap list_omap].
  rewrite map_symbol_id_of. split.
  - by intros ->.
  - intros id data v -> Hw Hv. cbn [fst snd app]. rewrite Hw. simpl.
    rewrite Hv, lookup_insert_eq. simpl. by rewrite lookup_insert_eq.
Qed.

Lemma fallback_price_witness :
  is_ascii "eth" = true ∧ is_ascii "UNKNOWNXYZ" = true ∧
  id_of "eth" = Some "ethereum" ∧
  http_get_json (aggregator_world eth_response) (price_url ["ethereum"])
    = Ok [("ethereum", {[ "usd" := 3000%float ]})] ∧
  get_token_price_with_fallback "eth"
    (Some "0xC02aaA39b223FE8D0A0e5C4F27eAD9083C756Cc2") (Some 1)
    (Some "https://eth.llamarpc.com") (aggregator_world eth_response)
    = ([HttpGet (price_url ["ethereum"])], Ok (Some 3000%float)) ∧
  id_of "UNKNOWNXYZ" = None ∧
  get_token_price_with_fallback "UNKNOWNXYZ" None None None
    (aggregator_world eth_response) = ([], Ok None).
Proof.
  split; [reflexivity|]. split; [reflexivity|].
  split; [reflexivity|]. split; [reflexivity|]. split.
  - exact (proj2 (fallback_price "eth"
             (Some "0xC02aaA39b223FE8D0A0e5C4F27eAD9083C756Cc2") (Some 1)
             (Some "https://eth.llamarpc.com") (aggregator_world eth_response)
             eq_refl)
           "ethereum" {[ "usd" := 3000%float ]} 3000%float eq_refl eq_refl eq_refl).
  - split; [reflexivity|].
    exact (proj1 (fallback_price "UNKNOWNXYZ" None None None
                    (aggregator_world eth_response) eq_refl) eq_refl).
Defined.

(** ** The HTTP endpoint *)

Section EndpointFacts.

Variable py_round : float → Z → float.
Variable utcnow_isoformat : string.
Variable str_exn : exn → string.

Lemma ProtocolType_of_value_ok (value : string) :
  value ∈ PROTOCOL_IDS → ∃ p, Main.ProtocolType_of_value value = Ok p.
Proof.
  intros H. unfold PROTOCOL_IDS in H.
  repeat (apply elem_of_cons in H as [->|H]; [by eexists|]).
  by apply elem_of_nil in H.
Qed.

Lemma ProtocolType_of_value_raise (value : string) :
  value ∉ PROTOCOL_IDS → Main.ProtocolType_of_value value = Raise ValueError.
Proof.
  intros H. unfold PROTOCOL_IDS in H. unfold Main.ProtocolType_of_value.
  repeat (apply not_elem_of_cons in H as [? H]).
  repeat match goal with
         | Hne : value ≠ ?s |- context [String.eqb value ?s] =>
             destruct (String.eqb_spec value s); [done|]
         end.
  done.
Qed.

Lemma endpoint_run (lending_monitor : LendingMonitor) (request : Main.MonitorRequest)
    (w : world) (protocol_id : string) (protocol : ProtocolType) :
  head (Main.req_protocol_ids request) = Some protocol_id →
  Main.ProtocolType_of_value protocol_id = Ok protocol →
  ∃ t r,
    LendingMonitor.monitor_position lending_monitor (Main.req_wallet request) protocol
      (Main.req_chain_id request) (Main.req_positions request) w = (t, Ok r) ∧
    Main.monitor_position py_round utcnow_isoformat str_exn lending_monitor request w =
      (t, match r with
          | None => inl {| Main.status_code := 503;
                           Main.detail := "Failed to fetch position data" |}
          | Some p => inr (Main.respond py_round utcnow_isoformat request protocol_id p)
          end).
Proof.
  intros Hhd Hp. unfold Main.monitor_position.
  destruct (Main.req_protocol_ids request) as [|id ids]; [done|].
  injection Hhd as ->. rewrite Hp.
  destruct (monitor_position_returns lending_monitor (Main.req_wallet request) protocol
              (Main.req_chain_id request) (Main.req_positions request) w) as [r Hr].
  destruct (LendingMonitor.monitor_position _ _ _ _ _ w) as [t res].
  simpl in Hr. subst res. exists t, r. split; [done|]. by destruct r.
Qed.

Lemma respond_alert (request : Main.MonitorRequest) (protocol_id : string)
    (p : position) :
  let r := Main.respond py_round utcnow_isoformat request protocol_id p in
  (Main.resp_alert_threshold_hit r, Main.resp_severity r)
    = should_alert (p_health_factor p) None.
Proof.
  unfold Main.respond, should_alert, DEFAULT_ALERT_THRESHOLD. cbn.
  destruct (PrimFloat.ltb (p_health_factor p) 1.05) eqn:C.
  - by rewrite (ltb_leb_trans _ 1.05 1.2 C eq_refl).
  - by destruct (PrimFloat.ltb (p_health_factor p) 1.2).
Qed.

End EndpointFacts.

(** X25: the endpoint answers 400 exactly when the first protocol id is missing
    or is not one of the four protocol values (matched case-sensitively); it
    then causes no network traffic, whatever ids follow. *)
Theorem endpoint_rejects_unknown_protocol (py_round : float → Z → float)
    (utcnow_isoformat : string) (str_exn : exn → string)
    (lending_monitor : LendingMonitor) (request : Main.MonitorRequest) (w : world) :
  let answer :=
    Main.monitor_position py_round utcnow_isoformat str_exn lending_monitor request w in
  ((∀ id, head (Main.req_protocol_ids request) = Some id → id ∉ PROTOCOL_IDS) →
     answer.1 = [] ∧ status_of answer.2 = 400) ∧
  (∀ id, head (Main.req_protocol_ids request) = Some id → id ∈ PROTOCOL_IDS →
     status_of answer.2 ≠ 400).
Proof.
  cbv zeta. split.
  - intros H. unfold Main.monitor_position.
    destruct (Main.req_protocol_ids request) as [|id ids]; [done|].
    by rewrite (ProtocolType_of_value_raise id (H id eq_refl)).
  - intros id Hhd Hin.
    destruct (ProtocolType_of_value_ok id Hin) as [p Hp].
    destruct (endpoint_run py_round utcnow_isoformat str_exn lending_monitor request w
                id p Hhd Hp) as (t & r & _ & ->).
    by destruct r.
Qed.

Lemma endpoint_rejects_unknown_protocol_witness :
  (Main.monitor_position (fun x _ => x) "2024-01-01T00:00:00" (fun _ => "")
     ethereum_monitor
     {| Main.req_wallet := "0x1111111111111111111111111111111111111111";
        Main.req_protocol_ids := ["AAVE_V3"; "aave_v3"];
        Main.req_chain_id := 1;
        Main.req_positions := None |}
     (example_world sample_raw 0 0 0 [])).1 = [] ∧
  status_of
    (Main.monitor_position (fun x _ => x) "2024-01-01T00:00:00" (fun _ => "")
       ethereum_monitor
       {| Main.req_wallet := "0x1111111111111111111111111111111111111111";
          Main.req_protocol_ids := ["AAVE_V3"; "aave_v3"];
          Main.req_chain_id := 1;
          Main.req_positions := None |}
       (example_world sample_raw 0 0 0 [])).2 = 400.
Proof.
  apply (proj1 (endpoint_rejects_unknown_protocol
                  (fun x _ => x) "2024-01-01T00:00:00" (fun _ => "") ethereum_monitor
                  {| Main.req_wallet := "0x1111111111111111111111111111111111111111";
                     Main.req_protocol_ids := ["AAVE_V3"; "aave_v3"];
                     Main.req_chain_id := 1;
                     Main.req_positions := None |}
                  (example_world sample_raw 0 0 0 []))).
  intros id [= <-] H. unfold PROTOCOL_IDS in H.
  repeat (apply elem_of_cons in H as [H|H]; [discriminate|]).
  by apply elem_of_nil in H.
Defined.

(** X26: every answer of the endpoint is a 400, a 503 or a response, never a
    500: no failure of the chain, of the adapter or of the arithmetic reaches
    the generic handler. With a valid first protocol id the traffic is the
    monitor's, the answer is 503 with "Failed to fetch position data" exactly
    when the monitor gives None, and only the first id is used. *)
Theorem endpoint_answers (py_round : float → Z → float)
    (utcnow_isoformat : string) (str_exn : exn → string)
    (lending_monitor : LendingMonitor) (request : Main.MonitorRequest) (w : world) :
  let answer :=
    Main.monitor_position py_round utcnow_isoformat str_exn lending_monitor request w in
  status_of answer.2 ∈ [200; 400; 503] ∧
  (∀ id protocol,
     head (Main.req_protocol_ids request) = Some id →
     Main.ProtocolType_of_value id = Ok protocol →
     ∃ r,
       LendingMonitor.monitor_position lending_monitor (Main.req_wallet request)
         protocol (Main.req_chain_id request) (Main.req_positions request) w
         = (answer.1, Ok r) ∧
       answer.2 =
         match r with
         | None => inl {| Main.status_code := 503;
                          Main.detail := "Failed to fetch position data" |}
         | Some p => inr (Main.respond py_round utcnow_isoformat request id p)
         end).
Proof.
  cbv zeta. split.
  - destruct (head (Main.req_protocol_ids request)) as [id|] eqn:Hhd.
    + destruct (Main.ProtocolType_of_value id) as [p|e] eqn:Hp.
      * destruct (endpoint_run py_round utcnow_isoformat str_exn lending_monitor
                    request w id p Hhd Hp) as (t & r & _ & ->).
        destruct r; cbn; set_solver.
      * unfold Main.monitor_position.
        destruct (Main.req_protocol_ids request) as [|id' ids]; [done|].
        injection Hhd as ->. rewrite Hp. cbn. set_solver.
    + unfold Main.monitor_position.
      destruct (Main.req_protocol_ids request) as [|id' ids]; [|done].
      cbn. set_solver.
  - intros id protocol Hhd Hp.
    destruct (endpoint_run py_round utcnow_isoformat str_exn lending_monitor
                request w id protocol Hhd Hp) as (t & r & Hm & ->).
    by exists r.
Qed.

(** X27: a chain outside the seven defaults, or Spark or Radiant on a chain
    where they have no pool, is answered 503 without any network traffic (not
    400), by the endpoint over an initialised monitor. *)
Theorem endpoint_unsupported_chain (py_round : float → Z → float)
    (utcnow_isoformat : string) (str_exn : exn → string)
    (request : Main.MonitorRequest) (id : string) (protocol : ProtocolType)
    (w : world) (lending_monitor : LendingMonitor) :
  outcome (init w) = Ok lending_monitor →
  head (Main.req_protocol_ids request) = Some id →
  Main.ProtocolType_of_value id = Ok protocol →
  Main.req_chain_id request ∉ [1; 137; 42161; 10; 8453; 43114; 56] ∨
  ((protocol = SPARK ∨ protocol = RADIANT) ∧
   address_table protocol !! Main.req_chain_id request = None) →
  Main.monitor_position py_round utcnow_isoformat str_exn lending_monitor request w
    = ([], inl {| Main.status_code := 503;
                  Main.detail := "Failed to fetch position data" |}).
Proof.
  intros Hinit Hhd Hp Hcase.
  destruct (endpoint_run py_round utcnow_isoformat str_exn lending_monitor request w
              id protocol Hhd Hp) as (t & r & Hm & ->).
  assert (E : LendingMonitor.monitor_position lending_monitor (Main.req_wallet request)
                protocol (Main.req_chain_id request) (Main.req_positions request) w
              = ([], Ok None)).
  { destruct (rpc_urls lending_monitor !! Main.req_chain_id request) as [url|] eqn:Hurl.
    2:{ by apply monitor_position_unconfigured. }
    rewrite (monitor_position_run _ _ _ _ _ _ _ Hurl).
    destruct Hcase as [Hc | [[-> | ->] Hc]].
    - by rewrite (proj2 (init_lookup w lending_monitor _ Hinit) Hc) in Hurl.
    - by rewrite spark_unsupported_chain.
    - by rewrite radiant_unsupported_chain. }
  rewrite E in Hm. by injection Hm as <- <-.
Qed.

Lemma endpoint_unsupported_chain_witness :
  Main.monitor_position (fun x _ => x) "2024-01-01T00:00:00" (fun _ => "")
    {| rpc_urls :=
         foldl (fun urls '(chain_id, url) => <[ chain_id := url ]> urls)
               ∅ DEFAULT_RPC_URLS |}
    {| Main.req_wallet := "0x1111111111111111111111111111111111111111";
       Main.req_protocol_ids := ["spark"; "aave_v3"];
       Main.req_chain_id := 137;
       Main.req_positions := None |}
    (example_world sample_raw 0 0 0 [])
  = ([], inl {| Main.status_code := 503;
                Main.detail := "Failed to fetch position data" |}).
Proof.
  refine (endpoint_unsupported_chain (fun x _ => x) "2024-01-01T00:00:00" (fun _ => "")
            {| Main.req_wallet := "0x1111111111111111111111111111111111111111";
               Main.req_protocol_ids := ["spark"; "aave_v3"];
               Main.req_chain_id := 137;
               Main.req_positions := None |}
            "spark" SPARK (example_world sample_raw 0 0 0 []) _
            eq_refl eq_refl eq_refl (or_intror (conj (or_introl eq_refl) eq_refl))).
Defined.

(** X28: a response's alert flag and severity are what [should_alert] gives,
    with its default threshold, for the health factor the monitor returned
    (before rounding); the liquidation price, the chain name and the positions
    are the monitor's, and wallet, protocol id and chain id are the request's. *)
Theorem endpoint_alert_agrees_with_should_alert (py_round : float → Z → float)
    (utcnow_isoformat : string) (str_exn : exn → string)
    (lending_monitor : LendingMonitor) (request : Main.MonitorRequest) (w : world)
    (t : list event) (r : Main.MonitorResponse) :
  Main.monitor_position py_round utcnow_isoformat str_exn lending_monitor request w
    = (t, inr r) →
  ∃ id protocol p,
    head (Main.req_protocol_ids request) = Some id ∧
    Main.ProtocolType_of_value id = Ok protocol ∧
    LendingMonitor.monitor_position lending_monitor (Main.req_wallet request) protocol
      (Main.req_chain_id request) (Main.req_positions request) w = (t, Ok (Some p)) ∧
    (Main.resp_alert_threshold_hit r, Main.resp_severity r)
      = should_alert (p_health_factor p) None ∧
    Main.resp_health_factor r = py_round (p_health_factor p) 4 ∧
    Main.resp_liq_price r = p_liq_price p ∧
    Main.resp_chain_name r = p_chain_name p ∧
    Main.resp_positions r = p_positions p ∧
    Main.resp_wallet r = Main.req_wallet request ∧
    Main.resp_protocol r = id ∧
    Main.resp_chain_id r = Main.req_chain_id request.
Proof.
  intros H.
  destruct (head (Main.req_protocol_ids request)) as [id|] eqn:Hhd.
  2:{ unfold Main.monitor_position in H.
      by destruct (Main.req_protocol_ids request). }
  destruct (Main.ProtocolType_of_value id) as [protocol|e] eqn:Hp.
  2:{ unfold Main.monitor_position in H.
      destruct (Main.req_protocol_ids request) as [|id' ids]; [done|].
      injection Hhd as ->. by rewrite Hp in H. }
  destruct (endpoint_run py_round utcnow_isoformat str_exn lending_monitor request w
              id protocol Hhd Hp) as (t' & r' & Hm & E).
  rewrite E in H. destruct r' as [p|]; [|done]. injection H as <- <-.
  exists id, protocol, p. split; [done|]. split; [done|]. split; [done|].
  split; [apply respond_alert|]. done.
Qed.

Lemma endpoint_alert_agrees_with_should_alert_witness :
  Main.monitor_position (fun x _ => x) "2024-01-01T00:00:00" (fun _ => "")
    ethereum_monitor
    {| Main.req_wallet := "0x1111111111111111111111111111111111111111";
       Main.req_protocol_ids := ["aave_v3"];
       Main.req_chain_id := 1;
       Main.req_positions := None |}
    (example_world sample_raw 0 0 0 [])
  = ([IsConnected "https://eth.llamarpc.com";
      ContractRead "https://eth.llamarpc.com"
        "0x87870Bca3F3fD6335C3F4ce8392D69350B4fA4E2" "getUserAccountData"
        ["0x1111111111111111111111111111111111111111"]],
     inr (Main.respond (fun x _ => x) "2024-01-01T00:00:00"
            {| Main.req_wallet := "0x1111111111111111111111111111111111111111";
               Main.req_protocol_ids := ["aave_v3"];
               Main.req_chain_id := 1;
               Main.req_positions := None |}
            "aave_v3" sample_position)) ∧
  ∃ id protocol p,
    head ["aave_v3"] = Some id ∧
    Main.ProtocolType_of_value id = Ok protocol ∧
    LendingMonitor.monitor_position ethereum_monitor
      "0x1111111111111111111111111111111111111111" protocol 1 None
      (example_world sample_raw 0 0 0 [])
    = ([IsConnected "https://eth.llamarpc.com";
        ContractRead "https://eth.llamarpc.com"
          "0x87870Bca3F3fD6335C3F4ce8392D69350B4fA4E2" "getUserAccountData"
          ["0x1111111111111111111111111111111111111111"]], Ok (Some p)) ∧
    (false, "safe") = should_alert (p_health_factor p) None ∧
    1.65%float = p_health_factor p ∧
    Some (2500 / (5000 * 0.825))%float = p_liq_price p ∧
    "Ethereum" = p_chain_name p ∧
    [] = p_positions p ∧
    "0x1111111111111111111111111111111111111111"
      = "0x1111111111111111111111111111111111111111" ∧
    "aave_v3" = id ∧
    1 = 1.
Proof.
  split; [reflexivity|].
  exact (endpoint_alert_agrees_with_should_alert
           (fun x _ => x) "2024-01-01T00:00:00" (fun _ => "") ethereum_monitor
           {| Main.req_wallet := "0x1111111111111111111111111111111111111111";
              Main.req_protocol_ids := ["aave_v3"];
              Main.req_chain_id := 1;
              Main.req_positions := None |}
           (example_world sample_raw 0 0 0 []) _ _ eq_refl).
Defined.

Section BufferPercent.

Lemma SFsub_above_one (x : spec_float) :
  valid_binary x = true →
  SFltb (S754_finite false 4503599627370496 (-52)) x = true →
  at_least_zero (SFsub prec emax x (S754_finite false 4503599627370496 (-52))).
Proof.
  destruct x as [[]|[]| |[] mx ex]; try done.
  intros Hv Hlt. unfold SFsub.
  set (one := 4503599627370496%positive) in *.
  pose proof (shl_align_spec mx ex (Z.min ex (-52))) as S1.
  pose proof (shl_align_spec one (-52) (Z.min ex (-52))) as S2.
  destruct (shl_align mx ex _) as [m1 e1], (shl_align one (-52) _) as [m2 e2].
  destruct S1 as [-> S1], S2 as [-> S2]. cbn [fst cond_Zopp].
  assert (Hge : Z.pos m2 ≤ Z.pos m1).
  { unfold SFltb, SFcompare in Hlt.
    destruct (Z.compare_spec (-52) ex) as [<-|Hex|Hex]; [| |done].
    - change (Pos.compare_cont Eq one mx) with (Pos.compare one mx) in Hlt.
      destruct (Pos.compare_spec one mx); try done.
      replace (-52 - Z.min (-52) (Z.min (-52) (-52))) with 0 in * by lia. lia.
    - simpl in Hv. unfold bounded, canonical_mantissa in Hv.
      apply andb_true_iff in Hv as [Hc _]. apply Z.eqb_eq in Hc.
      rewrite fexp_eq in Hc.
      pose proof (Zdigits2_bounds (Z.pos mx) ltac:(lia)) as [Hlo _].
      change (Zdigits2 (Z.pos mx)) with (Z.pos (digits2_pos mx)) in Hlo.
      replace (Z.pos (digits2_pos mx) - 1) with 52 in Hlo by lia.
      replace (Z.min ex (Z.min ex (-52))) with (-52) in * by lia.
      replace (Z.min (-52) (Z.min ex (-52))) with (-52) in * by lia.
      replace (-52 - -52) with 0 in S2 by lia.
      pose proof (Z.pow_pos_nonneg 2 (ex - -52) ltac:(lia) ltac:(lia)).
      change (2 ^ 52) with 4503599627370496 in Hlo.
      change (Z.pos one) with 4503599627370496 in S2. nia. }
  destruct (Z.pos m1 - Z.pos m2) as [|d|d] eqn:E; [done| |lia].
  cbn [binary_normalize]. unfold binary_round.
  destruct (shl_align d _ _) as [mz ez].
  by apply binary_round_aux_at_least_zero.
Qed.

Lemma SFleb_not_ltb x y : SFleb x y = true → SFltb y x = false.
Proof.
  unfold SFltb, SFleb.
  destruct x as [[]|[]| |[] mx ex], y as [[]|[]| |[] my ey]; simpl; try done;
    intros H; cmp_cases.
Qed.

Lemma buffer_percent_at_least_zero (hf : float) :
  PrimFloat.leb 0 (Main.buffer_percent hf) = true.
Proof.
  unfold Main.buffer_percent. destruct (PrimFloat.ltb 1 hf) eqn:H; [|done].
  apply at_least_zero_leb. rewrite mul_spec.
  assert (Hs : at_least_zero (Prim2SF (hf - 1))).
  { rewrite sub_spec. apply SFsub_above_one; [apply Prim2SF_valid|].
    by rewrite FloatAxioms.ltb_spec in H. }
  assert (Hd : at_least_zero (Prim2SF ((hf - 1) / 1))).
  { rewrite div_spec. by apply SFdiv_at_least_zero. }
  destruct (Prim2SF ((hf - 1) / 1)) as [[]|[]| |[] m e] eqn:E; try done.
  by apply binary_round_aux_at_least_zero.
Qed.

End BufferPercent.

(** X29: the safety buffer the endpoint reports (before rounding) is never
    negative and never NaN, whatever the health factor; it is zero for a health
    factor of at most 1 and for a NaN one. *)
Theorem buffer_percent_never_negative (hf : float) :
  PrimFloat.leb 0 (Main.buffer_percent hf) = true ∧
  (PrimFloat.leb hf 1 = true ∨ is_nan hf = true → Main.buffer_percent hf = 0%float).
Proof.
  split; [apply buffer_percent_at_least_zero|].
  intros H. unfold Main.buffer_percent.
  replace (PrimFloat.ltb 1 hf) with false; [done|]. symmetry.
  destruct H as [H|H].
  - rewrite FloatAxioms.ltb_spec. apply SFleb_not_ltb.
    by rewrite <- FloatAxioms.leb_spec.
  - unfold is_nan in H. rewrite FloatAxioms.eqb_spec in H.
    rewrite FloatAxioms.ltb_spec. unfold SFeqb, SFltb in *.
    destruct (Prim2SF hf) as [[]|[]| |[] m e]; simpl in *; try done;
      by rewrite Z.compare_refl, Pos.compare_cont_refl in H.
Qed.
